(** * A contact directory: validated fields, records, the address book and
      the upcoming-birthdays query of [home_work_7.py].

    The development embeds the Python program shallowly:
    - a Python [str] is a list of Unicode code points;
    - an exception is a value of [exn]; a call that may raise returns a
      [result];
    - methods that mutate [self] are computations in a small state-and-error
      monad whose state survives a raise, so that "the object is left
      unchanged" is a statement about the final state;
    - [Record] objects live in a heap and the address book maps names to
      references, as the Python dict does;
    - the parts of the language runtime the program calls ([str.isdigit],
      [datetime.strptime], [date] arithmetic) are embedded from CPython 3.11
      ([datetime.py], [_strptime.py]; Unicode 14.0 digit tables). *)

From Stdlib Require Import ZArith List String Ascii Bool Lia.
From stdpp Require Import base list.

Local Open Scope Z_scope.

(** ** Python strings *)

Section PyStr.

(** A Unicode code point. *)
Definition char := Z.

(** A Python [str]: a sequence of code points; [len] is [length]. *)
Definition pystr := list char.

(** An ASCII literal of the source as a Python string. *)
Definition lit (s : string) : pystr :=
map (fun a => Z.of_nat (nat_of_ascii a)) (list_ascii_of_string s).

Definition pystr_eqb (a b : pystr) : bool := bool_decide (a = b).

Definition len (s : pystr) : Z := Z.of_nat (length s).

(** Code points of [Numeric_Type=Decimal] (general category [Nd]) come in
  runs of ten consecutive code points with values 0 to 9; the table lists
  the first code point of each run. *)
Definition decimal_runs : list Z :=
[ 0x30; 0x660; 0x6f0; 0x7c0; 0x966; 0x9e6; 0xa66; 0xae6; 0xb66; 0xbe6;
  0xc66; 0xce6; 0xd66; 0xde6; 0xe50; 0xed0; 0xf20; 0x1040; 0x1090;
  0x17e0; 0x1810; 0x1946; 0x19d0; 0x1a80; 0x1a90; 0x1b50; 0x1bb0;
  0x1c40; 0x1c50; 0xa620; 0xa8d0; 0xa900; 0xa9d0; 0xa9f0; 0xaa50;
  0xabf0; 0xff10; 0x104a0; 0x10d30; 0x11066; 0x110f0; 0x11136; 0x111d0;
  0x112f0; 0x11450; 0x114d0; 0x11650; 0x116c0; 0x11730; 0x118e0;
  0x11950; 0x11c50; 0x11d50; 0x11da0; 0x16a60; 0x16ac0; 0x16b50;
  0x1d7ce; 0x1d7d8; 0x1d7e2; 0x1d7ec; 0x1d7f6;
  0x1e140; 0x1e2f0; 0x1e950; 0x1fbf0 ].

(** Code points of [Numeric_Type=Digit] that are not decimal: superscripts,
  subscripts, circled and parenthesised digits and the like, as inclusive
  ranges. *)
Definition digit_only_ranges : list (Z * Z) :=
[ (0xb2, 0xb3); (0xb9, 0xb9); (0x1369, 0x1371); (0x19da, 0x19da);
  (0x2070, 0x2070); (0x2074, 0x2079); (0x2080, 0x2089); (0x2460, 0x2468);
  (0x2474, 0x247c); (0x2488, 0x2490); (0x24ea, 0x24ea); (0x24f5, 0x24fd);
  (0x24ff, 0x24ff); (0x2776, 0x277e); (0x2780, 0x2788); (0x278a, 0x2792);
  (0x10a40, 0x10a43); (0x10e60, 0x10e68); (0x11052, 0x1105a);
  (0x1f100, 0x1f10a) ].

(** [Py_UNICODE_TODECIMAL]: the decimal value of a code point, if any. *)
Fixpoint decimal_in (runs : list Z) (c : char) : option Z :=
match runs with
| [] => None
| z :: runs' =>
    if (z <=? c) && (c <=? z + 9) then Some (c - z) else decimal_in runs' c
end.

Definition unicode_decimal (c : char) : option Z := decimal_in decimal_runs c.

(** [str.isdecimal] on one character; also the class [\d] of [re] on [str]
  patterns. *)
Definition isdecimal_char (c : char) : bool :=
match unicode_decimal c with Some _ => true | None => false end.

(** [Py_UNICODE_ISDIGIT]: [Numeric_Type] is [Digit] or [Decimal]. *)
Definition isdigit_char (c : char) : bool :=
isdecimal_char c
|| existsb (fun '(lo, hi) => (lo <=? c) && (c <=? hi)) digit_only_ranges.

(** [str.isdigit()]: all characters are digits and there is at least one. *)
Definition isdigit (s : pystr) : bool :=
match s with
| [] => false
| _ => forallb isdigit_char s
end.

(** The ten ASCII digits. *)
Definition ascii_digit (c : char) : bool := (0x30 <=? c) && (c <=? 0x39).

End PyStr.

(** ** Exceptions and results *)

Inductive exn : Type :=
| ValueError (msg : pystr)
| KeyError (msg : pystr)
| OverflowError (msg : pystr).

Inductive result (A : Type) : Type :=
| Ok (a : A)
| Raise (e : exn).
Arguments Ok {A} a.
Arguments Raise {A} e.

Definition rbind {A B} (r : result A) (k : A -> result B) : result B :=
  match r with
  | Ok a => k a
  | Raise e => Raise e
  end.

Notation "'try!' x ':=' c 'in' k" := (rbind c (fun x => k))
  (at level 10, x name, c at level 100, k at level 200).

(** ** [datetime.date] of the runtime

    Embedded from CPython's [datetime.py]; the names are the runtime's. *)

Section PyDate.

Definition MINYEAR : Z := 1.
Definition MAXYEAR : Z := 9999.
Definition _MAXORDINAL : Z := 3652059.

(** Index 0 is a placeholder, as in the runtime. *)
Definition _DAYS_IN_MONTH : list Z :=
[-1; 31; 28; 31; 30; 31; 30; 31; 31; 30; 31; 30; 31].

Definition _DAYS_BEFORE_MONTH : list Z :=
[-1; 0; 31; 59; 90; 120; 151; 181; 212; 243; 273; 304; 334].

(** [table[i]] for an index the callers keep within 1..12. *)
Definition index (table : list Z) (i : Z) : Z := nth (Z.to_nat i) table 0.

Definition _is_leap (year : Z) : bool :=
(year mod 4 =? 0) && (negb (year mod 100 =? 0) || (year mod 400 =? 0)).

Definition _days_before_year (year : Z) : Z :=
let y := year - 1 in
y * 365 + y / 4 - y / 100 + y / 400.

Definition _days_in_month (year month : Z) : Z :=
if (month =? 2) && _is_leap year then 29 else index _DAYS_IN_MONTH month.

Definition _days_before_month (year month : Z) : Z :=
index _DAYS_BEFORE_MONTH month
+ (if (2 <? month) && _is_leap year then 1 else 0).

Definition _ymd2ord (year month day : Z) : Z :=
_days_before_year year + _days_before_month year month + day.

Definition _DI400Y : Z := Eval cbv in _days_before_year 401.
Definition _DI100Y : Z := Eval cbv in _days_before_year 101.
Definition _DI4Y : Z := Eval cbv in _days_before_year 5.

Definition _ord2ymd (n : Z) : Z * Z * Z :=
let n := n - 1 in
let n400 := n / _DI400Y in
let n := n mod _DI400Y in
let year := n400 * 400 + 1 in
let n100 := n / _DI100Y in
let n := n mod _DI100Y in
let n4 := n / _DI4Y in
let n := n mod _DI4Y in
let n1 := n / 365 in
let n := n mod 365 in
let year := year + (n100 * 100 + n4 * 4 + n1) in
if (n1 =? 4) || (n100 =? 4) then (year - 1, 12, 31)
else
  let leapyear := (n1 =? 3) && (negb (n4 =? 24) || (n100 =? 3)) in
  let month := Z.shiftr (n + 50) 5 in
  let preceding :=
    index _DAYS_BEFORE_MONTH month
    + (if (2 <? month) && leapyear then 1 else 0) in
  let '(month, preceding) :=
    if n <? preceding
    then (month - 1,
          preceding - (index _DAYS_IN_MONTH (month - 1)
                       + (if (month - 1 =? 2) && leapyear then 1 else 0)))
    else (month, preceding) in
  let n := n - preceding in
  (year, month, n + 1).

(** A [date] object: three fields, set once by the constructor. *)
Record date : Type := mkdate { year : Z; month : Z; day : Z }.

(** Decimal rendering of an integer, [str(n)]. *)
Fixpoint digits_of (fuel : nat) (n : Z) (acc : pystr) : pystr :=
match fuel with
| O => acc
| S fuel' =>
    let acc' := (0x30 + n mod 10) :: acc in
    if n <? 10 then acc' else digits_of fuel' (n / 10) acc'
end.

Definition str_int (n : Z) : pystr :=
if n <? 0 then 0x2d :: digits_of (Z.to_nat (Z.log2 (- n) + 1)) (- n) []
else digits_of (Z.to_nat (Z.log2 n + 1)) n [].

(** The field checks of the [date] constructor. *)
Definition _check_date_fields (year month day : Z) : result (Z * Z * Z) :=
if negb ((MINYEAR <=? year) && (year <=? MAXYEAR)) then
  Raise (ValueError (lit "year " ++ str_int year ++ lit " is out of range"))
else if negb ((1 <=? month) && (month <=? 12)) then
  Raise (ValueError (lit "month must be in 1..12"))
else
  let dim := _days_in_month year month in
  if negb ((1 <=? day) && (day <=? dim)) then
    Raise (ValueError (lit "day is out of range for month"))
  else Ok (year, month, day).

(** [date(year, month, day)]. *)
Definition date_new (y m d : Z) : result date :=
try! f := _check_date_fields y m d in
let '(y, m, d) := f in Ok (mkdate y m d).

(** [self.replace(year=y)]. *)
Definition replace_year (self : date) (y : Z) : result date :=
date_new y (month self) (day self).

Definition toordinal (self : date) : Z :=
_ymd2ord (year self) (month self) (day self).

Definition fromordinal (n : Z) : date :=
let '(y, m, d) := _ord2ymd n in mkdate y m d.

(** [self < other]: the comparison of the tuples (year, month, day). *)
Definition date_lt (self other : date) : bool :=
(year self <? year other)
|| ((year self =? year other)
    && ((month self <? month other)
        || ((month self =? month other) && (day self <? day other)))).

(** [(self - other).days]. *)
Definition sub_days (self other : date) : Z := toordinal self - toordinal other.

(** [self + timedelta(days=n)]. *)
Definition add_days (self : date) (n : Z) : result date :=
let o := toordinal self + n in
if (0 <? o) && (o <=? _MAXORDINAL) then Ok (fromordinal o)
else Raise (OverflowError (lit "date value out of range")).

(** Monday is 0, Sunday is 6. *)
Definition weekday (self : date) : Z := (toordinal self + 6) mod 7.

Definition pad2 (n : Z) : pystr := [0x30 + n / 10 mod 10; 0x30 + n mod 10].

(** [self.strftime("%d.%m.%Y")]: day and month on two digits; the year as
    the C library prints it, in decimal without padding (glibc). *)
Definition strftime_dmY (self : date) : pystr :=
  pad2 (day self) ++ lit "." ++ pad2 (month self) ++ lit "."
  ++ str_int (year self).

(** The dates the constructor accepts. *)
Definition date_ok (d : date) : Prop :=
MINYEAR <= year d <= MAXYEAR /\ 1 <= month d <= 12
/\ 1 <= day d <= _days_in_month (year d) (month d).

(** A [datetime]: a date and a time of day. *)
Record datetime : Type := mkdatetime {
dt_date : date;
hour : Z; minute : Z; second : Z; microsecond : Z
}.

(** [self.date()]. *)
Definition datetime_date (self : datetime) : date := dt_date self.

End PyDate.

(** ** [datetime.strptime(value, "%d.%m.%Y")] of the runtime

    [_strptime] compiles the format to the regular expression
    [(?P<d>3[0-1]|[1-2]\d|0[1-9]|[1-9]| [1-9])\.(?P<m>1[0-2]|0[1-9]|[1-9])\.(?P<Y>\d\d\d\d)],
    matches it at the start of the string with a backtracking matcher,
    rejects a match that leaves characters unconsumed, converts the three
    groups with [int] and builds the date. *)

Section PyStrptime.

Inductive regex : Type :=
| Lit (c : char)
| Range (lo hi : char)
| Decimal
| Cat (r1 r2 : regex)
| Alt (r1 r2 : regex).

(** Backtracking match of [r] at the start of [s]; [k] receives the rest of
  the string and may refuse it, which makes an alternation try its next
  branch. *)
Fixpoint re_match {A : Type} (r : regex) (s : pystr)
  (k : pystr -> option A) : option A :=
match r with
| Lit c =>
    match s with
    | c' :: s' => if c' =? c then k s' else None
    | [] => None
    end
| Range lo hi =>
    match s with
    | c' :: s' => if (lo <=? c') && (c' <=? hi) then k s' else None
    | [] => None
    end
| Decimal =>
    match s with
    | c' :: s' => if isdecimal_char c' then k s' else None
    | [] => None
    end
| Cat r1 r2 => re_match r1 s (fun s' => re_match r2 s' k)
| Alt r1 r2 =>
    match re_match r1 s k with
    | Some a => Some a
    | None => re_match r2 s k
    end
end.

(** A capturing group: [k] also receives the text the group consumed. *)
Definition re_group {A : Type} (r : regex) (s : pystr)
  (k : pystr -> pystr -> option A) : option A :=
re_match r s (fun rest => k (take (length s - length rest)%nat s) rest).

Definition c0 : char := 0x30.
Definition c1 : char := 0x31.
Definition c2 : char := 0x32.
Definition c3 : char := 0x33.
Definition c9 : char := 0x39.
Definition c_dot : char := 0x2e.
Definition c_space : char := 0x20.

(** [3[0-1]|[1-2]\d|0[1-9]|[1-9]| [1-9]] *)
Definition re_d : regex :=
Alt (Cat (Lit c3) (Range c0 c1))
 (Alt (Cat (Range c1 c2) Decimal)
 (Alt (Cat (Lit c0) (Range c1 c9))
 (Alt (Range c1 c9)
    (Cat (Lit c_space) (Range c1 c9))))).

(** [1[0-2]|0[1-9]|[1-9]] *)
Definition re_m : regex :=
Alt (Cat (Lit c1) (Range c0 c2))
 (Alt (Cat (Lit c0) (Range c1 c9))
    (Range c1 c9)).

(** [\d\d\d\d] *)
Definition re_Y : regex := Cat Decimal (Cat Decimal (Cat Decimal Decimal)).

(** [format_regex.match(data_string)]: the groups d, m, Y and the
  unconsumed rest. *)
Definition format_regex_match (data_string : pystr)
: option (pystr * pystr * pystr * pystr) :=
re_group re_d data_string (fun d s1 =>
re_match (Lit c_dot) s1 (fun s2 =>
re_group re_m s2 (fun m s3 =>
re_match (Lit c_dot) s3 (fun s4 =>
re_group re_Y s4 (fun Y rest =>
Some (d, m, Y, rest)))))).

(** The value of a run of decimal digits read left to right. *)
Fixpoint int_digits (s : pystr) (acc : Z) : option Z :=
match s with
| [] => Some acc
| c :: s' =>
    match unicode_decimal c with
    | Some v => int_digits s' (acc * 10 + v)
    | None => None
    end
end.

(** [int(s)] on the texts the groups capture: decimal digits, after an
  optional leading space, which [int] strips.  (Signs and underscores,
  which [int] also reads, cannot occur in a captured group.) *)
Definition int (s : pystr) : result Z :=
let s' := match s with c :: t => if c =? c_space then t else s | [] => s end in
match s' with
| [] => Raise (ValueError (lit "invalid literal for int() with base 10"))
| _ =>
    match int_digits s' 0 with
    | Some v => Ok v
    | None => Raise (ValueError (lit "invalid literal for int() with base 10"))
    end
end.

(** [datetime.strptime(data_string, "%d.%m.%Y")].  The runtime's two
  messages also quote the data; the program never shows them. *)
Definition strptime_dmY (data_string : pystr) : result datetime :=
match format_regex_match data_string with
| None => Raise (ValueError (lit "time data does not match format"))
| Some (d, m, Y, rest) =>
    if negb (length rest =? 0)%nat then
      Raise (ValueError (lit "unconverted data remains"))
    else
      try! year := int Y in
      try! month := int m in
      try! day := int d in
      try! dd := date_new year month day in
      Ok (mkdatetime dd 0 0 0 0)
end.

End PyStrptime.

(** ** The fields *)

(** [Field.__str__] is [str(self.value)], the value itself for a [str]. *)
Definition Field_str (value : pystr) : pystr := value.

Module Name.
Record t : Type := mk { value : pystr }.
(** [Name.__init__] stores the name as it is given. *)
Definition init (name : pystr) : t := mk name.
End Name.

Module Phone.
Record t : Type := mk { value : pystr }.

(** [Phone.validate] *)
Definition validate (number : pystr) : result unit :=
  if negb (isdigit number) || negb (len number =? 10) then
    Raise (ValueError
             (lit "Wrong format! Phone number must be 10 digits long."))
  else Ok tt.

(** [Phone.__init__] *)
Definition init (number : pystr) : result t :=
  try! _ := validate number in
  Ok (mk number).

Definition str (self : t) : pystr := Field_str (value self).
End Phone.

Module Birthday.
Record t : Type := mk { value : pystr; date : date }.

(** [Birthday.validate]: any [ValueError] of the parse is replaced. *)
Definition validate (value : pystr) : result unit :=
  match strptime_dmY value with
  | Ok _ => Ok tt
  | Raise (ValueError _) =>
      Raise (ValueError (lit "Invalid date format. Use DD.MM.YYYY"))
  | Raise e => Raise e
  end.

(** [Birthday.__init__] *)
Definition init (value : pystr) : result t :=
  try! _ := validate value in
  try! dt := strptime_dmY value in
  Ok (mk value (datetime_date dt)).

Definition str (self : t) : pystr := Field_str (value self).
End Birthday.


(** ** Methods that mutate [self]

    A computation on a state [S] returns a value or raises, and in both
    cases leaves a state behind. *)

Definition M (S A : Type) : Type := S -> result A * S.

Definition ret {S A} (a : A) : M S A := fun s => (Ok a, s).

Definition raise {S A} (e : exn) : M S A := fun s => (Raise e, s).

Definition bind {S A B} (m : M S A) (k : A -> M S B) : M S B :=
  fun s =>
    match m s with
    | (Ok a, s') => k a s'
    | (Raise e, s') => (Raise e, s')
    end.

(** A call that does not touch the state. *)
Definition call {S A} (r : result A) : M S A := fun s => (r, s).

Definition gets {S A} (f : S -> A) : M S A := fun s => (Ok (f s), s).

Definition modify {S} (f : S -> S) : M S unit := fun s => (Ok tt, f s).

Notation "'do!' x ':=' c 'in' k" := (bind c (fun x => k))
  (at level 10, x name, c at level 100, k at level 200).

(** ** [Record] *)

Module Record_.
Record t : Type := mk {
  name : Name.t;
  phones : list Phone.t;
  birthday : option Birthday.t
}.

Definition set_phones (f : list Phone.t -> list Phone.t) (self : t) : t :=
  mk (name self) (f (phones self)) (birthday self).

Definition set_birthday (b : option Birthday.t) (self : t) : t :=
  mk (name self) (phones self) b.

(** [Record.__init__] *)
Definition init (name : pystr) : t := mk (Name.init name) [] None.

(** [self.phones.append(Phone(phone))] *)
Definition add_phone (phone : pystr) : M t unit :=
  do! p := call (Phone.init phone) in
  modify (set_phones (fun ps => ps ++ [p])).

Definition remove_phone (removed_phone : pystr) : M t unit :=
  modify (set_phones
            (filter (fun phone => Phone.value phone <> removed_phone))).

(** The loop of [edit_phone] over [enumerate(self.phones)]; running off
    the end reaches the [raise]. *)
Fixpoint edit_phone_loop (items : list (nat * Phone.t))
    (old_phone new_phone : pystr) : M t unit :=
  match items with
  | [] => raise (ValueError (lit "Phone number not found."))
  | (i, phone) :: items' =>
      if pystr_eqb (Phone.value phone) old_phone then
        do! p := call (Phone.init new_phone) in
        modify (set_phones (fun ps => <[i := p]> ps))
      else edit_phone_loop items' old_phone new_phone
  end.

Definition edit_phone (old_phone new_phone : pystr) : M t unit :=
  do! ps := gets phones in
  edit_phone_loop (imap (fun i phone => (i, phone)) ps) old_phone new_phone.

Fixpoint find_phone_loop (ps : list Phone.t) (this_phone : pystr)
  : option Phone.t :=
  match ps with
  | [] => None
  | phone :: ps' =>
      if pystr_eqb (Phone.value phone) this_phone then Some phone
      else find_phone_loop ps' this_phone
  end.

Definition find_phone (this_phone : pystr) : M t (option Phone.t) :=
  gets (fun self => find_phone_loop (phones self) this_phone).

Definition add_birthday (date : pystr) : M t unit :=
  do! b := call (Birthday.init date) in
  modify (set_birthday (Some b)).
End Record_.

(** ** The dict of the address book

    A Python dict keeps insertion order: assigning to a present key keeps
    the key's position, a new key goes last. *)

Section Dict.
Context {V : Type}.

Definition dict : Type := list (pystr * V).

Fixpoint dict_get (k : pystr) (d : dict) : option V :=
  match d with
  | [] => None
  | (k', v) :: d' => if pystr_eqb k' k then Some v else dict_get k d'
  end.

(** [k in d] *)
Definition dict_contains (k : pystr) (d : dict) : bool :=
  match dict_get k d with Some _ => true | None => false end.

(** [d[k] = v] *)
Fixpoint dict_set (k : pystr) (v : V) (d : dict) : dict :=
  match d with
  | [] => [(k, v)]
  | (k', v') :: d' =>
      if pystr_eqb k' k then (k', v) :: d' else (k', v') :: dict_set k v d'
  end.

(** [del d[k]] for a present key. *)
Fixpoint dict_del (k : pystr) (d : dict) : dict :=
  match d with
  | [] => []
  | (k', v') :: d' =>
      if pystr_eqb k' k then d' else (k', v') :: dict_del k d'
  end.

Definition dict_keys (d : dict) : list pystr := map fst d.
Definition dict_values (d : dict) : list V := map snd d.
End Dict.
Arguments dict V : clear implicits.

(** ** The heap of [Record] objects and the address book *)

(** A reference to a [Record] object: its index in the heap. *)
Definition ref : Type := nat.

(** The program state: the [Record] objects allocated so far and the
    [data] dict of the one [AddressBook]. *)
Record State : Type := mkState {
  heap : list Record_.t;
  data : dict ref
}.

(** The clock of the machine, which [datetime.today()] reads. *)
Record World : Type := mkWorld { clock : datetime }.

Definition datetime_today (w : World) : datetime := clock w.

(** One dict of the result list. *)
Record entry : Type := mkentry { e_name : pystr; congratulation_date : pystr }.

Module AddressBook.

(** [self.data[record.name.value] = record]; [None] when [record] is not
    an object of the heap, which no program can pass. *)
Definition add_record (record : ref) (st : State)
  : option (result unit * State) :=
  match heap st !! record with
  | Some r =>
      Some (Ok tt,
            mkState (heap st)
                    (dict_set (Name.value (Record_.name r)) record (data st)))
  | None => None
  end.

(** [self.data.get(name)] *)
Definition find (name : pystr) (st : State) : option ref :=
  dict_get name (data st).

Definition delete (name : pystr) : M State unit :=
  fun st =>
    if negb (dict_contains name (data st)) then
      (Raise (KeyError (lit "Name not found")), st)
    else (Ok tt, mkState (heap st) (dict_del name (data st))).

Definition find_next_weekday (start_date : date) (weekday_ : Z)
  : result date :=
  let days_ahead := weekday_ - weekday start_date in
  let days_ahead := if days_ahead <=? 0 then days_ahead + 7 else days_ahead in
  add_days start_date days_ahead.

Definition adjust_for_weekend (birthday : date) : result date :=
  if 5 <=? weekday birthday then find_next_weekday birthday 0
  else Ok birthday.

(** Lines 101 to 103: the birthday in the year of [today], or in the year
    after when that date is before [today]. *)
Definition next_birthday (today user_birthday : date) : result date :=
  try! next_birthday := replace_year user_birthday (year today) in
  if date_lt next_birthday today
  then replace_year user_birthday (year today + 1)
  else Ok next_birthday.

(** The body of the [for] loop: one record, and the list it appends to. *)
Definition loop_body (today : date) (record : Record_.t)
    (upcoming_birthdays : list entry) : result (list entry) :=
  match Record_.birthday record with
  | Some b =>
      let user_birthday := Birthday.date b in
      try! next_birthday := next_birthday today user_birthday in
      if (0 <=? sub_days next_birthday today)
         && (sub_days next_birthday today <=? 7)
      then
        try! next_birthday := adjust_for_weekend next_birthday in
        Ok (upcoming_birthdays
            ++ [mkentry (Name.value (Record_.name record))
                        (strftime_dmY next_birthday)])
      else Ok upcoming_birthdays
  | None => Ok upcoming_birthdays
  end.

(** The [for] loop over the records. *)
Fixpoint upcoming_loop (today : date) (records : list Record_.t)
    (upcoming_birthdays : list entry) : result (list entry) :=
  match records with
  | [] => Ok upcoming_birthdays
  | record :: records' =>
      try! upcoming_birthdays := loop_body today record upcoming_birthdays in
      upcoming_loop today records' upcoming_birthdays
  end.

(** [self.data.values()]: the objects the dict refers to, in its order;
    [None] when a reference is not in the heap. *)
Definition values (st : State) : option (list Record_.t) :=
  mapM (fun r => heap st !! r) (dict_values (data st)).

(** [get_upcoming_birthdays(self)]: the method has no date parameter and
    reads the clock. *)
Definition get_upcoming_birthdays (w : World) (st : State)
  : option (result (list entry)) :=
  match values st with
  | Some records =>
      let today := datetime_date (datetime_today w) in
      Some (upcoming_loop today records [])
  | None => None
  end.

End AddressBook.

(** ** Programs over the two classes *)

(** One call of a caller of the classes. *)
Inductive op : Type :=
| NewRecord (name : pystr)
| AddPhone (r : ref) (phone : pystr)
| RemovePhone (r : ref) (removed_phone : pystr)
| EditPhone (r : ref) (old_phone new_phone : pystr)
| AddBirthday (r : ref) (date : pystr)
| AddRecord (r : ref)
| Delete (name : pystr).

(** A method call on the object [r] of the heap. *)
Definition on_record {A} (r : ref) (m : M Record_.t A) (st : State)
  : option (result A * State) :=
  match heap st !! r with
  | Some self =>
      let '(res, self') := m self in
      Some (res, mkState (<[r := self']> (heap st)) (data st))
  | None => None
  end.

(** The outcome of a call and the state after it; [None] when the call
    names an object that was never created.  A raise is caught by the
    caller, as the decorated handlers of the program do, and the run goes
    on. *)
Definition exec (o : op) (st : State) : option (result unit * State) :=
  match o with
  | NewRecord name =>
      Some (Ok tt, mkState (heap st ++ [Record_.init name]) (data st))
  | AddPhone r phone => on_record r (Record_.add_phone phone) st
  | RemovePhone r removed_phone =>
      on_record r (Record_.remove_phone removed_phone) st
  | EditPhone r old_phone new_phone =>
      on_record r (Record_.edit_phone old_phone new_phone) st
  | AddBirthday r date => on_record r (Record_.add_birthday date) st
  | AddRecord r => AddressBook.add_record r st
  | Delete name => Some (AddressBook.delete name st)
  end.

Fixpoint run (os : list op) (st : State) : option State :=
  match os with
  | [] => Some st
  | o :: os' =>
      match exec o st with
      | Some (_, st') => run os' st'
      | None => None
      end
  end.

(** The state at start: no object, an empty book. *)
Definition init_state : State := mkState [] [].

(** ** Invariants of the state *)

(** A Python dict has each key once. *)
Definition dict_ok {V} (d : dict V) : Prop := List.NoDup (dict_keys d).

(** Every entry of the book refers to an object of the heap, under that
    object's name, and every birthday held by an object is a date that the
    [date] constructor accepts. *)
Definition wf_state (st : State) : Prop :=
  dict_ok (data st)
  /\ (forall k r, In (k, r) (data st) ->
        exists self, heap st !! r = Some self
                     /\ Name.value (Record_.name self) = k)
  /\ (forall self b, In self (heap st) ->
        Record_.birthday self = Some b -> date_ok (Birthday.date b)).

(** The phone check, as a property of a string. *)
Definition valid_phone (s : pystr) : Prop :=
  length s = 10%nat /\ Forall (fun c => isdigit_char c = true) s.

(** Every phone of every object is one that [Phone] constructs. *)
Definition phones_valid (st : State) : Prop :=
  forall self p, In self (heap st) -> In p (Record_.phones self) ->
    valid_phone (Phone.value p) /\ Phone.init (Phone.value p) = Ok p.

(** What the invariants ask of one object. *)
Definition record_ok (self : Record_.t) : Prop :=
  (forall b, Record_.birthday self = Some b -> date_ok (Birthday.date b))
  /\ (forall p, In p (Record_.phones self) ->
        valid_phone (Phone.value p) /\ Phone.init (Phone.value p) = Ok p).

(** The invariant of the runs: the dict has each key once, every entry of
    the book refers to a live object under that object's name, and every
    object is well formed. *)
Definition inv (st : State) : Prop :=
  dict_ok (data st)
  /\ (forall k r, In (k, r) (data st) ->
        exists self, heap st !! r = Some self
                     /\ Name.value (Record_.name self) = k)
  /\ (forall r self, heap st !! r = Some self -> record_ok self).

(** The clock shows a date that exists. *)
Definition wf_world (w : World) : Prop :=
  date_ok (datetime_date (datetime_today w)).

(** ** The specification's vocabulary *)

(** The next occurrence of a birthday: its month and day in the year of
    [today], or in the next year when that date is strictly earlier than
    [today]. *)
Definition spec_next_birthday (today user_birthday : date) : date :=
  let this_year := mkdate (year today) (month user_birthday) (day user_birthday) in
  if toordinal this_year <? toordinal today
  then mkdate (year today + 1) (month user_birthday) (day user_birthday)
  else this_year.

(** The window of the query: today and the seven days after it. *)
Definition in_window (today next_birthday : date) : Prop :=
  0 <= sub_days next_birthday today <= 7.

(** Saturday moves two days, Sunday one, a weekday none. *)
Definition weekend_shift (wd : Z) : Z :=
  if wd =? 5 then 2 else if wd =? 6 then 1 else 0.


(** What one record adds to the list: nothing, or its entry. *)
Inductive adds (today : date) (record : Record_.t) : list entry -> Prop :=
| adds_no_birthday :
    Record_.birthday record = None -> adds today record []
| adds_outside b nb :
    Record_.birthday record = Some b ->
    AddressBook.next_birthday today (Birthday.date b) = Ok nb ->
    ~ in_window today nb ->
    adds today record []
| adds_inside b nb cd :
    Record_.birthday record = Some b ->
    AddressBook.next_birthday today (Birthday.date b) = Ok nb ->
    in_window today nb ->
    AddressBook.adjust_for_weekend nb = Ok cd ->
    adds today record [mkentry (Name.value (Record_.name record)) (strftime_dmY cd)].

(** Exactly ten decimal digits, in the widest reading: any Unicode decimal
    digit counts. *)
Definition ten_decimal_digits (s : pystr) : Prop :=
  length s = 10%nat /\ Forall (fun c => isdecimal_char c = true) s.

(** Exactly ten ASCII digits. *)
Definition ten_ascii_digits (s : pystr) : Prop :=
  length s = 10%nat /\ Forall (fun c => ascii_digit c = true) s.

Definition digit_value (c : char) : Z := c - c0.

(** The form DD.MM.YYYY: two, two and four ASCII digits between dots, with
    the day, month and year they denote. *)
Definition DDMMYYYY (s : pystr) (y m d : Z) : Prop :=
  exists d1 d2 m1 m2 y1 y2 y3 y4,
    s = [d1; d2; c_dot; m1; m2; c_dot; y1; y2; y3; y4]
    /\ Forall (fun c => ascii_digit c = true) [d1; d2; m1; m2; y1; y2; y3; y4]
    /\ d = digit_value d1 * 10 + digit_value d2
    /\ m = digit_value m1 * 10 + digit_value m2
    /\ y = digit_value y1 * 1000 + digit_value y2 * 100
           + digit_value y3 * 10 + digit_value y4.

(** The words a regular expression matches in full. *)
Fixpoint lang (r : regex) (w : pystr) : Prop :=
  match r with
  | Lit c => w = [c]
  | Range lo hi => exists c, w = [c] /\ lo <= c <= hi
  | Decimal => exists c, w = [c] /\ isdecimal_char c = true
  | Cat r1 r2 => exists w1 w2, w = w1 ++ w2 /\ lang r1 w1 /\ lang r2 w2
  | Alt r1 r2 => lang r1 w \/ lang r2 w
  end.

(** The strings [Birthday] accepts, with the date they denote: a day, a
    month and a year in the shapes of the three groups, separated by dots,
    that form a date of the years 1 to 9999. *)
Definition birthday_text (s : pystr) (dd : date) : Prop :=
  exists d m Y,
    s = d ++ [c_dot] ++ m ++ [c_dot] ++ Y
    /\ lang re_d d /\ lang re_m m /\ lang re_Y Y
    /\ int Y = Ok (year dd) /\ int m = Ok (month dd) /\ int d = Ok (day dd)
    /\ date_ok dd.

(** ** Sample data

    A book with Ann (born 12.05.1990) and Bob (born 18.05.1991), a book
    with a contact born on 29 February, and three clock readings. *)

Definition sample_ops : list op :=
  [ NewRecord (lit "Ann"); AddBirthday 0%nat (lit "12.05.1990");
    AddPhone 0%nat (lit "1234567890"); AddRecord 0%nat;
    NewRecord (lit "Bob"); AddBirthday 1%nat (lit "18.05.1991");
    AddRecord 1%nat ].

Definition ann : Record_.t :=
  Record_.mk (Name.mk (lit "Ann")) [Phone.mk (lit "1234567890")]
    (Some (Birthday.mk (lit "12.05.1990") (mkdate 1990 5 12))).

Definition bob : Record_.t :=
  Record_.mk (Name.mk (lit "Bob")) []
    (Some (Birthday.mk (lit "18.05.1991") (mkdate 1991 5 18))).

Definition sample_state : State :=
  mkState [ann; bob] [(lit "Ann", 0%nat); (lit "Bob", 1%nat)].

Definition leap_ops : list op :=
  [ NewRecord (lit "Leo"); AddBirthday 0%nat (lit "29.02.2000");
    AddRecord 0%nat ].

Definition leo : Record_.t :=
  Record_.mk (Name.mk (lit "Leo")) []
    (Some (Birthday.mk (lit "29.02.2000") (mkdate 2000 2 29))).

Definition leap_state : State := mkState [leo] [(lit "Leo", 0%nat)].

(** Friday 10 May 2024, 09:00. *)
Definition friday_morning : World :=
  mkWorld (mkdatetime (mkdate 2024 5 10) 9 0 0 0).

(** The same day, 18:30. *)
Definition friday_evening : World :=
  mkWorld (mkdatetime (mkdate 2024 5 10) 18 30 0 0).

(** Saturday 11 May 2024, 09:00. *)
Definition saturday_morning : World :=
  mkWorld (mkdatetime (mkdate 2024 5 11) 9 0 0 0).

(** Wednesday 1 March 2023, 09:00. *)
Definition march_2023 : World :=
  mkWorld (mkdatetime (mkdate 2023 3 1) 9 0 0 0).

(** Saturday 1 June 2024, 09:00. *)
Definition june_2024 : World :=
  mkWorld (mkdatetime (mkdate 2024 6 1) 9 0 0 0).

(** Ten times the character SUPERSCRIPT TWO. *)
Definition superscript_twos : pystr :=
  [0xb2; 0xb2; 0xb2; 0xb2; 0xb2; 0xb2; 0xb2; 0xb2; 0xb2; 0xb2].




(** Leo was in the book and is deleted from it; Bob, who has no birthday,
    is in the book. *)
Definition orphan_ops : list op :=
  [ NewRecord (lit "Leo"); AddBirthday 0%nat (lit "29.02.2000");
    AddRecord 0%nat; Delete (lit "Leo");
    NewRecord (lit "Bob"); AddPhone 1%nat (lit "5555555555");
    AddRecord 1%nat ].

Definition bob_plain : Record_.t :=
  Record_.mk (Name.mk (lit "Bob")) [Phone.mk (lit "5555555555")] None.

Definition orphan_state : State :=
  mkState [leo; bob_plain] [(lit "Bob", 1%nat)].

(** ** The month and day of an ordinal

    The last part of [_ord2ymd], named so that it can be tabulated: the day
    [n] of a year, counted from 0, as a month and a day of the month. *)
Definition month_day (leapyear : bool) (n : Z) : Z * Z :=
  let month := Z.shiftr (n + 50) 5 in
  let preceding :=
    index _DAYS_BEFORE_MONTH month
    + (if (2 <? month) && leapyear then 1 else 0) in
  let '(month, preceding) :=
    if n <? preceding
    then (month - 1,
          preceding - (index _DAYS_IN_MONTH (month - 1)
                       + (if (month - 1 =? 2) && leapyear then 1 else 0)))
    else (month, preceding) in
  (month, n - preceding + 1).

Definition month_day_ok (leapyear : bool) (n : Z) : bool :=
  let '(m, d) := month_day leapyear n in
  (1 <=? m) && (m <=? 12) && (1 <=? d)
  && (d <=? (if (m =? 2) && leapyear then 29 else index _DAYS_IN_MONTH m))
  && (index _DAYS_BEFORE_MONTH m + (if (2 <? m) && leapyear then 1 else 0) + d
      =? n + 1).

(** * The command handlers and the program *)

(** ** More of [str] *)

(** [str.isspace] on one character (Unicode 14.0); [strip] and [split]
    without argument use it. *)
Definition space_chars : list Z :=
  [ 0x9; 0xa; 0xb; 0xc; 0xd; 0x1c; 0x1d; 0x1e; 0x1f; 0x20; 0x85; 0xa0;
    0x1680; 0x2000; 0x2001; 0x2002; 0x2003; 0x2004; 0x2005; 0x2006; 0x2007;
    0x2008; 0x2009; 0x200a; 0x2028; 0x2029; 0x202f; 0x205f; 0x3000 ].

Definition isspace_char (c : char) : bool :=
  existsb (fun z => c =? z) space_chars.

Fixpoint lstrip (s : pystr) : pystr :=
  match s with
  | c :: s' => if isspace_char c then lstrip s' else s
  | [] => []
  end.

Definition rstrip (s : pystr) : pystr := rev (lstrip (rev s)).

(** [s.strip()] *)
Definition strip (s : pystr) : pystr := rstrip (lstrip s).

(** [s.split()]: the words between runs of whitespace; [word] holds the
    characters of the word being read, last first. *)
Fixpoint split_from (s : pystr) (word : pystr) : list pystr :=
  match s with
  | [] => match word with [] => [] | _ => [rev word] end
  | c :: s' =>
      if isspace_char c then
        match word with
        | [] => split_from s' []
        | _ => rev word :: split_from s' []
        end
      else split_from s' (c :: word)
  end.

Definition split (s : pystr) : list pystr := split_from s [].

(** [sep.join(items)] *)
Fixpoint join (sep : pystr) (items : list pystr) : pystr :=
  match items with
  | [] => []
  | [x] => x
  | x :: items' => x ++ sep ++ join sep items'
  end.

(** ** [Record.__str__] *)

Definition Record_str (self : Record_.t) : pystr :=
  let phones := join (lit "; ") (map Phone.value (Record_.phones self)) in
  let birthday :=
    match Record_.birthday self with
    | Some b => lit ", birthday: " ++ Birthday.value b
    | None => []
    end in
  lit "Contact name: " ++ Name.value (Record_.name self)
  ++ lit ", phones: " ++ phones ++ birthday.

(** ** The handlers of the commands *)

(** What a handler body can raise: an exception of the classes or of the
    runtime calls they make, or the [IndexError] of an index into an empty
    list. *)
Inductive raised : Type :=
| OfClass (e : exn)
| IndexError (msg : pystr).

Inductive outcome (A : Type) : Type :=
| Return (a : A)
| Throw (r : raised).
Arguments Return {A} a.
Arguments Throw {A} r.

(** A handler body: it reads and changes the state, and returns or
    raises; [None] when it meets a reference that is not in the heap. *)
Definition H (A : Type) : Type := State -> option (outcome A * State).

Definition hret {A} (a : A) : H A := fun st => Some (Return a, st).

Definition hthrow {A} (r : raised) : H A := fun st => Some (Throw r, st).

Definition hbind {A B} (m : H A) (k : A -> H B) : H B :=
  fun st =>
    match m st with
    | Some (Return a, st') => k a st'
    | Some (Throw r, st') => Some (Throw r, st')
    | None => None
    end.

Notation "'let!' x ':=' c 'in' k" := (hbind c (fun x => k))
  (at level 10, x name, c at level 100, k at level 200).

(** A call that does not touch the state. *)
Definition of_result {A} (r : result A) : H A :=
  fun st =>
    match r with
    | Ok a => Some (Return a, st)
    | Raise e => Some (Throw (OfClass e), st)
    end.

(** A call of a method of the classes. *)
Definition of_call {A} (c : State -> option (result A * State)) : H A :=
  fun st =>
    match c st with
    | Some (Ok a, st') => Some (Return a, st')
    | Some (Raise e, st') => Some (Throw (OfClass e), st')
    | None => None
    end.

Definition hgets {A} (f : State -> A) : H A := fun st => Some (Return (f st), st).

(** The object a reference leads to. *)
Definition deref (r : ref) : H Record_.t :=
  fun st =>
    match heap st !! r with
    | Some self => Some (Return self, st)
    | None => None
    end.

(** [Record(name)]: a new object, as [NewRecord] makes it. *)
Definition new_record (name : pystr) : H ref :=
  fun st =>
    Some (Return (length (heap st)),
          mkState (heap st ++ [Record_.init name]) (data st)).

(** [a, b = args] *)
Definition unpack2 (args : list pystr) : result (pystr * pystr) :=
  match args with
  | [a; b] => Ok (a, b)
  | _ :: _ :: _ :: _ =>
      Raise (ValueError (lit "too many values to unpack (expected 2)"))
  | _ =>
      Raise (ValueError
               (lit "not enough values to unpack (expected 2, got "
                ++ str_int (Z.of_nat (length args)) ++ lit ")"))
  end.

(** [l[0]] *)
Definition item0 {A} (l : list A) : H A :=
  match l with
  | a :: _ => hret a
  | [] => hthrow (IndexError (lit "list index out of range"))
  end.

(** What [input_error] makes of a call: the string the wrapper returns, or
    an exception it does not catch. *)
Inductive answer : Type :=
| Says (s : pystr)
| Escapes (e : exn).

(** What the [except] clause of [input_error] makes of an exception: the
    [str(e)] it returns for a [KeyError], [ValueError] or [IndexError], or
    the exception itself when it is of another class.  [str(e)] is the
    message, and for a [KeyError] the message between quotes (its [repr],
    for a message without quotes, backslashes or control characters, as
    the one of the program is). *)
Definition caught (r : raised) : pystr + exn :=
  match r with
  | OfClass (ValueError msg) => inl msg
  | OfClass (KeyError msg) => inl (lit "'" ++ msg ++ lit "'")
  | IndexError msg => inl msg
  | OfClass (OverflowError msg) => inr (OverflowError msg)
  end.

(** [input_error(func)] around a handler. *)
Definition input_error (body : H pystr) (st : State)
  : option (answer * State) :=
  match body st with
  | Some (Return s, st') => Some (Says s, st')
  | Some (Throw r, st') =>
      match caught r with
      | inl s => Some (Says s, st')
      | inr e => Some (Escapes e, st')
      end
  | None => None
  end.

Definition add_birthday_body (args : list pystr) : H pystr :=
  let! p := of_result (unpack2 args) in
  let '(name, birthday) := p in
  let! record := hgets (AddressBook.find name) in
  match record with
  | Some record =>
      let! _ := of_call (on_record record (Record_.add_birthday birthday)) in
      hret (lit "Birthday " ++ birthday ++ lit " added to contact " ++ name
            ++ lit ".")
  | None => hret (lit "No contact with name " ++ name ++ lit " found.")
  end.

Definition show_birthday_body (args : list pystr) : H pystr :=
  let! name := item0 args in
  let! record := hgets (AddressBook.find name) in
  let no_info := lit "No birthday information for " ++ name ++ lit "." in
  match record with
  | Some record =>
      let! self := deref record in
      match Record_.birthday self with
      | Some b => hret (name ++ lit "'s birthday is on " ++ Birthday.value b)
      | None => hret no_info
      end
  | None => hret no_info
  end.

Definition birthdays_body (w : World) : H pystr :=
  let! upcoming_birthdays := of_call (fun st =>
      match AddressBook.get_upcoming_birthdays w st with
      | Some r => Some (r, st)
      | None => None
      end) in
  match upcoming_birthdays with
  | [] => hret (lit "No upcoming birthdays.")
  | _ =>
      hret (lit "Upcoming birthdays:" ++ [0xa]
            ++ join [0xa]
                 (map (fun record =>
                         e_name record ++ lit ": " ++ congratulation_date record)
                      upcoming_birthdays))
  end.

Definition add_contact_body (args : list pystr) : H pystr :=
  let! p := of_result (unpack2 args) in
  let '(name, phone) := p in
  let! record := hgets (AddressBook.find name) in
  match record with
  | Some record =>
      let! _ := of_call (on_record record (Record_.add_phone phone)) in
      hret (lit "Phone " ++ phone ++ lit " added to contact " ++ name
            ++ lit ".")
  | None =>
      let! record := new_record name in
      let! _ := of_call (on_record record (Record_.add_phone phone)) in
      let! _ := of_call (AddressBook.add_record record) in
      hret (lit "Contact " ++ name ++ lit " with phone " ++ phone
            ++ lit " added.")
  end.

Definition change_contact_body (args : list pystr) : H pystr :=
  let! p := of_result (unpack2 args) in
  let '(name, new_phone) := p in
  let! record := hgets (AddressBook.find name) in
  match record with
  | Some record =>
      let! self := deref record in
      let! first := item0 (Record_.phones self) in
      let old_phone := Phone.value first in
      let! _ := of_call (on_record record
                           (Record_.edit_phone old_phone new_phone)) in
      hret (lit "Phone number for " ++ name ++ lit " changed to " ++ new_phone
            ++ lit ".")
  | None => hret (lit "No contact with name " ++ name ++ lit " found.")
  end.

Definition show_phone_body (args : list pystr) : H pystr :=
  let! name := item0 args in
  let! record := hgets (AddressBook.find name) in
  let not_found := lit "No phone numbers for " ++ name ++ lit " found." in
  match record with
  | Some record =>
      let! self := deref record in
      match Record_.phones self with
      | [] => hret not_found
      | _ =>
          let phones :=
            join (lit "; ") (map Phone.value (Record_.phones self)) in
          hret (name ++ lit "'s phone numbers are: " ++ phones)
      end
  | None => hret not_found
  end.

(** The loop of [show_all] over the items of the book. *)
Fixpoint show_all_loop (records : list Record_.t) (result : pystr) : pystr :=
  match records with
  | [] => result
  | record :: records' =>
      show_all_loop records' (result ++ Record_str record ++ [0xa])
  end.

Definition show_all_body : H pystr :=
  let! d := hgets data in
  match d with
  | [] => hret (lit "No contacts found.")
  | _ =>
      fun st =>
        match AddressBook.values st with
        | Some records =>
            Some (Return (strip (show_all_loop records (lit "Contacts:" ++ [0xa]))),
                  st)
        | None => None
        end
  end.

(** The decorated handlers. *)
Definition add_birthday (args : list pystr) := input_error (add_birthday_body args).
Definition show_birthday (args : list pystr) := input_error (show_birthday_body args).
Definition birthdays (w : World) := input_error (birthdays_body w).
Definition add_contact (args : list pystr) := input_error (add_contact_body args).
Definition change_contact (args : list pystr) := input_error (change_contact_body args).
Definition show_phone (args : list pystr) := input_error (show_phone_body args).
Definition show_all := input_error show_all_body.

(** One call of a handler, and runs of such calls. *)
Inductive command : Type :=
| CmdAdd (args : list pystr)
| CmdChange (args : list pystr)
| CmdPhone (args : list pystr)
| CmdAll
| CmdAddBirthday (args : list pystr)
| CmdShowBirthday (args : list pystr)
| CmdBirthdays (w : World).

Definition handle (c : command) : State -> option (answer * State) :=
  match c with
  | CmdAdd args => add_contact args
  | CmdChange args => change_contact args
  | CmdPhone args => show_phone args
  | CmdAll => show_all
  | CmdAddBirthday args => add_birthday args
  | CmdShowBirthday args => show_birthday args
  | CmdBirthdays w => birthdays w
  end.

Fixpoint handle_all (cs : list command) (st : State) : option State :=
  match cs with
  | [] => Some st
  | c :: cs' =>
      match handle c st with
      | Some (_, st') => handle_all cs' st'
      | None => None
      end
  end.

(** An object as the handlers keep it: well formed, with a birthday that
    [Birthday] constructs from its string. *)
Definition record_hok (self : Record_.t) : Prop :=
  record_ok self
  /\ (forall b, Record_.birthday self = Some b ->
        Birthday.init (Birthday.value b) = Ok b).

(** The invariant of the runs of handlers: the dict has each key once,
    every entry of the book refers to a live object under that object's
    name, and that object has a phone; every object is as the handlers
    keep it. *)
Definition handler_inv (st : State) : Prop :=
  dict_ok (data st)
  /\ (forall k r, In (k, r) (data st) ->
        exists self, heap st !! r = Some self
                     /\ Name.value (Record_.name self) = k
                     /\ Record_.phones self <> [])
  /\ (forall r self, heap st !! r = Some self -> record_hok self).

(** A call that reads the clock is made when the clock shows a date. *)
Definition command_ok (c : command) : Prop :=
  match c with
  | CmdBirthdays w => wf_world w
  | _ => True
  end.

(** ** [parse_input] and [main] *)

Section Main.

(** [str.lower] of the runtime, whose tables are not embedded. *)
Variable lower : pystr -> pystr.

(** The body of [parse_input]: [cmd, *args = user_input.split()] raises on
    an empty list. *)
Definition parse_input_body (user_input : pystr)
  : outcome (pystr * list pystr) :=
  let user_input := strip user_input in
  match split user_input with
  | cmd :: args => Return (lower cmd, args)
  | [] =>
      Throw (OfClass (ValueError
        (lit "not enough values to unpack (expected at least 1, got 0)")))
  end.

(** What the decorated [parse_input] returns: the pair, or the string of
    [input_error]; or an exception escapes. *)
Definition parse_input (user_input : pystr)
  : result ((pystr * list pystr) + pystr) :=
  match parse_input_body user_input with
  | Return p => Ok (inl p)
  | Throw r =>
      match caught r with
      | inl s => Ok (inr s)
      | inr e => Raise e
      end
  end.

(** [cmd, args = parse_input(user_input)] in [main]: a pair is taken
    apart; a string is taken apart too when it has two characters, which
    then stand for [cmd] and [args], and raises otherwise. *)
Definition main_unpack (parsed : (pystr * list pystr) + pystr)
  : result (pystr * list pystr) :=
  match parsed with
  | inl (cmd, args) => Ok (cmd, args)
  | inr [a; b] => Ok ([a], [[b]])
  | inr (_ :: _ :: _ :: _) =>
      Raise (ValueError (lit "too many values to unpack (expected 2)"))
  | inr s =>
      Raise (ValueError
               (lit "not enough values to unpack (expected 2, got "
                ++ str_int (len s) ++ lit ")"))
  end.

(** What the program writes: the prompt of [input] and the lines of
    [print]. *)
Inductive event : Type :=
| Prompted (s : pystr)
| Printed (s : pystr).

(** How [main] ends: the [break], an exception that nothing catches, or
    the [EOFError] of [input] at the end of the input. *)
Inductive ending : Type :=
| Bye
| Uncaught (e : exn)
| EOFError.

(** One pass of the [if] chain of [main] after the test for [close] and
    [exit]: the line printed and the state; an exception that escapes a
    handler ends the program. *)
Definition dispatch (w : World) (cmd : pystr) (args : list pystr) (st : State)
  : option (answer * State) :=
  if pystr_eqb cmd (lit "hello") then Some (Says (lit "How can I help you?"), st)
  else if pystr_eqb cmd (lit "add") then
    if (length args <? 2)%nat
    then Some (Says (lit "Invalid command format. Use: add [name] [phone]"), st)
    else add_contact args st
  else if pystr_eqb cmd (lit "change") then
    if (length args <? 2)%nat
    then Some (Says (lit "Invalid command format. Use: change [name] [new phone]"), st)
    else change_contact args st
  else if pystr_eqb cmd (lit "phone") then
    if (length args <? 1)%nat
    then Some (Says (lit "Invalid command format. Use: phone [name]"), st)
    else show_phone args st
  else if pystr_eqb cmd (lit "all") then show_all st
  else if pystr_eqb cmd (lit "add-birthday") then
    if (length args <? 2)%nat
    then Some (Says (lit "Invalid command format. Use: add-birthday [name] [birthday]"), st)
    else add_birthday args st
  else if pystr_eqb cmd (lit "show-birthday") then
    if (length args <? 1)%nat
    then Some (Says (lit "Invalid command format. Use: show-birthday [name]"), st)
    else show_birthday args st
  else if pystr_eqb cmd (lit "birthdays") then birthdays w st
  else Some (Says (lit "Invalid command."), st).

(** The [while True] loop on the lines of the input, each with what the
    clock shows when the line is handled. *)
Fixpoint main_loop (inputs : list (World * pystr)) (st : State)
    (out : list event) : option (ending * list event * State) :=
  let out := out ++ [Prompted (lit "Enter a command: ")] in
  match inputs with
  | [] => Some (EOFError, out, st)
  | (w, user_input) :: inputs' =>
      match parse_input user_input with
      | Raise e => Some (Uncaught e, out, st)
      | Ok parsed =>
          match main_unpack parsed with
          | Raise e => Some (Uncaught e, out, st)
          | Ok (cmd, args) =>
              if pystr_eqb cmd (lit "close") || pystr_eqb cmd (lit "exit")
              then Some (Bye, out ++ [Printed (lit "Good bye!")], st)
              else
                match dispatch w cmd args st with
                | Some (Says s, st') =>
                    main_loop inputs' st' (out ++ [Printed s])
                | Some (Escapes e, st') => Some (Uncaught e, out, st')
                | None => None
                end
          end
      end
  end.

Definition main (inputs : list (World * pystr))
  : option (ending * list event * State) :=
  main_loop inputs init_state [Printed (lit "Welcome to the assistant bot!")].

End Main.

(** A lower-casing of the ASCII letters, where [str.lower] does the same;
    used in the examples. *)
Definition ascii_lower (s : pystr) : pystr :=
  map (fun c => if (0x41 <=? c) && (c <=? 0x5a) then c + 32 else c) s.

(** A blank line: only whitespace, or nothing. *)
Definition blank (s : pystr) : Prop :=
  Forall (fun c => isspace_char c = true) s.

(** ** Sample data of the handlers *)

Definition demo_commands : list command :=
  [ CmdAdd [lit "Ann"; lit "1234567890"];
    CmdAdd [lit "Ann"; lit "1112223334"];
    CmdAddBirthday [lit "Ann"; lit "12.05.1990"];
    CmdAdd [lit "Bob"; lit "5555555555"] ].

Definition demo_ann : Record_.t :=
  Record_.mk (Name.mk (lit "Ann"))
    [Phone.mk (lit "1234567890"); Phone.mk (lit "1112223334")]
    (Some (Birthday.mk (lit "12.05.1990") (mkdate 1990 5 12))).

Definition demo_bob : Record_.t :=
  Record_.mk (Name.mk (lit "Bob")) [Phone.mk (lit "5555555555")] None.

Definition demo_state : State :=
  mkState [demo_ann; demo_bob] [(lit "Ann", 0%nat); (lit "Bob", 1%nat)].

(** The line feed. *)
Definition c_nl : char := 0xa.

(** A book with a contact born on 29 February. *)
Definition demo_leap_commands : list command :=
  [ CmdAdd [lit "Leo"; lit "0123456789"];
    CmdAddBirthday [lit "Leo"; lit "29.02.2000"] ].

Definition demo_leo : Record_.t :=
  Record_.mk (Name.mk (lit "Leo")) [Phone.mk (lit "0123456789")]
    (Some (Birthday.mk (lit "29.02.2000") (mkdate 2000 2 29))).

Definition demo_leap_state : State :=
  mkState [demo_leo] [(lit "Leo", 0%nat)].

(** ** The vocabulary of the properties of the handlers and of [main] *)

(** The two messages of the dates that [replace] refuses. *)
Definition date_message (today : date) (msg : pystr) : Prop :=
  msg = lit "day is out of range for month"
  \/ (year today = 9999 /\ msg = lit "year 10000 is out of range").

(** The text of [birthdays] for a list of the query. *)
Definition birthdays_text (out : list entry) : pystr :=
  match out with
  | [] => lit "No upcoming birthdays."
  | _ =>
      lit "Upcoming birthdays:" ++ [c_nl]
      ++ join [c_nl]
           (map (fun record =>
                   e_name record ++ lit ": " ++ congratulation_date record)
              out)
  end.

(** The string that [parse_input] returns for a line without words. *)
Definition no_words : pystr :=
  lit "not enough values to unpack (expected at least 1, got 0)".

(** The exception of [cmd, args = parse_input(user_input)] on that
    string. *)
Definition unpack_error : exn :=
  ValueError (lit "too many values to unpack (expected 2)").

(** A line that stops the loop: its first word is [close] or [exit] once
    in lower case. *)
Definition stop_line (lower : pystr -> pystr) (user_input : pystr) : Prop :=
  exists cmd args,
    split (strip user_input) = cmd :: args
    /\ (lower cmd = lit "close" \/ lower cmd = lit "exit").

(** How a run on the lines [inputs] may end. *)
Definition ending_ok (lower : pystr -> pystr) (inputs : list (World * pystr))
    (e : ending) : Prop :=
  (e = EOFError
   /\ Forall (fun i => ~ blank (snd i) /\ ~ stop_line lower (snd i)) inputs)
  \/ (e = Bye /\ Exists (fun i => stop_line lower (snd i)) inputs)
  \/ (e = Uncaught unpack_error /\ Exists (fun i => blank (snd i)) inputs).


(** What a call of a handler may do to the state: the book keeps its
    entries, in their order, and may get more at its end; an object keeps
    its place and its name, has no fewer phones, and keeps having a
    birthday once it has one. *)
Definition grows (st st' : State) : Prop :=
  (exists more, data st' = data st ++ more)
  /\ (forall (r : ref) self, heap st !! r = Some self ->
        exists self', heap st' !! r = Some self'
                      /\ Record_.name self' = Record_.name self
                      /\ (length (Record_.phones self)
                          <= length (Record_.phones self'))%nat
                      /\ (Record_.birthday self <> None ->
                          Record_.birthday self' <> None)).

(** * Properties *)

(** ** Calendar arithmetic *)


Ltac month_cases m :=
let H := fresh "Hm" in
assert (H : m = 1 \/ m = 2 \/ m = 3 \/ m = 4 \/ m = 5 \/ m = 6 \/ m = 7
            \/ m = 8 \/ m = 9 \/ m = 10 \/ m = 11 \/ m = 12) by lia;
repeat (destruct H as [H | H]); subst m.

Ltac table_calc :=
cbv [index _DAYS_IN_MONTH _DAYS_BEFORE_MONTH nth Z.to_nat Pos.to_nat
     Pos.iter_op Init.Nat.add] in *;
cbn in *.

Lemma leap_cases (y : Z) :
(_is_leap y = true /\ y mod 4 = 0 /\ (y mod 100 <> 0 \/ y mod 400 = 0))
\/ (_is_leap y = false /\ (y mod 4 <> 0 \/ (y mod 100 = 0 /\ y mod 400 <> 0))).
Proof.
unfold _is_leap.
destruct (Z.eqb_spec (y mod 4) 0), (Z.eqb_spec (y mod 100) 0),
  (Z.eqb_spec (y mod 400) 0); simpl; lia.
Qed.

Lemma days_before_year_succ (y : Z) :
_days_before_year (y + 1)
= _days_before_year y + 365 + (if _is_leap y then 1 else 0).
Proof.
unfold _days_before_year.
replace (y + 1 - 1) with (y - 1 + 1) by lia.
destruct (leap_cases y) as [(-> & H4 & H) | (-> & H)];
  (Z.div_mod_to_equations; lia).
Qed.

Lemma days_before_year_mono (a b : Z) :
a <= b -> _days_before_year a <= _days_before_year b.
Proof.
unfold _days_before_year. intros Hab.
Z.div_mod_to_equations. lia.
Qed.

Lemma days_in_month_bounds (y m : Z) :
1 <= m <= 12 -> 28 <= _days_in_month y m <= 31.
Proof.
intros Hm. unfold _days_in_month.
month_cases m; destruct (_is_leap y); table_calc; lia.
Qed.

(** Within a year, the day number of a valid date lies in the year. *)
Lemma day_of_year_bounds (y m d : Z) :
1 <= m <= 12 -> 1 <= d <= _days_in_month y m ->
1 <= _days_before_month y m + d <= 365 + (if _is_leap y then 1 else 0).
Proof.
intros Hm. unfold _days_in_month, _days_before_month.
month_cases m; destruct (_is_leap y); table_calc; lia.
Qed.

Lemma day_of_year_mono (y m1 d1 m2 d2 : Z) :
1 <= m1 <= 12 -> 1 <= m2 <= 12 ->
1 <= d1 <= _days_in_month y m1 -> 1 <= d2 <= _days_in_month y m2 ->
m1 < m2 ->
_days_before_month y m1 + d1 < _days_before_month y m2 + d2.
Proof.
intros H1 H2. unfold _days_in_month, _days_before_month.
month_cases m1; month_cases m2; try lia; destruct (_is_leap y);
  table_calc; lia.
Qed.

Lemma toordinal_year_bounds (d : date) :
date_ok d ->
_days_before_year (year d) < toordinal d <= _days_before_year (year d + 1).
Proof.
intros (Hy & Hm & Hd). unfold toordinal, _ymd2ord.
rewrite days_before_year_succ.
pose proof (day_of_year_bounds _ _ _ Hm Hd). lia.
Qed.

(** The tuple order of dates is the order of their ordinals. *)
Lemma date_lt_toordinal (a b : date) :
date_ok a -> date_ok b ->
date_lt a b = true <-> toordinal a < toordinal b.
Proof.
intros Ha Hb.
pose proof (toordinal_year_bounds a Ha) as Ba.
pose proof (toordinal_year_bounds b Hb) as Bb.
destruct Ha as (Hya & Hma & Hda), Hb as (Hyb & Hmb & Hdb).
unfold date_lt.
destruct (Z.ltb_spec (year a) (year b)) as [Hlt | Hge]; simpl.
- split; [intros _ | reflexivity].
  pose proof (days_before_year_mono (year a + 1) (year b)). lia.
- destruct (Z.eqb_spec (year a) (year b)) as [Heq | Hne]; simpl.
  + unfold toordinal, _ymd2ord in *. rewrite <- Heq in *.
    destruct (Z.ltb_spec (month a) (month b)) as [Hmlt | Hmge]; simpl.
    * split; [intros _ | reflexivity].
      pose proof (day_of_year_mono (year a) _ _ _ _ Hma Hmb Hda Hdb Hmlt). lia.
    * destruct (Z.eqb_spec (month a) (month b)) as [Hmeq | Hmne]; simpl.
      -- rewrite <- Hmeq. rewrite Z.ltb_lt. lia.
      -- split; [discriminate | intros Hlt].
         assert (Hgt : month b < month a) by lia.
         pose proof (day_of_year_mono (year a) _ _ _ _ Hmb Hma Hdb Hda Hgt).
         lia.
  + split; [discriminate | intros Hlt].
    pose proof (days_before_year_mono (year b + 1) (year a)). lia.
Qed.


Lemma month_day_table (leapyear : bool) :
  forallb (fun k => month_day_ok leapyear (Z.of_nat k))
          (seq 0 (if leapyear then 366 else 365)) = true.
Proof. destruct leapyear; vm_compute; reflexivity. Qed.

Lemma month_day_spec (leapyear : bool) (n : Z) :
  0 <= n < 365 + (if leapyear then 1 else 0) ->
  month_day_ok leapyear n = true.
Proof.
  intros Hn. pose proof (month_day_table leapyear) as H.
  rewrite forallb_forall in H.
  specialize (H (Z.to_nat n)). rewrite Z2Nat.id in H by lia.
  apply H. apply in_seq. destruct leapyear; lia.
Qed.

Lemma ord2ymd_split (n : Z) :
  exists q n100 n4 n1 r,
    n - 1 = 146097 * q + 36524 * n100 + 1461 * n4 + 365 * n1 + r
    /\ 0 <= n100 <= 4 /\ 0 <= n4 <= 24 /\ 0 <= n1 <= 4 /\ 0 <= r < 365
    /\ (n100 = 4 -> n4 = 0 /\ n1 = 0 /\ r = 0)
    /\ (n1 = 4 -> r = 0 /\ n4 <= 23)
    /\ (n4 = 24 -> n100 <= 3 -> n1 <= 3)
    /\ _ord2ymd n =
       let year := q * 400 + 1 + (n100 * 100 + n4 * 4 + n1) in
       if (n1 =? 4) || (n100 =? 4) then (year - 1, 12, 31)
       else
         let leapyear := (n1 =? 3) && (negb (n4 =? 24) || (n100 =? 3)) in
         let '(m, d) := month_day leapyear r in (year, m, d).
Proof.
  exists ((n - 1) / 146097), ((n - 1) mod 146097 / 36524),
    ((n - 1) mod 146097 mod 36524 / 1461),
    ((n - 1) mod 146097 mod 36524 mod 1461 / 365),
    ((n - 1) mod 146097 mod 36524 mod 1461 mod 365).
  repeat split; try (Z.div_mod_to_equations; lia).
  unfold _ord2ymd, month_day, _DI400Y, _DI100Y, _DI4Y. cbv zeta.
  destruct (_ =? 4) ; destruct (_ =? 4); simpl orb; cbv iota; try reflexivity.
  destruct (_ <? _); reflexivity.
Qed.

Lemma days_before_year_split (q n100 n4 n1 : Z) :
  0 <= n100 <= 3 -> 0 <= n4 <= 24 -> 0 <= n1 <= 3 ->
  _days_before_year (q * 400 + 1 + (n100 * 100 + n4 * 4 + n1))
  = 146097 * q + 36524 * n100 + 1461 * n4 + 365 * n1.
Proof.
  intros H100 H4 H1. unfold _days_before_year.
  Z.div_mod_to_equations. lia.
Qed.

Lemma is_leap_split (q n100 n4 n1 : Z) :
  0 <= n100 <= 3 -> 0 <= n4 <= 24 -> 0 <= n1 <= 3 ->
  _is_leap (q * 400 + 1 + (n100 * 100 + n4 * 4 + n1))
  = (n1 =? 3) && (negb (n4 =? 24) || (n100 =? 3)).
Proof.
  intros H100 H4 H1.
  destruct (leap_cases (q * 400 + 1 + (n100 * 100 + n4 * 4 + n1)))
    as [(-> & Ha & Hb) | (-> & Hb)];
    destruct (Z.eqb_spec n1 3), (Z.eqb_spec n4 24), (Z.eqb_spec n100 3);
    simpl; try reflexivity; exfalso; Z.div_mod_to_equations; lia.
Qed.

Lemma toordinal_fromordinal (n : Z) : toordinal (fromordinal n) = n.
Proof.
  unfold fromordinal.
  destruct (ord2ymd_split n)
    as (q & n100 & n4 & n1 & r & Hn & H100 & H4 & H1 & Hr & Hc & Hy & H24 & ->).
  cbv zeta.
  destruct (Z.eqb_spec n1 4) as [E1 | E1]; simpl orb; cbv iota.
  - destruct (Hy E1) as (-> & Hn4). subst n1.
    unfold toordinal, _ymd2ord; simpl year; simpl month; simpl day.
    replace (q * 400 + 1 + (n100 * 100 + n4 * 4 + 4) - 1)
      with (q * 400 + 1 + (n100 * 100 + n4 * 4 + 3)) by lia.
    assert (n100 <= 3) by (destruct (Z.eq_dec n100 4) as [E|E]; [apply Hc in E|]; lia).
    unfold _days_before_month.
    rewrite days_before_year_split, is_leap_split by lia.
    destruct (Z.eqb_spec n4 24); [lia|]. table_calc. lia.
  - destruct (Z.eqb_spec n100 4) as [E100 | E100]; cbv iota.
    + destruct (Hc E100) as (-> & -> & ->). subst n100.
      unfold toordinal, _ymd2ord; simpl year; simpl month; simpl day.
      replace (q * 400 + 1 + (4 * 100 + 0 * 4 + 0) - 1)
        with (q * 400 + 1 + (3 * 100 + 24 * 4 + 3)) by lia.
      unfold _days_before_month.
      rewrite days_before_year_split, is_leap_split by lia.
      table_calc. lia.
    + set (leapyear := (n1 =? 3) && (negb (n4 =? 24) || (n100 =? 3))).
      pose proof (month_day_spec leapyear r ltac:(destruct leapyear; lia)) as Hmd.
      unfold month_day_ok in Hmd.
      destruct (month_day leapyear r) as [m d].
      unfold toordinal, _ymd2ord; simpl year; simpl month; simpl day.
      unfold _days_before_month.
      rewrite days_before_year_split, is_leap_split by lia.
      fold leapyear.
      rewrite !andb_true_iff in Hmd. destruct Hmd as (_ & Hsum).
      apply Z.eqb_eq in Hsum. lia.
Qed.

Lemma fromordinal_ok (n : Z) :
  1 <= n <= _MAXORDINAL -> date_ok (fromordinal n).
Proof.
  intros Hrange. unfold _MAXORDINAL in Hrange.
  destruct (ord2ymd_split n)
    as (q & n100 & n4 & n1 & r & Hn & H100 & H4 & H1 & Hr & Hc & Hy & H24 & E).
  unfold fromordinal, date_ok. rewrite E. cbv zeta.
  unfold MINYEAR, MAXYEAR.
  destruct (Z.eqb_spec n1 4) as [E1 | E1]; simpl orb; cbv iota.
  - destruct (Hy E1) as (-> & Hn4). simpl year; simpl month; simpl day.
    unfold _days_in_month. table_calc. lia.
  - destruct (Z.eqb_spec n100 4) as [E100 | E100]; cbv iota.
    + destruct (Hc E100) as (-> & -> & ->).
      simpl year; simpl month; simpl day.
      unfold _days_in_month. table_calc. lia.
    + set (leapyear := (n1 =? 3) && (negb (n4 =? 24) || (n100 =? 3))).
      pose proof (month_day_spec leapyear r ltac:(destruct leapyear; lia)) as Hmd.
      unfold month_day_ok in Hmd.
      destruct (month_day leapyear r) as [m d].
      simpl year; simpl month; simpl day.
      unfold _days_in_month. rewrite is_leap_split by lia. fold leapyear.
      rewrite !andb_true_iff in Hmd.
      destruct Hmd as ((((Hm1 & Hm2) & Hd1) & Hd2) & _).
      rewrite !Z.leb_le in *. lia.
Qed.

(** ** The date operations of the query *)

Lemma toordinal_range (d : date) :
  date_ok d -> 1 <= toordinal d <= _MAXORDINAL.
Proof.
  intros Hd. pose proof (toordinal_year_bounds d Hd) as Hb.
  destruct Hd as (Hy & _). unfold MINYEAR, MAXYEAR in Hy.
  pose proof (days_before_year_mono 1 (year d) ltac:(lia)) as Hlo.
  pose proof (days_before_year_mono (year d + 1) 10000 ltac:(lia)) as Hhi.
  change (_days_before_year 1) with 0 in Hlo.
  change (_days_before_year 10000) with 3652059 in Hhi.
  unfold _MAXORDINAL. lia.
Qed.

Lemma toordinal_inj (a b : date) :
  date_ok a -> date_ok b -> toordinal a = toordinal b -> a = b.
Proof.
  intros Ha Hb E.
  pose proof (date_lt_toordinal a b Ha Hb) as Hab.
  pose proof (date_lt_toordinal b a Hb Ha) as Hba.
  assert (Hn1 : date_lt a b = false)
    by (destruct (date_lt a b); [ pose proof (proj1 Hab eq_refl); lia | reflexivity ]).
  assert (Hn2 : date_lt b a = false)
    by (destruct (date_lt b a); [ pose proof (proj1 Hba eq_refl); lia | reflexivity ]).
  unfold date_lt in Hn1, Hn2.
  destruct a as [ya ma da], b as [yb mb db]; simpl in *.
  assert (ya = yb /\ ma = mb /\ da = db) as (-> & -> & ->); [ | reflexivity ].
  destruct (Z.ltb_spec ya yb), (Z.ltb_spec yb ya), (Z.eqb_spec ya yb),
    (Z.eqb_spec yb ya), (Z.ltb_spec ma mb), (Z.ltb_spec mb ma),
    (Z.eqb_spec ma mb), (Z.eqb_spec mb ma), (Z.ltb_spec da db),
    (Z.ltb_spec db da); simpl in *; try discriminate; lia.
Qed.

Lemma date_new_ok (y m d : Z) (x : date) :
  date_new y m d = Ok x -> x = mkdate y m d /\ date_ok x.
Proof.
  unfold date_new, _check_date_fields, date_ok.
  destruct (Z.leb_spec MINYEAR y), (Z.leb_spec y MAXYEAR); simpl; try discriminate.
  destruct (Z.leb_spec 1 m), (Z.leb_spec m 12); simpl; try discriminate.
  destruct (Z.leb_spec 1 d), (Z.leb_spec d (_days_in_month y m)); simpl;
    try discriminate.
  intros [= <-]. simpl. auto.
Qed.

Lemma date_new_complete (y m d : Z) :
  date_ok (mkdate y m d) -> date_new y m d = Ok (mkdate y m d).
Proof.
  unfold date_ok, date_new, _check_date_fields. simpl.
  intros ((H1 & H2) & (H3 & H4) & (H5 & H6)).
  destruct (Z.leb_spec MINYEAR y), (Z.leb_spec y MAXYEAR); simpl; try lia.
  destruct (Z.leb_spec 1 m), (Z.leb_spec m 12); simpl; try lia.
  destruct (Z.leb_spec 1 d), (Z.leb_spec d (_days_in_month y m)); simpl;
    try lia.
  reflexivity.
Qed.

(** Every failure of the [date] constructor is a [ValueError]. *)
Lemma date_new_raises (y m d : Z) (e : exn) :
  date_new y m d = Raise e -> exists msg, e = ValueError msg.
Proof.
  unfold date_new, _check_date_fields.
  repeat match goal with
         | |- context [if ?b then _ else _] => destruct b; simpl
         end; intros [= <-]; eauto.
Qed.

Lemma weekday_range (d : date) : 0 <= weekday d <= 6.
Proof. unfold weekday. pose proof (Z.mod_pos_bound (toordinal d + 6) 7). lia. Qed.

(** The last day a [date] can hold is a Friday, so that moving a weekend
    day to the next Monday never leaves the range of dates. *)
Lemma adjust_for_weekend_spec (d : date) :
  date_ok d ->
  exists d',
    AddressBook.adjust_for_weekend d = Ok d'
    /\ date_ok d'
    /\ toordinal d' = toordinal d + weekend_shift (weekday d)
    /\ (weekday d < 5 -> d' = d)
    /\ (5 <= weekday d ->
        weekday d' = 0 /\ add_days d (weekend_shift (weekday d)) = Ok d').
Proof.
  intros Hd. pose proof (toordinal_range d Hd) as Hr.
  pose proof (weekday_range d) as Hw.
  unfold AddressBook.adjust_for_weekend, weekend_shift.
  destruct (Z.leb_spec 5 (weekday d)) as [H5 | H5].
  - unfold AddressBook.find_next_weekday, add_days.
    assert (Hs : (if 0 - weekday d <=? 0 then 0 - weekday d + 7 else 0 - weekday d)
                 = 7 - weekday d)
      by (destruct (Z.leb_spec (0 - weekday d) 0); lia).
    rewrite Hs. clear Hs.
    assert (Hin : 0 < toordinal d + (7 - weekday d) <= _MAXORDINAL).
    { unfold weekday, _MAXORDINAL in *. Z.div_mod_to_equations. lia. }
    destruct (Z.ltb_spec 0 (toordinal d + (7 - weekday d))); [ | lia ].
    destruct (Z.leb_spec (toordinal d + (7 - weekday d)) _MAXORDINAL); [ | lia ].
    simpl. eexists. split; [ reflexivity | ].
    split; [ apply fromordinal_ok; lia | ].
    split; [ rewrite toordinal_fromordinal;
             destruct (Z.eqb_spec (weekday d) 5), (Z.eqb_spec (weekday d) 6); lia | ].
    split; [ lia | ].
    intros _. split.
    + unfold weekday at 1. rewrite toordinal_fromordinal.
      unfold weekday. Z.div_mod_to_equations. lia.
    + replace (if weekday d =? 5 then 2 else if weekday d =? 6 then 1 else 0)
        with (7 - weekday d)
        by (destruct (Z.eqb_spec (weekday d) 5), (Z.eqb_spec (weekday d) 6); lia).
      unfold add_days.
      destruct (Z.ltb_spec 0 (toordinal d + (7 - weekday d))); [ | lia ].
      destruct (Z.leb_spec (toordinal d + (7 - weekday d)) _MAXORDINAL); [ | lia ].
      reflexivity.
  - exists d. split; [ reflexivity | ]. split; [ assumption | ].
    split; [ destruct (Z.eqb_spec (weekday d) 5), (Z.eqb_spec (weekday d) 6); lia | ].
    split; [ reflexivity | lia ].
Qed.

Lemma weekend_shift_range (wd : Z) : 0 <= weekend_shift wd <= 2.
Proof.
  unfold weekend_shift.
  destruct (Z.eqb_spec wd 5), (Z.eqb_spec wd 6); lia.
Qed.

(** The date computed at lines 101 to 103 is the one the specification
    describes, and it is never before [today]. *)
Lemma next_birthday_spec (today ub nb : date) :
  date_ok today -> date_ok ub ->
  AddressBook.next_birthday today ub = Ok nb ->
  nb = spec_next_birthday today ub /\ date_ok nb
  /\ toordinal today <= toordinal nb.
Proof.
  intros Ht Hu. unfold AddressBook.next_birthday, replace_year, spec_next_birthday.
  destruct (date_new (year today) (month ub) (day ub)) as [x | e] eqn:E1;
    simpl; [ | discriminate ].
  apply date_new_ok in E1 as (-> & Hx).
  pose proof (date_lt_toordinal _ _ Hx Ht) as Hlt.
  destruct (date_lt _ today) eqn:E2.
  - intros E3. apply date_new_ok in E3 as (-> & Hn).
    destruct (Z.ltb_spec (toordinal (mkdate (year today) (month ub) (day ub)))
                (toordinal today)) as [Hl | Hl];
      [ | pose proof (proj1 Hlt eq_refl); lia ].
    split; [ reflexivity | ]. split; [ assumption | ].
    pose proof (toordinal_year_bounds _ Ht).
    pose proof (toordinal_year_bounds _ Hn). simpl in *. lia.
  - intros [= <-].
    destruct (Z.ltb_spec (toordinal (mkdate (year today) (month ub) (day ub)))
                (toordinal today)) as [Hl | Hl].
    + apply Hlt in Hl. discriminate Hl.
    + auto.
Qed.

(** ** The dict *)

Section DictFacts.
Context {V : Type}.
Implicit Types (d : dict V) (k : pystr) (v : V).

Lemma pystr_eqb_spec (a b : pystr) : reflect (a = b) (pystr_eqb a b).
Proof. unfold pystr_eqb. apply bool_decide_reflect. Qed.

Lemma dict_get_In k v d : dict_get k d = Some v -> In (k, v) d.
Proof.
  induction d as [ | [k' v'] d IH ]; simpl; [ discriminate | ].
  destruct (pystr_eqb_spec k' k) as [-> | Hne].
  - intros [= ->]. now left.
  - intros H. right. now apply IH.
Qed.

Lemma dict_get_None k d : dict_get k d = None <-> ~ In k (dict_keys d).
Proof.
  induction d as [ | [k' v'] d IH ]; simpl.
  - tauto.
  - destruct (pystr_eqb_spec k' k) as [-> | Hne].
    + split; [ discriminate | intros H; exfalso; apply H; now left ].
    + rewrite IH. tauto.
Qed.

Lemma In_dict_keys k v d : In (k, v) d -> In k (dict_keys d).
Proof. intros H. unfold dict_keys. change k with (fst (k, v)). now apply in_map. Qed.

Lemma In_dict_get k v d : dict_ok d -> In (k, v) d -> dict_get k d = Some v.
Proof.
  unfold dict_ok. induction d as [ | [k' v'] d IH ]; simpl; [ tauto | ].
  intros Hnd Hin. apply NoDup_cons_iff in Hnd as [Hni Hnd].
  destruct (pystr_eqb_spec k' k) as [-> | Hne].
  - destruct Hin as [ [= ->] | Hin ]; [ reflexivity | ].
    exfalso. apply Hni. eapply In_dict_keys, Hin.
  - destruct Hin as [ [= -> _] | Hin ]; [ congruence | now apply IH ].
Qed.

Lemma dict_get_set_eq k v d : dict_get k (dict_set k v d) = Some v.
Proof.
  induction d as [ | [k' v'] d IH ]; simpl.
  - destruct (pystr_eqb_spec k k); congruence.
  - destruct (pystr_eqb_spec k' k) as [-> | Hne]; simpl.
    + destruct (pystr_eqb_spec k k); congruence.
    + destruct (pystr_eqb_spec k' k); congruence.
Qed.

Lemma dict_get_set_ne k k0 v d :
  k0 <> k -> dict_get k0 (dict_set k v d) = dict_get k0 d.
Proof.
  intros Hne. induction d as [ | [k' v'] d IH ]; simpl.
  - destruct (pystr_eqb_spec k k0); congruence.
  - destruct (pystr_eqb_spec k' k) as [-> | Hne']; simpl.
    + destruct (pystr_eqb_spec k k0); congruence.
    + destruct (pystr_eqb_spec k' k0); congruence.
Qed.

Lemma In_dict_set k v d x :
  In x (dict_set k v d) -> x = (k, v) \/ In x d.
Proof.
  induction d as [ | [k' v'] d IH ]; simpl.
  - intros [<- | []]. now left.
  - destruct (pystr_eqb_spec k' k) as [-> | Hne]; simpl.
    + intros [<- | Hin]; [ now left | right; now right ].
    + intros [<- | Hin]; [ right; now left | ].
      destruct (IH Hin) as [-> | H]; [ now left | right; now right ].
Qed.

Lemma dict_keys_set k v d :
  dict_keys (dict_set k v d)
  = if dict_contains k d then dict_keys d else dict_keys d ++ [k].
Proof.
  unfold dict_contains. induction d as [ | [k' v'] d IH ]; simpl; [ reflexivity | ].
  destruct (pystr_eqb_spec k' k) as [-> | Hne]; simpl; [ reflexivity | ].
  rewrite IH. now destruct (dict_get k d).
Qed.

Lemma dict_ok_set k v d : dict_ok d -> dict_ok (dict_set k v d).
Proof.
  unfold dict_ok. intros Hnd. rewrite dict_keys_set. unfold dict_contains.
  destruct (dict_get k d) eqn:E; [ assumption | ].
  apply dict_get_None in E.
  apply List.NoDup_app; [ assumption | repeat constructor; simpl; tauto | ].
  intros a Ha [<- | []]. contradiction.
Qed.

Lemma In_dict_del k d x : In x (dict_del k d) -> In x d.
Proof.
  induction d as [ | [k' v'] d IH ]; simpl; [ tauto | ].
  destruct (pystr_eqb_spec k' k) as [-> | Hne]; simpl; [ tauto | ].
  intros [<- | Hin]; [ now left | right; now apply IH ].
Qed.

Lemma dict_ok_del k d : dict_ok d -> dict_ok (dict_del k d).
Proof.
  unfold dict_ok. induction d as [ | [k' v'] d IH ]; simpl; [ trivial | ].
  intros Hnd. apply List.NoDup_cons_iff in Hnd as [Hni Hnd].
  destruct (pystr_eqb_spec k' k) as [-> | Hne]; simpl; [ assumption | ].
  apply List.NoDup_cons; [ | now apply IH ].
  intros Hin. apply Hni. unfold dict_keys in *.
  apply in_map_iff in Hin as (x & Hx & Hin).
  apply in_map_iff. exists x. split; [ assumption | ].
  eapply In_dict_del, Hin.
Qed.

Lemma dict_get_del_eq k d : dict_ok d -> dict_get k (dict_del k d) = None.
Proof.
  unfold dict_ok. induction d as [ | [k' v'] d IH ]; simpl; [ reflexivity | ].
  intros Hnd. apply List.NoDup_cons_iff in Hnd as [Hni Hnd].
  destruct (pystr_eqb_spec k' k) as [-> | Hne]; simpl.
  - now apply dict_get_None.
  - destruct (pystr_eqb_spec k' k); [ congruence | now apply IH ].
Qed.

Lemma dict_get_del_ne k k0 d :
  k0 <> k -> dict_get k0 (dict_del k d) = dict_get k0 d.
Proof.
  intros Hne. induction d as [ | [k' v'] d IH ]; simpl; [ reflexivity | ].
  destruct (pystr_eqb_spec k' k) as [-> | Hne']; simpl.
  - destruct (pystr_eqb_spec k k0); congruence.
  - destruct (pystr_eqb_spec k' k0); congruence.
Qed.

(** Deleting a present key removes one entry and keeps the others in
    their order. *)
Lemma dict_del_split k v d :
  dict_get k d = Some v ->
  exists d1 d2, d = d1 ++ (k, v) :: d2 /\ dict_del k d = d1 ++ d2.
Proof.
  induction d as [ | [k' v'] d IH ]; simpl; [ discriminate | ].
  destruct (pystr_eqb_spec k' k) as [-> | Hne].
  - intros [= ->]. now exists [], d.
  - intros H. destruct (IH H) as (d1 & d2 & -> & ->).
    now exists ((k', v') :: d1), d2.
Qed.

End DictFacts.

(** ** The loop of the query *)

Section LoopFacts.
Variable today : date.

Lemma loop_body_adds (record : Record_.t) (acc acc' : list entry) :
  AddressBook.loop_body today record acc = Ok acc' ->
  exists l, adds today record l /\ acc' = acc ++ l.
Proof.
  unfold AddressBook.loop_body.
  destruct (Record_.birthday record) as [b | ] eqn:Eb.
  - destruct (AddressBook.next_birthday today (Birthday.date b)) as [nb | e] eqn:En;
      simpl; [ | discriminate ].
    destruct (Z.leb_spec 0 (sub_days nb today)) as [H0 | H0]; simpl.
    + destruct (Z.leb_spec (sub_days nb today) 7) as [H7 | H7].
      * destruct (AddressBook.adjust_for_weekend nb) as [cd | e] eqn:Ea;
          simpl; [ | discriminate ].
        intros [= <-]. eexists. split; [ | reflexivity ].
        eapply adds_inside; eauto. unfold in_window. lia.
      * intros [= <-]. exists []. split; [ | now rewrite app_nil_r ].
        eapply adds_outside; eauto. unfold in_window. lia.
    + intros [= <-]. exists []. split; [ | now rewrite app_nil_r ].
      eapply adds_outside; eauto. unfold in_window. lia.
  - intros [= <-]. exists []. split; [ | now rewrite app_nil_r ].
    now apply adds_no_birthday.
Qed.

(** The list returned is the list at start followed by what each record
    adds, in the order of the records. *)
Lemma upcoming_loop_adds (records : list Record_.t) :
  forall acc out,
    AddressBook.upcoming_loop today records acc = Ok out ->
    exists ls, Forall2 (adds today) records ls /\ out = acc ++ concat ls.
Proof.
  induction records as [ | record records IH ]; simpl; intros acc out.
  - intros [= <-]. exists []. split; [ constructor | now rewrite app_nil_r ].
  - destruct (AddressBook.loop_body today record acc) as [acc' | e] eqn:Eb;
      simpl; [ | discriminate ].
    intros Hl. apply loop_body_adds in Eb as (l & Hadds & ->).
    destruct (IH _ _ Hl) as (ls & Hls & ->).
    exists (l :: ls). split; [ now constructor | ].
    simpl. now rewrite <- app_assoc.
Qed.

End LoopFacts.

(** ** The records the query visits *)

Section BookFacts.
Variable st : State.
Hypothesis st_ok : wf_state st.

Lemma find_In (name : pystr) (r : ref) :
  AddressBook.find name st = Some r <-> In (name, r) (data st).
Proof.
  unfold AddressBook.find. split.
  - apply dict_get_In.
  - apply In_dict_get, st_ok.
Qed.

Lemma values_Forall2 (records : list Record_.t) :
  AddressBook.values st = Some records ->
  Forall2 (fun kr self => heap st !! (snd kr) = Some self) (data st) records.
Proof.
  unfold AddressBook.values, dict_values. intros H.
  apply mapM_Some_1 in H. revert records H.
  induction (data st) as [ | kr d IH ]; simpl; intros records H.
  - inversion H. constructor.
  - inversion H as [ | ? self ? records' Hx Hr ]; subst.
    constructor; [ assumption | now apply IH ].
Qed.

(** In a well-formed state every reference of the book is live. *)
Lemma values_total : exists records, AddressBook.values st = Some records.
Proof.
  destruct st_ok as (_ & Hrefs & _).
  unfold AddressBook.values, dict_values.
  assert (H : is_Some (mapM (fun r => heap st !! r) (map snd (data st)))).
  { apply mapM_is_Some_2. apply Forall_forall. intros r Hr.
    apply list_elem_of_In, in_map_iff in Hr as ([k r'] & <- & Hin).
    destruct (Hrefs _ _ Hin) as (self & Hs & _). simpl. now exists self. }
  destruct H as [records H]. now exists records.
Qed.

Lemma values_found (records : list Record_.t) name r self :
  AddressBook.values st = Some records ->
  AddressBook.find name st = Some r -> heap st !! r = Some self ->
  In self records.
Proof.
  intros Hv Hf Hs. apply values_Forall2 in Hv. apply find_In in Hf.
  apply list_elem_of_In, list_elem_of_lookup in Hf as (i & Hi).
  destruct (Forall2_lookup_l _ _ _ _ _ Hv Hi) as (self' & Hi' & Hs').
  simpl in Hs'. assert (self' = self) as -> by congruence.
  apply list_elem_of_In, list_elem_of_lookup. now exists i.
Qed.

Lemma values_origin (records : list Record_.t) self :
  AddressBook.values st = Some records -> In self records ->
  exists r, AddressBook.find (Name.value (Record_.name self)) st = Some r
            /\ heap st !! r = Some self.
Proof.
  intros Hv Hin. apply values_Forall2 in Hv.
  apply list_elem_of_In, list_elem_of_lookup in Hin as (i & Hi).
  destruct (Forall2_lookup_r _ _ _ _ _ Hv Hi) as ([k r] & Hi' & Hs').
  simpl in Hs'. exists r. split; [ | assumption ].
  assert (Hin : In (k, r) (data st))
    by (apply list_elem_of_In, list_elem_of_lookup; now exists i).
  destruct st_ok as (_ & Hrefs & _).
  destruct (Hrefs _ _ Hin) as (self' & Hs'' & <-).
  assert (self' = self) as -> by congruence.
  now apply find_In.
Qed.

(** Two visited records of one name are one record. *)
Lemma values_name_inj (records : list Record_.t) self1 self2 :
  AddressBook.values st = Some records ->
  In self1 records -> In self2 records ->
  Name.value (Record_.name self1) = Name.value (Record_.name self2) ->
  self1 = self2.
Proof.
  intros Hv H1 H2 E.
  destruct (values_origin _ _ Hv H1) as (r1 & Hf1 & Hs1).
  destruct (values_origin _ _ Hv H2) as (r2 & Hf2 & Hs2).
  rewrite E in Hf1. congruence.
Qed.

Lemma values_birthday_ok (records : list Record_.t) self b :
  AddressBook.values st = Some records -> In self records ->
  Record_.birthday self = Some b -> date_ok (Birthday.date b).
Proof.
  intros Hv Hin Hb. destruct (values_origin _ _ Hv Hin) as (r & _ & Hs).
  destruct st_ok as (_ & _ & Hbd). eapply Hbd; [ | exact Hb ].
  apply list_elem_of_In, list_elem_of_lookup. now exists r.
Qed.

End BookFacts.

Section QueryFacts.
Variable today : date.

Lemma adds_fun (self : Record_.t) (l1 l2 : list entry) :
  adds today self l1 -> adds today self l2 -> l1 = l2.
Proof.
  intros H1 H2.
  destruct H1 as [ Hb | b nb Hb Hn Hw | b nb cd Hb Hn Hw Ha ];
    destruct H2 as [ Hb' | b' nb' Hb' Hn' Hw' | b' nb' cd' Hb' Hn' Hw' Ha' ];
    try reflexivity; congruence.
Qed.

Lemma Forall2_adds_In (records : list Record_.t) (ls : list (list entry)) e :
  Forall2 (adds today) records ls -> In e (concat ls) ->
  exists self l, In self records /\ adds today self l /\ In e l.
Proof.
  induction 1 as [ | self l records ls Hadds Hrest IH ]; simpl; [ tauto | ].
  intros Hin. apply in_app_or in Hin as [Hin | Hin].
  - exists self, l. auto.
  - destruct (IH Hin) as (self' & l' & H1 & H2 & H3).
    exists self', l'. auto.
Qed.

Lemma Forall2_adds_incl (records : list Record_.t) (ls : list (list entry)) self :
  Forall2 (adds today) records ls -> In self records ->
  exists l, adds today self l /\ forall e, In e l -> In e (concat ls).
Proof.
  induction 1 as [ | self' l records ls Hadds Hrest IH ]; simpl; [ tauto | ].
  intros [-> | Hin].
  - exists l. split; [ assumption | ]. intros e He. apply in_or_app. now left.
  - destruct (IH Hin) as (l' & H1 & H2). exists l'. split; [ assumption | ].
    intros e He. apply in_or_app. right. now apply H2.
Qed.

(** A record whose body raises makes the loop raise, whatever comes before
    it in the book. *)
Lemma upcoming_loop_raises (records : list Record_.t) self :
  In self records ->
  (forall acc, exists e, AddressBook.loop_body today self acc = Raise e) ->
  forall acc, exists e, AddressBook.upcoming_loop today records acc = Raise e.
Proof.
  intros Hin Hraise.
  induction records as [ | record records IH ]; simpl; [ destruct Hin | ].
  intros acc. destruct Hin as [-> | Hin].
  - destruct (Hraise acc) as (e & ->). simpl. now exists e.
  - destruct (AddressBook.loop_body today record acc) as [acc' | e]; simpl.
    + apply IH, Hin.
    + now exists e.
Qed.

End QueryFacts.

(** What the query returns holds, for every record of the book, the entry
    the record adds and no other entry of that name. *)
Lemma query_adds (w : World) (st : State) (out : list entry) name r self :
  wf_state st ->
  AddressBook.get_upcoming_birthdays w st = Some (Ok out) ->
  AddressBook.find name st = Some r -> heap st !! r = Some self ->
  exists l,
    adds (datetime_date (datetime_today w)) self l
    /\ (forall e, In e l -> In e out)
    /\ (forall e, In e out -> e_name e = Name.value (Record_.name self) ->
                  In e l).
Proof.
  intros Hwf Hq Hf Hs. unfold AddressBook.get_upcoming_birthdays in Hq.
  destruct (AddressBook.values st) as [records | ] eqn:Hv; [ | discriminate ].
  injection Hq as Hq.
  apply upcoming_loop_adds in Hq as (ls & Hls & ->). simpl.
  pose proof (values_found st Hwf _ _ _ _ Hv Hf Hs) as Hin.
  destruct (Forall2_adds_incl _ _ _ _ Hls Hin) as (l & Hadds & Hincl).
  exists l. split; [ assumption | ]. split; [ assumption | ].
  intros e He Hname.
  destruct (Forall2_adds_In _ _ _ _ Hls He) as (self' & l' & Hin' & Hadds' & He').
  assert (Hn : Name.value (Record_.name self') = Name.value (Record_.name self)).
  { destruct Hadds'; simpl in He'; try tauto.
    destruct He' as [<- | []]. exact Hname. }
  assert (self' = self) as -> by (eapply values_name_inj; eauto).
  now rewrite (adds_fun _ _ _ _ Hadds Hadds').
Qed.

(** ** The constructors of the fields *)

Lemma forallb_Forall {A} (f : A -> bool) (l : list A) :
  forallb f l = true <-> Forall (fun x => f x = true) l.
Proof.
  induction l as [ | x l IH ]; simpl.
  - split; [ constructor | reflexivity ].
  - rewrite andb_true_iff, IH. split.
    + intros [H1 H2]. now constructor.
    + intros H. inversion H; subst. auto.
Qed.

Lemma Phone_validate_ok (s : pystr) :
  Phone.validate s = Ok tt <-> valid_phone s.
Proof.
  unfold Phone.validate, valid_phone, len.
  assert (Hd : isdigit s = true
               <-> s <> [] /\ Forall (fun c => isdigit_char c = true) s).
  { unfold isdigit. destruct s as [ | c s ].
    - split; [ discriminate | intros [H _]; congruence ].
    - rewrite forallb_Forall. split; [ intros H; split; [ discriminate | exact H ] | tauto ]. }
  destruct (isdigit s); simpl.
  - destruct (Z.eqb_spec (Z.of_nat (length s)) 10) as [El | El]; simpl.
    + split; [ intros _ | reflexivity ].
      split; [ lia | now apply Hd ].
    + split; [ discriminate | intros [H _]; lia ].
  - split; [ discriminate | ].
    intros [Hl H]. exfalso.
    assert (false = true); [ | discriminate ].
    apply Hd. split; [ | assumption ]. intros ->. discriminate.
Qed.

Lemma ascii_digit_decimal (c : char) :
  ascii_digit c = true -> unicode_decimal c = Some (digit_value c).
Proof.
  unfold ascii_digit, unicode_decimal, decimal_runs, digit_value, c0.
  intros Hc. cbn [decimal_in]. change (0x30 + 9) with 0x39.
  now rewrite Hc.
Qed.

Lemma Phone_validate_cases (s : pystr) :
  Phone.validate s = Ok tt
  \/ Phone.validate s
     = Raise (ValueError
                (lit "Wrong format! Phone number must be 10 digits long.")).
Proof. unfold Phone.validate. destruct (_ || _); auto. Qed.

Lemma Phone_init_ok (s : pystr) (p : Phone.t) :
  Phone.init s = Ok p <-> p = Phone.mk s /\ valid_phone s.
Proof.
  unfold Phone.init. rewrite <- Phone_validate_ok.
  destruct (Phone_validate_cases s) as [-> | ->]; simpl.
  - split; [ intros [= <-]; auto | intros [-> _]; reflexivity ].
  - split; [ discriminate | intros [_ H]; discriminate ].
Qed.

Lemma Phone_init_raise (s : pystr) (e : exn) :
  Phone.init s = Raise e <-> Phone.validate s = Raise e.
Proof.
  unfold Phone.init.
  destruct (Phone_validate_cases s) as [-> | ->]; simpl;
    split; congruence.
Qed.

(** Every failure of the parser is a [ValueError]. *)
Lemma int_raises (s : pystr) (e : exn) :
  int s = Raise e -> exists msg, e = ValueError msg.
Proof.
  unfold int.
  repeat match goal with
         | |- context [match ?x with _ => _ end] => destruct x; simpl
         end; intros [= <-]; eauto.
Qed.

Lemma strptime_raises (s : pystr) (e : exn) :
  strptime_dmY s = Raise e -> exists msg, e = ValueError msg.
Proof.
  unfold strptime_dmY.
  destruct (format_regex_match s) as [ [[[d m] Y] rest] | ];
    [ | intros [= <-]; eauto ].
  destruct (negb _); [ intros [= <-]; eauto | ].
  destruct (int Y) as [y | e1] eqn:E1; simpl;
    [ | intros [= <-]; eapply int_raises, E1 ].
  destruct (int m) as [mo | e2] eqn:E2; simpl;
    [ | intros [= <-]; eapply int_raises, E2 ].
  destruct (int d) as [da | e3] eqn:E3; simpl;
    [ | intros [= <-]; eapply int_raises, E3 ].
  destruct (date_new y mo da) as [dd | e4] eqn:E4; simpl;
    [ discriminate | intros [= <-]; eapply date_new_raises, E4 ].
Qed.

Lemma strptime_date_ok (s : pystr) (dt : datetime) :
  strptime_dmY s = Ok dt -> date_ok (datetime_date dt).
Proof.
  unfold strptime_dmY.
  destruct (format_regex_match s) as [ [[[d m] Y] rest] | ]; [ | discriminate ].
  destruct (negb _); [ discriminate | ].
  destruct (int Y) as [y | ]; simpl; [ | discriminate ].
  destruct (int m) as [mo | ]; simpl; [ | discriminate ].
  destruct (int d) as [da | ]; simpl; [ | discriminate ].
  destruct (date_new y mo da) as [dd | ] eqn:E; simpl; [ | discriminate ].
  intros [= <-]. simpl. now apply date_new_ok in E.
Qed.

(** [Birthday] succeeds exactly when the parse does, and otherwise raises
    its own message. *)
Lemma Birthday_init_cases (s : pystr) :
  (exists dt, strptime_dmY s = Ok dt
              /\ Birthday.init s = Ok (Birthday.mk s (datetime_date dt)))
  \/ ((exists e, strptime_dmY s = Raise e)
      /\ Birthday.init s
         = Raise (ValueError (lit "Invalid date format. Use DD.MM.YYYY"))).
Proof.
  unfold Birthday.init, Birthday.validate.
  destruct (strptime_dmY s) as [dt | e] eqn:E.
  - left. exists dt. auto.
  - right. split; [ eauto | ].
    destruct (strptime_raises _ _ E) as (msg & ->). reflexivity.
Qed.

Lemma Birthday_init_ok (s : pystr) (b : Birthday.t) :
  Birthday.init s = Ok b -> Birthday.value b = s /\ date_ok (Birthday.date b).
Proof.
  destruct (Birthday_init_cases s) as [ (dt & Hp & ->) | (_ & ->) ];
    [ | discriminate ].
  intros [= <-]. simpl. split; [ reflexivity | ].
  eapply strptime_date_ok, Hp.
Qed.

(** ** The methods of [Record] *)

Lemma valid_phone_init (p : Phone.t) :
  valid_phone (Phone.value p) -> Phone.init (Phone.value p) = Ok p.
Proof. intros H. apply Phone_init_ok. destruct p. auto. Qed.

Lemma edit_phone_loop_absent (ps : list Phone.t) (old new : pystr) :
  (forall p, In p ps -> Phone.value p <> old) ->
  forall n self,
    Record_.edit_phone_loop (imap (fun i p => (n + i, p)%nat) ps) old new self
    = (Raise (ValueError (lit "Phone number not found.")), self).
Proof.
  induction ps as [ | p ps IH ]; intros Hno n self; [ reflexivity | ].
  rewrite imap_cons. simpl.
  destruct (pystr_eqb_spec (Phone.value p) old) as [E | _].
  - exfalso. apply (Hno p); [ now left | assumption ].
  - rewrite (imap_ext _ (fun i p => (S n + i, p)%nat))
      by (intros; simpl; f_equal; lia).
    apply IH. intros q Hq. apply Hno. now right.
Qed.

Lemma edit_phone_loop_first (l1 l2 : list Phone.t) (p : Phone.t)
    (old new : pystr) :
  (forall q, In q l1 -> Phone.value q <> old) -> Phone.value p = old ->
  forall n self,
    Record_.edit_phone_loop
      (imap (fun i p => (n + i, p)%nat) (l1 ++ p :: l2)) old new self
    = bind (call (Phone.init new))
        (fun p' => modify (Record_.set_phones
                             (fun ps => <[(n + length l1)%nat := p']> ps)))
        self.
Proof.
  intros Hno Hp. induction l1 as [ | q l1 IH ]; intros n self.
  - simpl app. rewrite imap_cons. simpl.
    destruct (pystr_eqb_spec (Phone.value p) old) as [_ | E]; [ | contradiction ].
    now rewrite !Nat.add_0_r.
  - simpl app. rewrite imap_cons. simpl.
    destruct (pystr_eqb_spec (Phone.value q) old) as [E | _].
    + exfalso. apply (Hno q); [ now left | assumption ].
    + rewrite (imap_ext _ (fun i p => (S n + i, p)%nat))
        by (intros; simpl; f_equal; lia).
      rewrite IH by (intros q' Hq'; apply Hno; now right).
      now replace (S n + length l1)%nat with (n + S (length l1))%nat by lia.
Qed.

(** A list either holds no phone of the value, or splits at the first. *)
Lemma first_phone (ps : list Phone.t) (old : pystr) :
  (forall p, In p ps -> Phone.value p <> old)
  \/ exists l1 p l2,
       ps = l1 ++ p :: l2
       /\ (forall q, In q l1 -> Phone.value q <> old)
       /\ Phone.value p = old.
Proof.
  induction ps as [ | p ps IH ]; [ left; intros p [] | ].
  destruct (pystr_eqb_spec (Phone.value p) old) as [E | E].
  - right. exists [], p, ps. split; [ reflexivity | ]. split; [ intros q [] | assumption ].
  - destruct IH as [Hno | (l1 & p' & l2 & -> & Hno & Hp)].
    + left. intros q [<- | Hq]; auto.
    + right. exists (p :: l1), p', l2. split; [ reflexivity | ].
      split; [ | assumption ]. intros q [<- | Hq]; auto.
Qed.

Lemma insert_middle {A} (l1 l2 : list A) (x y : A) :
  <[length l1 := y]> (l1 ++ x :: l2) = l1 ++ y :: l2.
Proof. induction l1 as [ | a l1 IH ]; simpl; [ reflexivity | now rewrite IH ]. Qed.

Section MethodFacts.
Variable self : Record_.t.
Hypothesis self_ok : record_ok self.

Lemma add_phone_ok (phone : pystr) res self' :
  Record_.add_phone phone self = (res, self') ->
  record_ok self' /\ Record_.name self' = Record_.name self.
Proof.
  unfold Record_.add_phone, bind, call, modify.
  destruct (Phone.init phone) as [p | e] eqn:E; intros [= <- <-];
    [ | auto ].
  split; [ | reflexivity ]. destruct self_ok as [Hb Hp].
  split; [ exact Hb | ]. simpl. intros q Hq.
  apply in_app_or in Hq as [Hq | [<- | []]]; [ auto | ].
  apply Phone_init_ok in E as (-> & Hv). simpl. split; [ assumption | ].
  now apply (valid_phone_init (Phone.mk phone)).
Qed.

Lemma remove_phone_ok (removed_phone : pystr) res self' :
  Record_.remove_phone removed_phone self = (res, self') ->
  record_ok self' /\ Record_.name self' = Record_.name self.
Proof.
  unfold Record_.remove_phone, modify. intros [= <- <-].
  split; [ | reflexivity ]. destruct self_ok as [Hb Hp].
  split; [ exact Hb | ]. simpl. intros q Hq.
  apply list_elem_of_In, list_elem_of_filter in Hq as [_ Hq].
  apply Hp. now apply list_elem_of_In.
Qed.

Lemma edit_phone_ok (old_phone new_phone : pystr) res self' :
  Record_.edit_phone old_phone new_phone self = (res, self') ->
  record_ok self' /\ Record_.name self' = Record_.name self.
Proof.
  unfold Record_.edit_phone, bind, gets.
  destruct (first_phone (Record_.phones self) old_phone)
    as [Hno | (l1 & p & l2 & Hps & Hno & Hp)].
  - rewrite (edit_phone_loop_absent _ _ _ Hno 0%nat). intros [= <- <-]. auto.
  - rewrite Hps, (edit_phone_loop_first _ _ _ _ _ Hno Hp 0%nat).
    unfold bind, call, modify.
    destruct (Phone.init new_phone) as [p' | e] eqn:E; intros [= <- <-];
      [ | auto ].
    split; [ | reflexivity ]. destruct self_ok as [Hb Hph].
    split; [ exact Hb | ]. simpl. rewrite Hps, insert_middle.
    intros q Hq. apply in_app_or in Hq as [Hq | [<- | Hq]].
    + apply Hph. rewrite Hps. apply in_or_app. now left.
    + apply Phone_init_ok in E as (-> & Hv). simpl. split; [ assumption | ].
      now apply (valid_phone_init (Phone.mk new_phone)).
    + apply Hph. rewrite Hps. apply in_or_app. right. now right.
Qed.

Lemma add_birthday_ok (date : pystr) res self' :
  Record_.add_birthday date self = (res, self') ->
  record_ok self' /\ Record_.name self' = Record_.name self.
Proof.
  unfold Record_.add_birthday, bind, call, modify.
  destruct (Birthday.init date) as [b | e] eqn:E; intros [= <- <-];
    [ | auto ].
  split; [ | reflexivity ]. destruct self_ok as [Hb Hp].
  split; [ | exact Hp ]. simpl. intros b' [= <-].
  now apply Birthday_init_ok in E.
Qed.

End MethodFacts.

(** ** The runs *)

Lemma inv_init : inv init_state.
Proof.
  split; [ constructor | ]. split; [ intros k r [] | ].
  intros r self H. destruct r; discriminate.
Qed.

Lemma on_record_inv {A} (r : ref) (m : M Record_.t A) st res st' :
  (forall self res self', record_ok self -> m self = (res, self') ->
     record_ok self' /\ Record_.name self' = Record_.name self) ->
  inv st -> on_record r m st = Some (res, st') -> inv st'.
Proof.
  intros Hm (Hd & Hrefs & Hrec). unfold on_record.
  destruct (heap st !! r) as [self | ] eqn:Hr; [ | discriminate ].
  destruct (m self) as [res' self'] eqn:Em. intros [= <- <-].
  destruct (Hm _ _ _ (Hrec _ _ Hr) Em) as [Hok Hname].
  pose proof (lookup_lt_Some _ _ _ Hr) as Hlt.
  split; [ exact Hd | ]. simpl. split.
  - intros k r0 Hin. destruct (Hrefs _ _ Hin) as (self0 & Hs0 & Hn0).
    destruct (decide (r = r0)) as [<- | Hne].
    + exists self'. rewrite list_lookup_insert_eq by assumption.
      split; [ reflexivity | ]. rewrite Hname. congruence.
    + exists self0. now rewrite list_lookup_insert_ne.
  - intros r0 self0 H0. apply list_lookup_insert_Some in H0
      as [(_ & <- & _) | (_ & H0)]; [ assumption | eauto ].
Qed.

Lemma add_record_inv (r : ref) st res st' :
  inv st -> AddressBook.add_record r st = Some (res, st') -> inv st'.
Proof.
  intros (Hd & Hrefs & Hrec). unfold AddressBook.add_record.
  destruct (heap st !! r) as [self | ] eqn:Hr; [ | discriminate ].
  intros [= <- <-]. split; [ now apply dict_ok_set | ]. simpl.
  split; [ | exact Hrec ].
  intros k r0 Hin. apply In_dict_set in Hin as [ [= -> ->] | Hin ]; eauto.
Qed.

Lemma delete_inv (name : pystr) st res st' :
  inv st -> AddressBook.delete name st = (res, st') -> inv st'.
Proof.
  intros (Hd & Hrefs & Hrec). unfold AddressBook.delete.
  destruct (negb _); intros [= <- <-]; [ split; [ | split ]; assumption | ].
  split; [ now apply dict_ok_del | ]. simpl. split; [ | exact Hrec ].
  intros k r0 Hin. apply In_dict_del in Hin. eauto.
Qed.

Lemma exec_inv (o : op) st res st' :
  inv st -> exec o st = Some (res, st') -> inv st'.
Proof.
  intros Hinv. destruct o; simpl.
  - intros [= <- <-]. destruct Hinv as (Hd & Hrefs & Hrec).
    split; [ exact Hd | ]. simpl. split.
    + intros k r Hin. destruct (Hrefs _ _ Hin) as (self & Hs & Hn).
      exists self. split; [ | assumption ].
      rewrite lookup_app_l; [ assumption | eapply lookup_lt_Some, Hs ].
    + intros r self H. apply lookup_snoc_Some in H as [ [_ H] | [_ <-] ];
        [ eauto | ].
      split; [ discriminate | intros p [] ].
  - apply on_record_inv; [ | assumption ]. intros. eapply add_phone_ok; eauto.
  - apply on_record_inv; [ | assumption ]. intros. eapply remove_phone_ok; eauto.
  - apply on_record_inv; [ | assumption ]. intros. eapply edit_phone_ok; eauto.
  - apply on_record_inv; [ | assumption ]. intros. eapply add_birthday_ok; eauto.
  - now apply add_record_inv.
  - intros [= H]. eapply delete_inv; eauto.
Qed.

Lemma run_inv (os : list op) : forall st st', inv st -> run os st = Some st' -> inv st'.
Proof.
  induction os as [ | o os IH ]; simpl; intros st st' Hinv.
  - now intros [= <-].
  - destruct (exec o st) as [ [res st1] | ] eqn:E; [ | discriminate ].
    apply IH. eapply exec_inv; eauto.
Qed.

Lemma inv_wf (st : State) : inv st -> wf_state st /\ phones_valid st.
Proof.
  intros (Hd & Hrefs & Hrec). split.
  - split; [ exact Hd | ]. split; [ exact Hrefs | ].
    intros self b Hin Hb.
    apply list_elem_of_In, list_elem_of_lookup in Hin as (r & Hr).
    now apply (Hrec _ _ Hr).
  - intros self p Hin Hp.
    apply list_elem_of_In, list_elem_of_lookup in Hin as (r & Hr).
    now apply (Hrec _ _ Hr).
Qed.

(** Every state a program reaches is well formed. *)
Lemma run_wf (os : list op) (st : State) :
  run os init_state = Some st -> wf_state st /\ phones_valid st.
Proof. intros H. eapply inv_wf, run_inv; [ apply inv_init | exact H ]. Qed.

Lemma sample_state_run : run sample_ops init_state = Some sample_state.
Proof. vm_compute. reflexivity. Qed.

Lemma leap_state_run : run leap_ops init_state = Some leap_state.
Proof. vm_compute. reflexivity. Qed.

Lemma sample_state_wf : wf_state sample_state.
Proof. apply (run_wf sample_ops), sample_state_run. Qed.

Lemma leap_state_wf : wf_state leap_state.
Proof. apply (run_wf leap_ops), leap_state_run. Qed.

Lemma friday_morning_wf : wf_world friday_morning.
Proof. unfold wf_world, date_ok. vm_compute. intuition discriminate. Qed.

Lemma saturday_morning_wf : wf_world saturday_morning.
Proof. unfold wf_world, date_ok. vm_compute. intuition discriminate. Qed.

Lemma march_2023_wf : wf_world march_2023.
Proof. unfold wf_world, date_ok. vm_compute. intuition discriminate. Qed.

(** * The claims *)




(** C2.  When the query returns a list, a record whose next birthday is in
    the window has one entry in it, and the date of that entry is the next
    birthday moved forward by two days when it is a Saturday, by one day
    when it is a Sunday, both landing on a Monday, and the next birthday
    itself on a weekday.  The move is never backward and never more than
    two days; it is made on the date that passed the window test, and the
    moved date is not tested again. *)
Theorem congratulation_date_shift (w : World) (st : State) (out : list entry)
    (name : pystr) (r : ref) (self : Record_.t) (b : Birthday.t) (nb : date) :
  wf_world w -> wf_state st ->
  AddressBook.get_upcoming_birthdays w st = Some (Ok out) ->
  AddressBook.find name st = Some r -> heap st !! r = Some self ->
  Record_.birthday self = Some b ->
  AddressBook.next_birthday (datetime_date (datetime_today w)) (Birthday.date b)
  = Ok nb ->
  in_window (datetime_date (datetime_today w)) nb ->
  exists cd : date,
    In (mkentry (Name.value (Record_.name self)) (strftime_dmY cd)) out
    /\ (forall e, In e out -> e_name e = Name.value (Record_.name self) ->
          e = mkentry (Name.value (Record_.name self)) (strftime_dmY cd))
    /\ date_ok cd
    /\ toordinal cd = toordinal nb + weekend_shift (weekday nb)
    /\ 0 <= weekend_shift (weekday nb) <= 2
    /\ (weekday nb < 5 -> cd = nb)
    /\ (weekday nb = 5 -> add_days nb 2 = Ok cd /\ weekday cd = 0)
    /\ (weekday nb = 6 -> add_days nb 1 = Ok cd /\ weekday cd = 0).
Proof.
  intros Hw Hwf Hq Hf Hs Hb Hn Hwin.
  destruct (query_adds _ _ _ _ _ _ Hwf Hq Hf Hs) as (l & Hadds & Hin & Hout).
  assert (Hbok : date_ok (Birthday.date b)).
  { destruct Hwf as (_ & _ & Hbd). eapply Hbd; [ | exact Hb ].
    apply list_elem_of_In, list_elem_of_lookup. now exists r. }
  destruct (next_birthday_spec _ _ _ Hw Hbok Hn) as (_ & Hnb & _).
  destruct (adjust_for_weekend_spec nb Hnb)
    as (cd & Ha & Hcd & Hord & Hweek & Hend).
  assert (l = [mkentry (Name.value (Record_.name self)) (strftime_dmY cd)])
    as ->.
  { eapply adds_fun; [ exact Hadds | ]. eapply adds_inside; eauto. }
  exists cd. split; [ apply Hin; now left | ].
  split; [ intros e He Hname; destruct (Hout e He Hname) as [<- | []];
           reflexivity | ].
  split; [ assumption | ]. split; [ assumption | ].
  split; [ apply weekend_shift_range | ]. split; [ assumption | ].
  split; intros E; destruct Hend as [Hmon Hadd]; try lia;
    rewrite E in Hadd; auto.
Qed.

Lemma congratulation_date_shift_witness :
  exists cd : date,
    In (mkentry (lit "Ann") (strftime_dmY cd))
       [mkentry (lit "Ann") (lit "13.05.2024")]
    /\ toordinal cd = toordinal (mkdate 2024 5 12) + 1
    /\ weekday cd = 0.
Proof.
  destruct (congratulation_date_shift friday_morning sample_state
              [mkentry (lit "Ann") (lit "13.05.2024")]
              (lit "Ann") 0%nat ann
              (Birthday.mk (lit "12.05.1990") (mkdate 1990 5 12))
              (mkdate 2024 5 12)
              friday_morning_wf sample_state_wf)
    as (cd & Hin & _ & _ & Hord & _ & _ & _ & Hsun).
  - vm_compute. reflexivity.
  - vm_compute. reflexivity.
  - reflexivity.
  - reflexivity.
  - vm_compute. reflexivity.
  - unfold in_window. vm_compute. split; discriminate.
  - exists cd. split; [ exact Hin | ]. split; [ exact Hord | ].
    apply Hsun. vm_compute. reflexivity.
Defined.

(** The moved date may lie outside the window: on Saturday 11 May 2024 a
    birthday on Saturday 18 May is seven days ahead, and its entry carries
    Monday 20 May, nine days ahead. *)
Example shift_leaves_window :
  AddressBook.get_upcoming_birthdays saturday_morning sample_state
  = Some (Ok [mkentry (lit "Ann") (lit "13.05.2024");
              mkentry (lit "Bob") (lit "20.05.2024")])
  /\ sub_days (mkdate 2024 5 18) (mkdate 2024 5 11) = 7
  /\ sub_days (mkdate 2024 5 20) (mkdate 2024 5 11) = 9.
Proof. vm_compute. auto. Qed.

(** The scenario of the specification: on Friday 10 May 2024 Ann, born on
    12 May, is congratulated on Monday 13 May. *)
Example scenario_ann :
  AddressBook.get_upcoming_birthdays friday_morning sample_state
  = Some (Ok [mkentry (lit "Ann") (lit "13.05.2024")])
  /\ weekday (mkdate 2024 5 10) = 4 /\ weekday (mkdate 2024 5 12) = 6.
Proof. vm_compute. auto. Qed.

(** C9.  A book that holds a record born on 29 February makes the query
    raise whenever the year in which the next birthday would fall is not a
    leap year. *)
Theorem feb29_raises (w : World) (st : State)
    (name : pystr) (r : ref) (self : Record_.t) (b : Birthday.t) :
  wf_world w -> wf_state st ->
  AddressBook.find name st = Some r -> heap st !! r = Some self ->
  Record_.birthday self = Some b ->
  month (Birthday.date b) = 2 -> day (Birthday.date b) = 29 ->
  _is_leap (year (spec_next_birthday (datetime_date (datetime_today w))
                    (Birthday.date b))) = false ->
  exists e, AddressBook.get_upcoming_birthdays w st = Some (Raise e).
Proof.
  intros Hw Hwf Hf Hs Hb Hm Hd Hleap.
  unfold AddressBook.get_upcoming_birthdays.
  destruct (values_total st Hwf) as (records & Hv). rewrite Hv.
  pose proof (values_found st Hwf _ _ _ _ Hv Hf Hs) as Hin.
  unfold wf_world in Hw.
  remember (datetime_date (datetime_today w)) as today eqn:Et.
  destruct (upcoming_loop_raises today records self Hin) with (acc := @nil entry)
    as (e & He); [ | exists e; now rewrite He ].
  intros acc. unfold AddressBook.loop_body. rewrite Hb.
  destruct (AddressBook.next_birthday today (Birthday.date b)) as [nb | e] eqn:En;
    simpl; [ exfalso | now exists e ].
  assert (Hbok : date_ok (Birthday.date b)).
  { destruct Hwf as (_ & _ & Hbd). eapply Hbd; [ | exact Hb ].
    apply list_elem_of_In, list_elem_of_lookup. now exists r. }
  destruct (next_birthday_spec _ _ _ Hw Hbok En) as (E & Hnb & _).
  rewrite <- E in Hleap.
  assert (month nb = 2 /\ day nb = 29) as [Hm' Hd'].
  { rewrite E. unfold spec_next_birthday. destruct (_ <? _); simpl; auto. }
  destruct Hnb as (_ & _ & Hday). unfold _days_in_month in Hday.
  rewrite Hm', Hd', Hleap in Hday. simpl in Hday.
  unfold index in Hday. simpl in Hday. lia.
Qed.

Lemma feb29_raises_witness :
  exists e, AddressBook.get_upcoming_birthdays march_2023 leap_state
            = Some (Raise e).
Proof.
  apply (feb29_raises march_2023 leap_state (lit "Leo") 0%nat leo
           (Birthday.mk (lit "29.02.2000") (mkdate 2000 2 29))
           march_2023_wf leap_state_wf);
    vm_compute; reflexivity.
Defined.

(** In a leap year the same book raises once 29 February has passed, and
    returns a list before. *)
Example feb29_in_leap_year :
  (exists e,
     AddressBook.get_upcoming_birthdays
       (mkWorld (mkdatetime (mkdate 2024 3 1) 0 0 0 0)) leap_state
     = Some (Raise e))
  /\ AddressBook.get_upcoming_birthdays
       (mkWorld (mkdatetime (mkdate 2024 2 25) 0 0 0 0)) leap_state
     = Some (Ok [mkentry (lit "Leo") (lit "29.02.2024")]).
Proof. split; [ eexists | ]; vm_compute; reflexivity. Qed.

(** C3, as the code has it.  The query has no date parameter: it reads the
    clock, and its result is a function of the book and of the calendar
    date the clock shows.  Two calls on the same state at clock readings of
    the same date return the same result. *)
Theorem query_depends_on_clock_date (w1 w2 : World) (st : State) :
  datetime_date (datetime_today w1) = datetime_date (datetime_today w2) ->
  AddressBook.get_upcoming_birthdays w1 st
  = AddressBook.get_upcoming_birthdays w2 st.
Proof.
  intros E. unfold AddressBook.get_upcoming_birthdays. now rewrite E.
Qed.

Lemma query_depends_on_clock_date_witness :
  AddressBook.get_upcoming_birthdays friday_morning sample_state
  = AddressBook.get_upcoming_birthdays friday_evening sample_state.
Proof.
  apply (query_depends_on_clock_date friday_morning friday_evening sample_state).
  reflexivity.
Defined.

(** C3 fails as stated: the same book queried at two clock readings gives
    two results, so the result depends on the wall clock. *)
Lemma query_reads_wall_clock :
  AddressBook.get_upcoming_birthdays friday_morning sample_state
  <> AddressBook.get_upcoming_birthdays june_2024 sample_state.
Proof. vm_compute. discriminate. Qed.

(** C4.  [edit_phone] on a record without the old phone raises "Phone
    number not found." and leaves the record as it was; with the old phone
    present and a new phone that fails validation it raises and leaves the
    record as it was; with the old phone present and a valid new phone it
    replaces the first phone equal to the old one, in place, and the list
    keeps its length. *)
Theorem edit_phone_spec (self : Record_.t) (old_phone new_phone : pystr) :
  ((forall p, In p (Record_.phones self) -> Phone.value p <> old_phone) ->
   Record_.edit_phone old_phone new_phone self
   = (Raise (ValueError (lit "Phone number not found.")), self))
  /\ (forall l1 p l2,
        Record_.phones self = l1 ++ p :: l2 ->
        (forall q, In q l1 -> Phone.value q <> old_phone) ->
        Phone.value p = old_phone ->
        (forall e, Phone.validate new_phone = Raise e ->
           Record_.edit_phone old_phone new_phone self = (Raise e, self))
        /\ (Phone.validate new_phone = Ok tt ->
            Record_.edit_phone old_phone new_phone self
            = (Ok tt,
               Record_.mk (Record_.name self)
                          (l1 ++ Phone.mk new_phone :: l2)
                          (Record_.birthday self))
            /\ length (l1 ++ Phone.mk new_phone :: l2)
               = length (Record_.phones self))).
Proof.
  split.
  - intros Hno. unfold Record_.edit_phone, bind, gets.
    apply (edit_phone_loop_absent _ _ _ Hno 0%nat).
  - intros l1 p l2 Hps Hno Hp.
    assert (Hrun : Record_.edit_phone old_phone new_phone self
                   = bind (call (Phone.init new_phone))
                       (fun p' => modify (Record_.set_phones
                                            (fun ps => <[length l1 := p']> ps)))
                       self).
    { unfold Record_.edit_phone at 1, bind at 1, gets. rewrite Hps.
      apply (edit_phone_loop_first _ _ _ _ _ Hno Hp 0%nat). }
    rewrite Hrun. unfold bind, call, modify, Phone.init. split.
    + intros e He. rewrite He. reflexivity.
    + intros Hv. rewrite Hv. simpl. unfold Record_.set_phones.
      rewrite Hps, insert_middle. split; [ reflexivity | ].
      rewrite !length_app. reflexivity.
Qed.

Lemma edit_phone_spec_witness :
  Record_.edit_phone (lit "1234567890") (lit "0987654321") ann
  = (Ok tt,
     Record_.mk (Record_.name ann) ([] ++ Phone.mk (lit "0987654321") :: [])
                (Record_.birthday ann))
  /\ Record_.edit_phone (lit "1234567890") (lit "12345") ann
     = (Raise (ValueError
                 (lit "Wrong format! Phone number must be 10 digits long.")),
        ann)
  /\ Record_.edit_phone (lit "5555555555") (lit "0987654321") ann
     = (Raise (ValueError (lit "Phone number not found.")), ann).
Proof.
  split; [ | split ].
  - apply (proj2 (edit_phone_spec ann (lit "1234567890") (lit "0987654321"))
             [] (Phone.mk (lit "1234567890")) []).
    + reflexivity.
    + intros q [].
    + reflexivity.
    + reflexivity.
  - apply (proj2 (edit_phone_spec ann (lit "1234567890") (lit "12345"))
             [] (Phone.mk (lit "1234567890")) []).
    + reflexivity.
    + intros q [].
    + reflexivity.
    + reflexivity.
  - apply (proj1 (edit_phone_spec ann (lit "5555555555") (lit "0987654321"))).
    intros p [<- | []]. vm_compute. discriminate.
Defined.

(** C5, as the code has it.  [Phone] accepts exactly the strings of ten
    characters that [str.isdigit] takes for digits, and the value it
    builds renders as the string given; these include every string of ten
    ASCII digits, and also digits such as superscripts.  Every other string
    raises the error with the message of the source. *)
Theorem phone_construction (s : pystr) :
  (valid_phone s ->
   Phone.init s = Ok (Phone.mk s) /\ Phone.str (Phone.mk s) = s)
  /\ (~ valid_phone s ->
      Phone.init s
      = Raise (ValueError
                 (lit "Wrong format! Phone number must be 10 digits long.")))
  /\ (ten_ascii_digits s -> valid_phone s).
Proof.
  split; [ | split ].
  - intros Hv. split; [ | reflexivity ]. now apply Phone_init_ok.
  - intros Hn. unfold Phone.init.
    destruct (Phone_validate_cases s) as [E | ->]; [ | reflexivity ].
    apply Phone_validate_ok in E. contradiction.
  - intros [Hl Hd]. split; [ assumption | ].
    eapply Forall_impl; [ exact Hd | ]. intros c Hc.
    unfold isdigit_char, isdecimal_char.
    now rewrite (ascii_digit_decimal c Hc).
Qed.

Lemma phone_construction_witness :
  Phone.init (lit "1234567890") = Ok (Phone.mk (lit "1234567890"))
  /\ Phone.str (Phone.mk (lit "1234567890")) = lit "1234567890".
Proof.
  apply (proj1 (phone_construction (lit "1234567890"))).
  apply (proj2 (proj2 (phone_construction (lit "1234567890")))).
  split; [ reflexivity | ].
  repeat constructor.
Defined.

(** C5 fails as stated: ten superscript twos are not ten decimal digits,
    in any reading, and [Phone] accepts them. *)
Lemma phone_accepts_superscripts :
  ~ ten_decimal_digits superscript_twos
  /\ ~ ten_ascii_digits superscript_twos
  /\ Phone.init superscript_twos = Ok (Phone.mk superscript_twos).
Proof.
  split; [ | split ].
  - intros [_ H]. inversion H as [ | c l Hc _ ]. vm_compute in Hc. discriminate.
  - intros [_ H]. inversion H as [ | c l Hc _ ]. vm_compute in Hc. discriminate.
  - vm_compute. reflexivity.
Qed.

(** The scenario of the specification: five digits are refused. *)
Example scenario_short_phone :
  Record_.add_phone (lit "12345") (Record_.init (lit "Ann"))
  = (Raise (ValueError
              (lit "Wrong format! Phone number must be 10 digits long.")),
     Record_.init (lit "Ann"))
  /\ Record_.add_phone (lit "1234567890") (Record_.init (lit "Ann"))
     = (Ok tt,
        Record_.mk (Name.mk (lit "Ann")) [Phone.mk (lit "1234567890")] None).
Proof. vm_compute. auto. Qed.

(** C7.  [delete] of a name that is not in the book raises "Name not
    found" and leaves the state as it was; of a name that is in the book it
    removes that entry and no other, and [find] of the name then returns
    [None]. *)
Theorem delete_spec (st : State) (name : pystr) :
  dict_ok (data st) ->
  (AddressBook.find name st = None ->
   AddressBook.delete name st = (Raise (KeyError (lit "Name not found")), st))
  /\ (forall r, AddressBook.find name st = Some r ->
        exists st',
          AddressBook.delete name st = (Ok tt, st')
          /\ heap st' = heap st
          /\ AddressBook.find name st' = None
          /\ (forall k, k <> name ->
                AddressBook.find k st' = AddressBook.find k st)
          /\ exists d1 d2, data st = d1 ++ (name, r) :: d2
                           /\ data st' = d1 ++ d2).
Proof.
  intros Hd. unfold AddressBook.find, AddressBook.delete, dict_contains. split.
  - intros ->. reflexivity.
  - intros r Hr. rewrite Hr. simpl. eexists. split; [ reflexivity | ].
    simpl. split; [ reflexivity | ].
    split; [ now apply dict_get_del_eq | ].
    split; [ intros k Hk; now apply dict_get_del_ne | ].
    now apply dict_del_split.
Qed.

Lemma delete_spec_witness :
  AddressBook.delete (lit "Unknown") init_state
  = (Raise (KeyError (lit "Name not found")), init_state)
  /\ exists st',
       AddressBook.delete (lit "Ann") sample_state = (Ok tt, st')
       /\ AddressBook.find (lit "Ann") st' = None.
Proof.
  split.
  - apply (proj1 (delete_spec init_state (lit "Unknown") (List.NoDup_nil _))).
    reflexivity.
  - destruct (proj2 (delete_spec sample_state (lit "Ann")
                       (proj1 sample_state_wf)) 0%nat eq_refl)
      as (st' & Hdel & _ & Hfind & _).
    exists st'. split; assumption.
Defined.

(** The names of the records of a well-formed book are its keys. *)
Lemma values_names (st : State) (records : list Record_.t) :
  wf_state st -> AddressBook.values st = Some records ->
  map (fun self => Name.value (Record_.name self)) records = dict_keys (data st).
Proof.
  intros (_ & Hrefs & _) Hv. apply values_Forall2 in Hv.
  unfold dict_keys. induction Hv as [ | [k r] self d records Hs Hrest IH ];
    [ reflexivity | ].
  simpl in *. destruct (Hrefs k r (or_introl eq_refl)) as (self' & Hs' & <-).
  assert (self' = self) as -> by congruence.
  f_equal. apply IH. intros k' r' Hin. apply Hrefs. now right.
Qed.

(** C8.  In every state a program reaches the book holds at most one
    record per name, and [add_record] of any object succeeds: afterwards
    the name of the object leads to that very object, whatever the name led
    to before; the other names lead where they led, and no object is
    changed. *)
Theorem add_record_spec (os : list op) (st : State) :
  run os init_state = Some st ->
  (exists records,
     AddressBook.values st = Some records
     /\ List.NoDup (map (fun self => Name.value (Record_.name self)) records))
  /\ (forall r self, heap st !! r = Some self ->
        exists st',
          AddressBook.add_record r st = Some (Ok tt, st')
          /\ heap st' = heap st
          /\ AddressBook.find (Name.value (Record_.name self)) st' = Some r
          /\ (forall k, k <> Name.value (Record_.name self) ->
                AddressBook.find k st' = AddressBook.find k st)
          /\ dict_keys (data st')
             = (if dict_contains (Name.value (Record_.name self)) (data st)
                then dict_keys (data st)
                else dict_keys (data st) ++ [Name.value (Record_.name self)])).
Proof.
  intros Hrun. destruct (run_wf os st Hrun) as [Hwf _]. split.
  - destruct (values_total st Hwf) as (records & Hv). exists records.
    split; [ assumption | ]. rewrite (values_names st records Hwf Hv).
    apply Hwf.
  - intros r self Hs. unfold AddressBook.add_record, AddressBook.find.
    rewrite Hs. eexists. split; [ reflexivity | ]. simpl.
    split; [ reflexivity | ]. split; [ apply dict_get_set_eq | ].
    split; [ intros k Hk; now apply dict_get_set_ne | ].
    apply dict_keys_set.
Qed.

Lemma add_record_spec_witness :
  exists st',
    AddressBook.add_record 1%nat sample_state = Some (Ok tt, st')
    /\ AddressBook.find (lit "Bob") st' = Some 1%nat.
Proof.
  destruct (proj2 (add_record_spec sample_ops sample_state sample_state_run)
              1%nat bob eq_refl) as (st' & Hadd & _ & Hfind & _).
  exists st'. split; assumption.
Defined.

(** Last write wins: a second object of the name Ann takes the place of
    the first, which keeps its phone for itself. *)
Example overwrite_no_merge :
  run (sample_ops ++ [NewRecord (lit "Ann"); AddRecord 2%nat]) init_state
  = Some (mkState [ann; bob; Record_.init (lit "Ann")]
                  [(lit "Ann", 2%nat); (lit "Bob", 1%nat)]).
Proof. vm_compute. reflexivity. Qed.

(** C10.  In every state a program reaches, every phone of every record of
    the book is a string of ten digit characters, which the validation
    accepts. *)
Theorem stored_phones_valid (os : list op) (st : State)
    (name : pystr) (r : ref) (self : Record_.t) (p : Phone.t) :
  run os init_state = Some st ->
  AddressBook.find name st = Some r -> heap st !! r = Some self ->
  In p (Record_.phones self) ->
  valid_phone (Phone.value p)
  /\ Phone.validate (Phone.value p) = Ok tt
  /\ Phone.init (Phone.value p) = Ok p.
Proof.
  intros Hrun _ Hs Hp. destruct (run_wf os st Hrun) as [_ Hph].
  destruct (Hph self p) as [Hv Hi]; [ | assumption | ].
  - apply list_elem_of_In, list_elem_of_lookup. now exists r.
  - split; [ assumption | ]. split; [ now apply Phone_validate_ok | assumption ].
Qed.

Lemma stored_phones_valid_witness :
  valid_phone (lit "1234567890")
  /\ Phone.validate (lit "1234567890") = Ok tt
  /\ Phone.init (lit "1234567890") = Ok (Phone.mk (lit "1234567890")).
Proof.
  apply (stored_phones_valid sample_ops sample_state (lit "Ann") 0%nat ann
           (Phone.mk (lit "1234567890")) sample_state_run).
  - reflexivity.
  - reflexivity.
  - now left.
Defined.

(** The three methods that touch the phones, one by one: [add_phone] and
    [edit_phone] store only what [Phone] constructs, [remove_phone] stores
    nothing. *)
Lemma phone_methods_store_valid (self : Record_.t) (res : result unit)
    (self' : Record_.t) (p : Phone.t) :
  In p (Record_.phones self') ->
  (forall phone, Record_.add_phone phone self = (res, self') ->
     In p (Record_.phones self) \/ Phone.init (Phone.value p) = Ok p)
  /\ (forall old_phone new_phone,
        Record_.edit_phone old_phone new_phone self = (res, self') ->
        In p (Record_.phones self) \/ Phone.init (Phone.value p) = Ok p)
  /\ (forall removed_phone,
        Record_.remove_phone removed_phone self = (res, self') ->
        In p (Record_.phones self)).
Proof.
  intros Hp. split; [ | split ].
  - intros phone. unfold Record_.add_phone, bind, call, modify.
    destruct (Phone.init phone) as [q | e] eqn:E; intros [= <- <-]; [ | now left ].
    simpl in Hp. apply in_app_or in Hp as [Hp | [<- | []]]; [ now left | right ].
    apply Phone_init_ok in E as (-> & Hv). now apply (valid_phone_init (Phone.mk phone)).
  - intros old_phone new_phone. unfold Record_.edit_phone, bind, gets.
    destruct (first_phone (Record_.phones self) old_phone)
      as [Hno | (l1 & q & l2 & Hps & Hno & Hq)].
    + rewrite (edit_phone_loop_absent _ _ _ Hno 0%nat). intros [= <- <-]. now left.
    + intros Hrun. rewrite Hps in Hrun at 1.
      rewrite (edit_phone_loop_first _ _ _ _ _ Hno Hq 0%nat) in Hrun.
      unfold bind, call, modify in Hrun.
      destruct (Phone.init new_phone) as [p' | e] eqn:E;
        injection Hrun as <- <-; [ | now left ].
      simpl in Hp. rewrite Hps, insert_middle in Hp.
      apply in_app_or in Hp as [Hp | [<- | Hp]].
      * left. rewrite Hps. apply in_or_app. now left.
      * right. apply Phone_init_ok in E as (-> & Hv).
        now apply (valid_phone_init (Phone.mk new_phone)).
      * left. rewrite Hps. apply in_or_app. right. now right.
  - intros removed_phone. unfold Record_.remove_phone, modify.
    intros [= <- <-]. simpl in Hp.
    apply list_elem_of_In, list_elem_of_filter in Hp as [_ Hp].
    now apply list_elem_of_In.
Qed.

(** ** The regular expression of the date format *)

Lemma re_match_sound (r : regex) :
  forall (A : Type) (s : pystr) (k : pystr -> option A) (x : A),
    re_match r s k = Some x ->
    exists w rest, s = w ++ rest /\ lang r w /\ k rest = Some x.
Proof.
  induction r as [ c | lo hi | | r1 IH1 r2 IH2 | r1 IH1 r2 IH2 ];
    intros A s k x; simpl.
  - destruct s as [ | c' s ]; [ discriminate | ].
    destruct (Z.eqb_spec c' c) as [-> | _]; [ | discriminate ].
    intros H. now exists [c], s.
  - destruct s as [ | c' s ]; [ discriminate | ].
    destruct (Z.leb_spec lo c'), (Z.leb_spec c' hi); simpl; try discriminate.
    intros Hk. exists [c'], s. split; [ reflexivity | ].
    split; [ exists c'; auto | assumption ].
  - destruct s as [ | c' s ]; [ discriminate | ].
    destruct (isdecimal_char c') eqn:E; [ | discriminate ].
    intros H. exists [c'], s. split; [ reflexivity | ].
    split; [ exists c'; auto | assumption ].
  - intros H. apply IH1 in H as (w1 & rest1 & -> & H1 & H').
    apply IH2 in H' as (w2 & rest & -> & H2 & H'').
    exists (w1 ++ w2), rest. split; [ now rewrite app_assoc | ].
    split; [ now exists w1, w2 | assumption ].
  - destruct (re_match r1 s k) as [a | ] eqn:E.
    + intros [= ->]. apply IH1 in E as (w & rest & -> & H1 & H').
      exists w, rest. auto.
    + intros H. apply IH2 in H as (w & rest & -> & H2 & H').
      exists w, rest. auto.
Qed.

Lemma re_match_complete (r : regex) :
  forall (w : pystr), lang r w ->
  forall (A : Type) (rest : pystr) (k : pystr -> option A),
    is_Some (k rest) -> is_Some (re_match r (w ++ rest) k).
Proof.
  induction r as [ c | lo hi | | r1 IH1 r2 IH2 | r1 IH1 r2 IH2 ];
    intros w Hw A rest k Hk; simpl in *.
  - subst w. simpl. now rewrite Z.eqb_refl.
  - destruct Hw as (c & -> & Hlo & Hhi). simpl.
    destruct (Z.leb_spec lo c), (Z.leb_spec c hi); simpl; try lia. assumption.
  - destruct Hw as (c & -> & Hc). simpl. now rewrite Hc.
  - destruct Hw as (w1 & w2 & -> & H1 & H2). rewrite <- app_assoc.
    apply IH1; [ assumption | ]. now apply IH2.
  - destruct (re_match r1 (w ++ rest) k) as [a | ] eqn:E; [ now exists a | ].
    destruct Hw as [H1 | H2]; [ | now apply IH2 ].
    pose proof (IH1 w H1 A rest k Hk) as [a Ha]. congruence.
Qed.

Lemma take_consumed (w rest : pystr) :
  take (length (w ++ rest) - length rest) (w ++ rest) = w.
Proof. apply take_app_length'. rewrite length_app. lia. Qed.

Lemma re_group_sound (r : regex) (A : Type) (s : pystr)
    (k : pystr -> pystr -> option A) (x : A) :
  re_group r s k = Some x ->
  exists w rest, s = w ++ rest /\ lang r w /\ k w rest = Some x.
Proof.
  unfold re_group. intros H.
  apply re_match_sound in H as (w & rest & -> & Hw & H').
  rewrite take_consumed in H'. now exists w, rest.
Qed.

Lemma re_group_complete (r : regex) (w : pystr) (A : Type) (rest : pystr)
    (k : pystr -> pystr -> option A) :
  lang r w -> is_Some (k w rest) -> is_Some (re_group r (w ++ rest) k).
Proof.
  intros Hw Hk. unfold re_group. apply re_match_complete; [ assumption | ].
  now rewrite take_consumed.
Qed.

Lemma format_regex_match_sound (s d m Y rest : pystr) :
  format_regex_match s = Some (d, m, Y, rest) ->
  s = d ++ [c_dot] ++ m ++ [c_dot] ++ Y ++ rest
  /\ lang re_d d /\ lang re_m m /\ lang re_Y Y.
Proof.
  unfold format_regex_match. intros H.
  apply re_group_sound in H as (d' & s1 & -> & Hd & H1).
  apply re_match_sound in H1 as (w1 & s2 & -> & -> & H2).
  apply re_group_sound in H2 as (m' & s3 & -> & Hm & H3).
  apply re_match_sound in H3 as (w2 & s4 & -> & -> & H4).
  apply re_group_sound in H4 as (Y' & rest' & -> & HY & H5).
  injection H5 as -> -> -> ->. auto.
Qed.

Lemma format_regex_match_complete (d m Y rest : pystr) :
  lang re_d d -> lang re_m m -> lang re_Y Y ->
  is_Some (format_regex_match (d ++ [c_dot] ++ m ++ [c_dot] ++ Y ++ rest)).
Proof.
  intros Hd Hm HY. unfold format_regex_match.
  apply re_group_complete; [ assumption | ].
  apply (re_match_complete (Lit c_dot) [c_dot] eq_refl).
  apply re_group_complete; [ assumption | ].
  apply (re_match_complete (Lit c_dot) [c_dot] eq_refl).
  apply re_group_complete; [ assumption | ].
  now eexists.
Qed.

(** The shapes of the three groups. *)
Lemma lang_re_d (d : pystr) :
  lang re_d d <->
  (exists a b, d = [a; b]
     /\ ((a = c3 /\ c0 <= b <= c1)
         \/ (c1 <= a <= c2 /\ isdecimal_char b = true)
         \/ (a = c0 /\ c1 <= b <= c9)
         \/ (a = c_space /\ c1 <= b <= c9)))
  \/ (exists a, d = [a] /\ c1 <= a <= c9).
Proof.
  unfold re_d. simpl. split.
  - intros [ (w1 & w2 & -> & -> & (b & -> & Hb))
           | [ (w1 & w2 & -> & (a & -> & Ha) & (b & -> & Hb))
           | [ (w1 & w2 & -> & -> & (b & -> & Hb))
           | [ (a & -> & Ha)
           | (w1 & w2 & -> & -> & (b & -> & Hb)) ]]]].
    + left. exists c3, b. auto.
    + left. exists a, b. auto.
    + left. exists c0, b. auto 6.
    + right. exists a. auto.
    + left. exists c_space, b. auto 6.
  - intros [ (a & b & -> & [ (-> & Hb) | [ (Ha & Hb) | [ (-> & Hb) | (-> & Hb) ]]])
           | (a & -> & Ha) ].
    + left. exists [c3], [b]. eauto.
    + right. left. exists [a], [b]. eauto 7.
    + right. right. left. exists [c0], [b]. eauto.
    + right. right. right. right. exists [c_space], [b]. eauto.
    + right. right. right. left. eauto.
Qed.

Lemma lang_re_m (m : pystr) :
  lang re_m m <->
  (exists a b, m = [a; b]
     /\ ((a = c1 /\ c0 <= b <= c2) \/ (a = c0 /\ c1 <= b <= c9)))
  \/ (exists a, m = [a] /\ c1 <= a <= c9).
Proof.
  unfold re_m. simpl. split.
  - intros [ (w1 & w2 & -> & -> & (b & -> & Hb))
           | [ (w1 & w2 & -> & -> & (b & -> & Hb))
           | (a & -> & Ha) ]].
    + left. exists c1, b. auto.
    + left. exists c0, b. auto.
    + right. exists a. auto.
  - intros [ (a & b & -> & [ (-> & Hb) | (-> & Hb) ]) | (a & -> & Ha) ].
    + left. exists [c1], [b]. eauto.
    + right. left. exists [c0], [b]. eauto.
    + right. right. eauto.
Qed.

Lemma lang_re_Y (Y : pystr) :
  lang re_Y Y <->
  exists a b c d, Y = [a; b; c; d]
    /\ isdecimal_char a = true /\ isdecimal_char b = true
    /\ isdecimal_char c = true /\ isdecimal_char d = true.
Proof.
  unfold re_Y. simpl. split.
  - intros (w1 & w2 & -> & (a & -> & Ha) & w3 & w4 & -> & (b & -> & Hb)
            & w5 & w6 & -> & (c & -> & Hc) & (d & -> & Hd)).
    exists a, b, c, d. auto.
  - intros (a & b & c & d & -> & Ha & Hb & Hc & Hd).
    exists [a], [b; c; d]. split; [ reflexivity | ]. split; [ eauto | ].
    exists [b], [c; d]. split; [ reflexivity | ]. split; [ eauto | ].
    exists [c], [d]. split; [ reflexivity | ]. split; eauto.
Qed.

Lemma split_at_first {A} (c : A) (l1 l1' t t' : list A) :
  ~ In c l1 -> ~ In c l1' -> l1 ++ c :: t = l1' ++ c :: t' ->
  l1 = l1' /\ t = t'.
Proof.
  revert l1'. induction l1 as [ | a l1 IH ]; intros [ | a' l1' ] H1 H2 E;
    simpl in *.
  - injection E as ->. auto.
  - injection E as <- _. tauto.
  - injection E as -> _. tauto.
  - injection E as -> E. destruct (IH l1') as [-> ->]; auto.
Qed.

Lemma decimal_not_dot (c : char) : isdecimal_char c = true -> c <> c_dot.
Proof. intros H ->. vm_compute in H. discriminate. Qed.

Lemma re_d_no_dot (d : pystr) : lang re_d d -> ~ In c_dot d.
Proof.
  intros H. apply lang_re_d in H.
  destruct H as [ (a & b & -> & H) | (a & -> & H) ]; simpl;
    unfold c0, c1, c2, c3, c9, c_dot, c_space in *.
  - intros [E | [E | []]];
      destruct H as [ (-> & Hb) | [ (Ha & Hb) | [ (-> & Hb) | (-> & Hb) ]]];
      try lia.
    subst b. vm_compute in Hb. discriminate.
  - intros [E | []]. lia.
Qed.

Lemma re_m_no_dot (m : pystr) : lang re_m m -> ~ In c_dot m.
Proof.
  intros H. apply lang_re_m in H.
  destruct H as [ (a & b & -> & H) | (a & -> & H) ]; simpl;
    unfold c0, c1, c2, c9, c_dot in *.
  - intros [E | [E | []]]; destruct H as [ (-> & Hb) | (-> & Hb) ]; lia.
  - intros [E | []]. lia.
Qed.

Lemma re_Y_length (Y : pystr) : lang re_Y Y -> length Y = 4%nat.
Proof.
  intros H. apply lang_re_Y in H as (a & b & c & d & -> & _). reflexivity.
Qed.

(** A string of the three shapes is matched in one way only. *)
Lemma format_regex_match_exact (d m Y rest : pystr) :
  lang re_d d -> lang re_m m -> lang re_Y Y ->
  format_regex_match (d ++ [c_dot] ++ m ++ [c_dot] ++ Y ++ rest)
  = Some (d, m, Y, rest).
Proof.
  intros Hd Hm HY.
  destruct (format_regex_match_complete d m Y rest Hd Hm HY)
    as ([[[d' m'] Y'] rest'] & E).
  rewrite E. apply format_regex_match_sound in E as (Es & Hd' & Hm' & HY').
  simpl in Es.
  apply split_at_first in Es as [<- Es];
    [ | now apply re_d_no_dot | now apply re_d_no_dot ].
  apply split_at_first in Es as [<- Es];
    [ | now apply re_m_no_dot | now apply re_m_no_dot ].
  apply app_inj_1 in Es as [<- <-];
    [ reflexivity | now rewrite !re_Y_length ].
Qed.

(** The parse succeeds exactly on the strings of [birthday_text]. *)
Lemma strptime_spec (s : pystr) (dd : date) :
  strptime_dmY s = Ok (mkdatetime dd 0 0 0 0) <-> birthday_text s dd.
Proof.
  unfold strptime_dmY, birthday_text. split.
  - destruct (format_regex_match s) as [ [[[d m] Y] rest] | ] eqn:E;
      [ | discriminate ].
    apply format_regex_match_sound in E as (-> & Hd & Hm & HY).
    destruct rest as [ | c rest ]; simpl negb; cbv iota; [ | discriminate ].
    destruct (int Y) as [y | ] eqn:EY; simpl rbind; [ | discriminate ].
    destruct (int m) as [mo | ] eqn:Em; simpl rbind; [ | discriminate ].
    destruct (int d) as [da | ] eqn:Ed; simpl rbind; [ | discriminate ].
    destruct (date_new y mo da) as [dd' | ] eqn:En; simpl rbind;
      [ | discriminate ].
    intros [= ->]. apply date_new_ok in En as (-> & Hok).
    exists d, m, Y. rewrite app_nil_r.
    repeat (split; [ assumption || reflexivity | ]). assumption.
  - intros (d & m & Y & -> & Hd & Hm & HY & EY & Em & Ed & Hok).
    pose proof (format_regex_match_exact d m Y [] Hd Hm HY) as E.
    rewrite app_nil_r in E. rewrite E. simpl.
    rewrite EY, Em, Ed. simpl.
    destruct dd as [y mo da]. simpl.
    now rewrite (date_new_complete y mo da Hok).
Qed.

Lemma strptime_midnight (s : pystr) (dt : datetime) :
  strptime_dmY s = Ok dt -> dt = mkdatetime (datetime_date dt) 0 0 0 0.
Proof.
  unfold strptime_dmY.
  destruct (format_regex_match s) as [ [[[d m] Y] rest] | ]; [ | discriminate ].
  destruct (negb _); [ discriminate | ].
  destruct (int Y) as [y | ]; simpl; [ | discriminate ].
  destruct (int m) as [mo | ]; simpl; [ | discriminate ].
  destruct (int d) as [da | ]; simpl; [ | discriminate ].
  destruct (date_new y mo da) as [dd | ]; simpl; [ | discriminate ].
  now intros [= <-].
Qed.

Lemma ascii_digit_range (c : char) :
  ascii_digit c = true <-> c0 <= c <= c9.
Proof.
  unfold ascii_digit, c0, c9. rewrite andb_true_iff, !Z.leb_le. tauto.
Qed.

Lemma ascii_digit_isdecimal (c : char) :
  ascii_digit c = true -> isdecimal_char c = true.
Proof.
  intros H. unfold isdecimal_char. now rewrite (ascii_digit_decimal c H).
Qed.

Lemma int_two_digits (a b : char) :
  ascii_digit a = true -> ascii_digit b = true ->
  int [a; b] = Ok (digit_value a * 10 + digit_value b).
Proof.
  intros Ha Hb. unfold int.
  destruct (Z.eqb_spec a c_space) as [E | _].
  - apply ascii_digit_range in Ha. unfold c0, c_space in *. lia.
  - simpl. rewrite (ascii_digit_decimal a Ha), (ascii_digit_decimal b Hb).
    reflexivity.
Qed.

Lemma int_four_digits (a b c d : char) :
  ascii_digit a = true -> ascii_digit b = true ->
  ascii_digit c = true -> ascii_digit d = true ->
  int [a; b; c; d]
  = Ok (digit_value a * 1000 + digit_value b * 100
        + digit_value c * 10 + digit_value d).
Proof.
  intros Ha Hb Hc Hd. unfold int.
  destruct (Z.eqb_spec a c_space) as [E | _].
  - apply ascii_digit_range in Ha. unfold c0, c_space in *. lia.
  - simpl. rewrite (ascii_digit_decimal a Ha), (ascii_digit_decimal b Hb),
      (ascii_digit_decimal c Hc), (ascii_digit_decimal d Hd).
    f_equal. lia.
Qed.

(** A real date written DD.MM.YYYY is among the strings accepted. *)
Lemma DDMMYYYY_birthday_text (s : pystr) (y m d : Z) :
  DDMMYYYY s y m d -> date_ok (mkdate y m d) ->
  birthday_text s (mkdate y m d).
Proof.
  intros (d1 & d2 & m1 & m2 & y1 & y2 & y3 & y4 & -> & Hdig & -> & -> & ->) Hok.
  repeat match goal with
         | H : Forall _ (_ :: _) |- _ =>
             apply Forall_cons_1 in H; destruct H as [? H]
         end.
  pose proof Hok as (_ & Hmo & Hda). simpl in Hmo, Hda.
  pose proof (days_in_month_bounds
                (digit_value y1 * 1000 + digit_value y2 * 100
                 + digit_value y3 * 10 + digit_value y4)
                _ Hmo) as Hdim.
  exists [d1; d2], [m1; m2], [y1; y2; y3; y4].
  split; [ reflexivity | ].
  repeat match goal with
         | H : ascii_digit ?c = true |- _ =>
             pose proof (proj1 (ascii_digit_range c) H);
             pose proof (ascii_digit_isdecimal c H);
             revert H
         end.
  intros. unfold digit_value, c0, c9 in *.
  split.
  { apply lang_re_d. left. exists d1, d2. split; [ reflexivity | ].
    unfold c0, c1, c2, c3, c9, c_space.
    destruct (Z.eq_dec d1 0x33) as [-> | ?]; [ left; lia | ].
    destruct (Z.eq_dec d1 0x30) as [-> | ?]; [ right; right; left; lia | ].
    right. left. split; [ lia | assumption ]. }
  split.
  { apply lang_re_m. left. exists m1, m2. split; [ reflexivity | ].
    unfold c0, c1, c2, c9.
    destruct (Z.eq_dec m1 0x30) as [-> | ?]; [ right; lia | left; lia ]. }
  split.
  { apply lang_re_Y. exists y1, y2, y3, y4. auto. }
  simpl year. simpl month. simpl day.
  rewrite int_four_digits, !int_two_digits by assumption.
  unfold digit_value, c0. auto.
Qed.

(** C6, as the code has it.  [Birthday] accepts exactly the strings the
    parser of the runtime reads with the format [%d.%m.%Y]: a day, a month
    and a four-digit year between dots, the day and the month on two
    digits or on one, the day also as a space and a digit, that form a date
    of the years 1 to 9999; the value it builds keeps the string and the
    date.  Every real date written DD.MM.YYYY is among them.  Every other
    string raises the error with the message of the source, and no value
    is built. *)
Theorem birthday_construction (s : pystr) :
  (forall dd, birthday_text s dd -> Birthday.init s = Ok (Birthday.mk s dd))
  /\ (forall b, Birthday.init s = Ok b ->
        Birthday.value b = s /\ birthday_text s (Birthday.date b))
  /\ ((forall dd, ~ birthday_text s dd) ->
      Birthday.init s
      = Raise (ValueError (lit "Invalid date format. Use DD.MM.YYYY")))
  /\ (forall y m d, DDMMYYYY s y m d -> date_ok (mkdate y m d) ->
        Birthday.init s = Ok (Birthday.mk s (mkdate y m d))).
Proof.
  assert (Hacc : forall dd, birthday_text s dd ->
                   Birthday.init s = Ok (Birthday.mk s dd)).
  { intros dd Ht. apply strptime_spec in Ht.
    unfold Birthday.init, Birthday.validate. rewrite Ht. reflexivity. }
  assert (Hinv : forall b, Birthday.init s = Ok b ->
                   Birthday.value b = s /\ birthday_text s (Birthday.date b)).
  { intros b Hb.
    destruct (Birthday_init_cases s) as [ (dt & Hp & E) | (_ & E) ];
      rewrite E in Hb; [ | discriminate ].
    injection Hb as <-. simpl. split; [ reflexivity | ].
    apply strptime_spec. rewrite Hp. f_equal. now apply strptime_midnight in Hp. }
  split; [ exact Hacc | ]. split; [ exact Hinv | ]. split.
  - intros Hno.
    destruct (Birthday_init_cases s) as [ (dt & Hp & E) | (_ & E) ];
      [ | exact E ].
    exfalso. apply (Hno (datetime_date dt)).
    now apply (Hinv _ E).
  - intros y m d Hform Hok. apply Hacc.
    now apply DDMMYYYY_birthday_text.
Qed.

Lemma birthday_construction_witness :
  Birthday.init (lit "12.05.1990")
  = Ok (Birthday.mk (lit "12.05.1990") (mkdate 1990 5 12)).
Proof.
  apply (proj2 (proj2 (proj2 (birthday_construction (lit "12.05.1990"))))
           1990 5 12).
  - exists 0x31, 0x32, 0x30, 0x35, 0x31, 0x39, 0x39, 0x30.
    split; [ reflexivity | ]. split; [ repeat constructor | ].
    split; [ reflexivity | ]. split; reflexivity.
  - unfold date_ok. vm_compute. intuition discriminate.
Defined.

(** C6 fails as stated: the string 1.5.1990 is not of the form DD.MM.YYYY
    and [Birthday] accepts it, as the first of May 1990. *)
Lemma birthday_accepts_short_fields :
  (forall y m d, ~ DDMMYYYY (lit "1.5.1990") y m d)
  /\ Birthday.init (lit "1.5.1990")
     = Ok (Birthday.mk (lit "1.5.1990") (mkdate 1990 5 1)).
Proof.
  split.
  - intros y m d (d1 & d2 & m1 & m2 & y1 & y2 & y3 & y4 & E & _).
    discriminate E.
  - vm_compute. reflexivity.
Qed.

(** Strings that are refused: a day that the month does not have, a month
    13, a year on five digits, the year 0000. *)
Example birthday_refusals :
  Forall (fun s => Birthday.init s
                   = Raise (ValueError
                              (lit "Invalid date format. Use DD.MM.YYYY")))
    [lit "31.02.1990"; lit "12.13.1990"; lit "12.05.19901"; lit "29.02.0000";
     lit "1990-05-12"; lit ""].
Proof. repeat constructor. Qed.

(** * The rest of the program *)

(** * Further properties of the classes *)

(** ** [find_next_weekday] *)

(** X1.  For a weekday number 0 to 6, [find_next_weekday] returns the first
    date strictly after the start date that falls on that weekday, one to
    seven days later (a full week later when the start date already is that
    weekday); it raises [OverflowError] only when that date would lie
    after 31.12.9999. *)
Theorem find_next_weekday_spec (start_date : date) (wd : Z) :
  date_ok start_date -> 0 <= wd <= 6 ->
  (exists d',
     AddressBook.find_next_weekday start_date wd = Ok d'
     /\ date_ok d' /\ weekday d' = wd
     /\ 1 <= sub_days d' start_date <= 7
     /\ (weekday start_date = wd -> sub_days d' start_date = 7))
  \/ (AddressBook.find_next_weekday start_date wd
      = Raise (OverflowError (lit "date value out of range"))
      /\ _MAXORDINAL - 7 < toordinal start_date).
Proof.
  intros Hd Hwd. pose proof (toordinal_range _ Hd) as Hr.
  pose proof (weekday_range start_date) as Hw.
  unfold AddressBook.find_next_weekday, add_days.
  set (k := if wd - weekday start_date <=? 0
            then wd - weekday start_date + 7 else wd - weekday start_date).
  assert (Hk : 1 <= k <= 7 /\ (toordinal start_date + k + 6) mod 7 = wd
               /\ (weekday start_date = wd -> k = 7)).
  { subst k. unfold weekday in *.
    destruct (Z.leb_spec (wd - (toordinal start_date + 6) mod 7) 0);
      (split; [ lia | split; [ Z.div_mod_to_equations; lia | lia ] ]). }
  clearbody k. destruct Hk as (Hk1 & Hk2 & Hk3).
  destruct (Z.ltb_spec 0 (toordinal start_date + k)); [ | lia ].
  destruct (Z.leb_spec (toordinal start_date + k) _MAXORDINAL) as [Hle | Hgt];
    simpl.
  - left. eexists. split; [ reflexivity | ].
    split; [ apply fromordinal_ok; lia | ].
    unfold weekday at 1, sub_days. rewrite toordinal_fromordinal.
    split; [ assumption | ]. split; lia.
  - right. split; [ reflexivity | lia ].
Qed.

Lemma find_next_weekday_spec_witness :
  exists d',
    AddressBook.find_next_weekday (mkdate 2024 5 13) 0 = Ok d'
    /\ sub_days d' (mkdate 2024 5 13) = 7.
Proof.
  destruct (find_next_weekday_spec (mkdate 2024 5 13) 0)
    as [ (d' & H1 & _ & _ & _ & H5) | (H & _) ].
  - unfold date_ok. vm_compute. intuition discriminate.
  - lia.
  - exists d'. split; [ exact H1 | apply H5; reflexivity ].
  - vm_compute in H. discriminate H.
Defined.

(** ** The phones of a record *)

Lemma find_phone_loop_Some (ps : list Phone.t) (v : pystr) (p : Phone.t) :
  Record_.find_phone_loop ps v = Some p <->
  exists l1 l2, ps = l1 ++ p :: l2
                /\ (forall q, In q l1 -> Phone.value q <> v)
                /\ Phone.value p = v.
Proof.
  induction ps as [ | q ps IH ]; simpl.
  - split; [ discriminate | intros ([ | ? ?] & l2 & E & _); discriminate ].
  - destruct (pystr_eqb_spec (Phone.value q) v) as [E | E].
    + split.
      * intros [= <-]. exists [], ps. split; [ reflexivity | ].
        split; [ intros ? [] | assumption ].
      * intros ([ | q' l1 ] & l2 & Eq & Hno & Hp); simpl in Eq.
        -- now injection Eq as <- _.
        -- injection Eq as <- _. exfalso. apply (Hno q); [ now left | exact E ].
    + rewrite IH. split.
      * intros (l1 & l2 & -> & Hno & Hp). exists (q :: l1), l2.
        split; [ reflexivity | ]. split; [ | assumption ].
        intros q' [<- | Hq]; auto.
      * intros ([ | q' l1 ] & l2 & Eq & Hno & Hp); simpl in Eq.
        -- injection Eq as <- _. contradiction.
        -- injection Eq as <- ->. exists l1, l2. split; [ reflexivity | ].
           split; [ | assumption ]. intros q' Hq. apply Hno. now right.
Qed.

Lemma find_phone_loop_None (ps : list Phone.t) (v : pystr) :
  Record_.find_phone_loop ps v = None <->
  forall q, In q ps -> Phone.value q <> v.
Proof.
  induction ps as [ | q ps IH ]; simpl.
  - split; [ intros _ ? [] | reflexivity ].
  - destruct (pystr_eqb_spec (Phone.value q) v) as [E | E].
    + split; [ discriminate | ]. intros H. exfalso. apply (H q); auto.
    + rewrite IH. split.
      * intros H q' [<- | Hq]; auto.
      * intros H q' Hq. apply H. now right.
Qed.

(** X2.  [find_phone] does not change the record and never raises.  It
    returns the first phone of the list whose value is the one asked for,
    and [None] exactly when the record holds no such phone. *)
Theorem find_phone_spec (self : Record_.t) (this_phone : pystr) :
  exists res,
    Record_.find_phone this_phone self = (Ok res, self)
    /\ (forall p, res = Some p <->
          exists l1 l2,
            Record_.phones self = l1 ++ p :: l2
            /\ (forall q, In q l1 -> Phone.value q <> this_phone)
            /\ Phone.value p = this_phone)
    /\ (res = None <->
        forall q, In q (Record_.phones self) -> Phone.value q <> this_phone).
Proof.
  exists (Record_.find_phone_loop (Record_.phones self) this_phone).
  split; [ reflexivity | ].
  split; [ intros p; apply find_phone_loop_Some | apply find_phone_loop_None ].
Qed.

(** X3.  [add_phone] with a string that passes the validation appends one
    phone of that value at the end of the list and keeps the phones that
    were there, also when a phone of the same value is among them; name and
    birthday are kept, and [find_phone] then finds a phone of that value.
    With any other string it raises the validation error and the record
    is as it was. *)
Theorem add_phone_spec (self : Record_.t) (phone : pystr) :
  (valid_phone phone ->
   Record_.add_phone phone self
   = (Ok tt,
      Record_.mk (Record_.name self)
                 (Record_.phones self ++ [Phone.mk phone])
                 (Record_.birthday self))
   /\ exists p,
        fst (Record_.find_phone phone
               (Record_.mk (Record_.name self)
                           (Record_.phones self ++ [Phone.mk phone])
                           (Record_.birthday self)))
        = Ok (Some p)
        /\ Phone.value p = phone)
  /\ (~ valid_phone phone ->
      Record_.add_phone phone self
      = (Raise (ValueError
                  (lit "Wrong format! Phone number must be 10 digits long.")),
         self)).
Proof.
  unfold Record_.add_phone, bind, call, modify. split.
  - intros Hv. rewrite (proj2 (Phone_init_ok phone (Phone.mk phone)))
      by (split; [ reflexivity | assumption ]).
    split; [ reflexivity | ].
    unfold Record_.find_phone, gets. simpl.
    destruct (Record_.find_phone_loop (Record_.phones self ++ [Phone.mk phone])
                phone) as [p | ] eqn:E.
    + exists p. split; [ reflexivity | ].
      now apply find_phone_loop_Some in E as (_ & _ & _ & _ & Hp).
    + exfalso.
      apply (proj1 (find_phone_loop_None _ _) E (Phone.mk phone));
        [ apply in_or_app; right; now left | reflexivity ].
  - intros Hn. destruct (Phone.init phone) as [p | e] eqn:E.
    + apply Phone_init_ok in E as [_ Hv]. contradiction.
    + apply Phone_init_raise in E.
      destruct (Phone_validate_cases phone) as [E' | E']; rewrite E' in E.
      * discriminate E.
      * injection E as <-. reflexivity.
Qed.

Lemma add_phone_spec_witness :
  Record_.add_phone (lit "0987654321") ann
  = (Ok tt,
     Record_.mk (Record_.name ann)
                (Record_.phones ann ++ [Phone.mk (lit "0987654321")])
                (Record_.birthday ann))
  /\ Record_.add_phone (lit "12345") ann
     = (Raise (ValueError
                 (lit "Wrong format! Phone number must be 10 digits long.")),
        ann).
Proof.
  split.
  - apply (proj1 (add_phone_spec ann (lit "0987654321"))).
    split; [ reflexivity | repeat constructor ].
  - apply (proj2 (add_phone_spec ann (lit "12345"))).
    intros [Hl _]. discriminate Hl.
Defined.


(** X5.  [add_birthday] with a string that [Birthday] accepts sets the
    birthday of the record to that string and its date, whatever birthday
    the record had; name and phones are kept.  With any other string it
    raises the error of [Birthday] and the record, with the birthday it
    had, is as it was. *)
Theorem add_birthday_spec (self : Record_.t) (s : pystr) :
  (forall dd, birthday_text s dd ->
     Record_.add_birthday s self
     = (Ok tt,
        Record_.mk (Record_.name self) (Record_.phones self)
                   (Some (Birthday.mk s dd))))
  /\ ((forall dd, ~ birthday_text s dd) ->
      Record_.add_birthday s self
      = (Raise (ValueError (lit "Invalid date format. Use DD.MM.YYYY")),
         self)).
Proof.
  unfold Record_.add_birthday, bind, call, modify. split.
  - intros dd Ht. apply strptime_spec in Ht.
    unfold Birthday.init, Birthday.validate. rewrite Ht. reflexivity.
  - intros Hno.
    destruct (Birthday_init_cases s) as [ (dt & Hp & E) | (_ & E) ];
      rewrite E; [ | reflexivity ].
    exfalso. apply (Hno (datetime_date dt)). apply strptime_spec.
    rewrite Hp. f_equal. now apply strptime_midnight in Hp.
Qed.

Lemma add_birthday_spec_witness :
  Record_.add_birthday (lit "1.5.1990") ann
  = (Ok tt,
     Record_.mk (Record_.name ann) (Record_.phones ann)
                (Some (Birthday.mk (lit "1.5.1990") (mkdate 1990 5 1)))).
Proof.
  apply (proj1 (add_birthday_spec ann (lit "1.5.1990")) (mkdate 1990 5 1)).
  apply strptime_spec. vm_compute. reflexivity.
Defined.

(** ** More on the query *)

Lemma next_birthday_raises (today ub : date) (e : exn) :
  AddressBook.next_birthday today ub = Raise e -> exists msg, e = ValueError msg.
Proof.
  unfold AddressBook.next_birthday, replace_year.
  destruct (date_new (year today) (month ub) (day ub)) as [x | e1] eqn:E1; simpl.
  - destruct (date_lt x today); [ | discriminate ].
    apply date_new_raises.
  - intros [= <-]. eapply date_new_raises, E1.
Qed.

Lemma loop_body_raises (today : date) (self : Record_.t) (acc : list entry)
    (e : exn) :
  date_ok today ->
  (forall b, Record_.birthday self = Some b -> date_ok (Birthday.date b)) ->
  AddressBook.loop_body today self acc = Raise e ->
  exists msg, e = ValueError msg.
Proof.
  intros Ht Hb. unfold AddressBook.loop_body.
  destruct (Record_.birthday self) as [b | ]; [ | discriminate ].
  destruct (AddressBook.next_birthday today (Birthday.date b)) as [nb | e1] eqn:En;
    simpl; [ | intros [= <-]; eapply next_birthday_raises, En ].
  destruct (next_birthday_spec _ _ _ Ht (Hb b eq_refl) En) as (_ & Hnb & _).
  destruct (adjust_for_weekend_spec nb Hnb) as (cd & -> & _).
  simpl. destruct (_ && _); discriminate.
Qed.

Lemma upcoming_loop_raises_ValueError (today : date)
    (records : list Record_.t) :
  date_ok today ->
  (forall self b, In self records -> Record_.birthday self = Some b ->
     date_ok (Birthday.date b)) ->
  forall acc e,
    AddressBook.upcoming_loop today records acc = Raise e ->
    exists msg, e = ValueError msg.
Proof.
  intros Ht. induction records as [ | self records IH ]; intros Hb acc e; simpl;
    [ discriminate | ].
  destruct (AddressBook.loop_body today self acc) as [acc' | e1] eqn:E1; simpl.
  - apply IH. intros s b Hs. apply Hb. now right.
  - intros [= <-]. eapply loop_body_raises; [ exact Ht | | exact E1 ].
    intros b. apply Hb. now left.
Qed.

Lemma query_cases (w : World) (st : State) :
  wf_world w -> wf_state st ->
  (exists out, AddressBook.get_upcoming_birthdays w st = Some (Ok out))
  \/ (exists msg,
        AddressBook.get_upcoming_birthdays w st
        = Some (Raise (ValueError msg))).
Proof.
  intros Hw Hwf. unfold AddressBook.get_upcoming_birthdays.
  destruct (values_total st Hwf) as (records & Hv). rewrite Hv.
  destruct (AddressBook.upcoming_loop _ records []) as [out | e] eqn:E.
  - left. now exists out.
  - right.
    destruct (upcoming_loop_raises_ValueError _ records Hw) with (acc := @nil entry) (e := e)
      as (msg & ->); [ | exact E | now exists msg ].
    intros self b Hin. eapply values_birthday_ok; eauto.
Qed.

(** X6.  On a book of the program and a clock that shows a date, the query
    either returns a list or raises a [ValueError]; it raises no other
    exception, the [OverflowError] of the date addition included. *)
Theorem query_raises_only_ValueError (w : World) (st : State) :
  wf_world w -> wf_state st ->
  (exists out, AddressBook.get_upcoming_birthdays w st = Some (Ok out))
  \/ (exists msg,
        AddressBook.get_upcoming_birthdays w st
        = Some (Raise (ValueError msg))).
Proof. exact (query_cases w st). Qed.

Lemma query_raises_only_ValueError_witness :
  (exists out,
     AddressBook.get_upcoming_birthdays friday_morning sample_state
     = Some (Ok out))
  \/ (exists msg,
        AddressBook.get_upcoming_birthdays friday_morning sample_state
        = Some (Raise (ValueError msg))).
Proof.
  apply (query_raises_only_ValueError friday_morning sample_state
           friday_morning_wf sample_state_wf).
Defined.

Lemma adds_names (today : date) (records : list Record_.t)
    (ls : list (list entry)) :
  Forall2 (adds today) records ls ->
  sublist (map e_name (concat ls))
          (map (fun self => Name.value (Record_.name self)) records).
Proof.
  induction 1 as [ | self l records ls Hadds Hrest IH ]; simpl;
    [ constructor | ].
  rewrite map_app.
  destruct Hadds; simpl; [ now constructor | now constructor | ].
  now apply sublist_skip.
Qed.

(** X7.  The list the query returns follows the order of the book: the
    names of its entries are names of the book, each at most once, in the
    order in which the book holds them; so it has at most as many entries
    as the book has records. *)
Theorem query_order (w : World) (st : State) (out : list entry) :
  wf_state st ->
  AddressBook.get_upcoming_birthdays w st = Some (Ok out) ->
  sublist (map e_name out) (dict_keys (data st))
  /\ List.NoDup (map e_name out)
  /\ (length out <= length (data st))%nat.
Proof.
  intros Hwf Hq. unfold AddressBook.get_upcoming_birthdays in Hq.
  destruct (AddressBook.values st) as [records | ] eqn:Hv; [ | discriminate ].
  injection Hq as Hq. apply upcoming_loop_adds in Hq as (ls & Hls & ->).
  simpl. pose proof (adds_names _ _ _ Hls) as Hsub.
  rewrite (values_names st records Hwf Hv) in Hsub.
  split; [ exact Hsub | ]. split.
  - apply NoDup_ListNoDup. eapply sublist_NoDup; [ | exact Hsub ].
    apply NoDup_ListNoDup, Hwf.
  - apply sublist_length in Hsub. unfold dict_keys in Hsub.
    now rewrite !length_map in Hsub.
Qed.

Lemma query_order_witness :
  sublist (map e_name [mkentry (lit "Ann") (lit "13.05.2024");
                       mkentry (lit "Bob") (lit "20.05.2024")])
          (dict_keys (data sample_state)).
Proof.
  apply (query_order saturday_morning sample_state _ sample_state_wf).
  vm_compute. reflexivity.
Defined.

(** X8.  No entry of the list carries a weekend: the date of every entry is
    the rendering of a Monday to Friday that lies between the day of the
    query and the ninth day after it. *)
Theorem congratulation_on_weekday (w : World) (st : State) (out : list entry)
    (e : entry) :
  wf_world w -> wf_state st ->
  AddressBook.get_upcoming_birthdays w st = Some (Ok out) ->
  In e out ->
  exists cd : date,
    congratulation_date e = strftime_dmY cd
    /\ date_ok cd
    /\ 0 <= weekday cd <= 4
    /\ 0 <= sub_days cd (datetime_date (datetime_today w)) <= 9.
Proof.
  intros Hw Hwf Hq He. unfold AddressBook.get_upcoming_birthdays in Hq.
  destruct (AddressBook.values st) as [records | ] eqn:Hv; [ | discriminate ].
  injection Hq as Hq. apply upcoming_loop_adds in Hq as (ls & Hls & ->).
  simpl in He.
  destruct (Forall2_adds_In _ _ _ _ Hls He) as (self & l & Hin & Hadds & Hel).
  destruct Hadds as [ Hb | b nb Hb Hn Hwin | b nb cd Hb Hn Hwin Ha ];
    [ destruct Hel | destruct Hel | ].
  destruct Hel as [<- | []]. simpl.
  pose proof (values_birthday_ok st Hwf _ _ _ Hv Hin Hb) as Hbok.
  destruct (next_birthday_spec _ _ _ Hw Hbok Hn) as (_ & Hnb & _).
  destruct (adjust_for_weekend_spec nb Hnb)
    as (cd' & Ha' & Hcd & Hord & Hweek & Hend).
  assert (cd' = cd) as -> by congruence.
  exists cd. split; [ reflexivity | ]. split; [ assumption | ].
  pose proof (weekday_range nb) as Hr.
  pose proof (weekend_shift_range (weekday nb)) as Hs.
  unfold in_window, sub_days in *.
  destruct (Z.lt_ge_cases (weekday nb) 5) as [Hlt | Hge].
  - rewrite (Hweek Hlt) in *. unfold weekend_shift in Hord.
    split; lia.
  - destruct (Hend Hge) as [Hmon _]. rewrite Hmon. split; lia.
Qed.

Lemma congratulation_on_weekday_witness :
  exists cd : date,
    lit "13.05.2024" = strftime_dmY cd /\ 0 <= weekday cd <= 4.
Proof.
  destruct (congratulation_on_weekday friday_morning sample_state
              [mkentry (lit "Ann") (lit "13.05.2024")]
              (mkentry (lit "Ann") (lit "13.05.2024"))
              friday_morning_wf sample_state_wf)
    as (cd & H1 & _ & H3 & _).
  - vm_compute. reflexivity.
  - now left.
  - exists cd. split; assumption.
Defined.

Lemma orphan_state_run : run orphan_ops init_state = Some orphan_state.
Proof. vm_compute. reflexivity. Qed.

Lemma orphan_state_wf : wf_state orphan_state.
Proof. apply (run_wf orphan_ops), orphan_state_run. Qed.

(** X9.  Records without a birthday are skipped: on a book in which no
    record has a birthday, the empty book among them, the query returns the
    empty list, whatever the clock shows and whatever objects there are
    that the book does not hold. *)
Theorem query_without_birthdays (w : World) (st : State) :
  wf_state st ->
  (forall name r self,
     AddressBook.find name st = Some r -> heap st !! r = Some self ->
     Record_.birthday self = None) ->
  AddressBook.get_upcoming_birthdays w st = Some (Ok []).
Proof.
  intros Hwf Hno. unfold AddressBook.get_upcoming_birthdays.
  destruct (values_total st Hwf) as (records & Hv). rewrite Hv. f_equal.
  assert (Hall : forall self, In self records -> Record_.birthday self = None).
  { intros self Hin.
    destruct (values_origin st Hwf _ _ Hv Hin) as (r & Hf & Hs).
    exact (Hno _ r self Hf Hs). }
  clear Hv. induction records as [ | self records IH ]; [ reflexivity | ].
  simpl. unfold AddressBook.loop_body at 1.
  rewrite (Hall self) by now left. simpl.
  apply IH. intros s Hs. apply Hall. now right.
Qed.

(** The book holds Bob, who has no birthday; Leo, born on 29 February, was
    deleted from it, and his object does not make the query raise. *)
Lemma query_without_birthdays_witness :
  AddressBook.find (lit "Bob") orphan_state = Some 1%nat
  /\ heap orphan_state !! 0%nat = Some leo
  /\ AddressBook.get_upcoming_birthdays march_2023 orphan_state = Some (Ok []).
Proof.
  split; [ reflexivity | ]. split; [ reflexivity | ].
  apply (query_without_birthdays march_2023 orphan_state orphan_state_wf).
  intros name r self Hf Hs. unfold AddressBook.find in Hf. simpl in Hf.
  destruct (pystr_eqb (lit "Bob") name); [ | discriminate Hf ].
  injection Hf as <-. simpl in Hs. injection Hs as <-. reflexivity.
Defined.

(** ** Dates written and read back *)

Lemma str_int_four_table :
  forallb (fun k => let y := Z.of_nat k + 1000 in
                    pystr_eqb (str_int y)
                      [0x30 + y / 1000; 0x30 + y / 100 mod 10;
                       0x30 + y / 10 mod 10; 0x30 + y mod 10])
          (seq 0 (Z.to_nat 9000)) = true.
Proof. vm_compute. reflexivity. Qed.

Lemma str_int_four (y : Z) :
  1000 <= y <= 9999 ->
  str_int y = [0x30 + y / 1000; 0x30 + y / 100 mod 10;
               0x30 + y / 10 mod 10; 0x30 + y mod 10].
Proof.
  intros Hy. pose proof str_int_four_table as H.
  rewrite forallb_forall in H.
  specialize (H (Z.to_nat (y - 1000))).
  rewrite Z2Nat.id in H by lia. replace (y - 1000 + 1000) with y in H by lia.
  cbv zeta in H.
  destruct (pystr_eqb_spec (str_int y)
              [0x30 + y / 1000; 0x30 + y / 100 mod 10;
               0x30 + y / 10 mod 10; 0x30 + y mod 10]) as [E | _];
    [ exact E | ].
  assert (false = true); [ | discriminate ].
  apply H, in_seq. lia.
Qed.

Lemma str_int_short_table :
  forallb (fun k => (length (str_int (Z.of_nat k)) <=? 3)%nat)
          (seq 0 (Z.to_nat 1000))
  = true.
Proof. vm_compute. reflexivity. Qed.

Lemma str_int_short (y : Z) :
  0 <= y <= 999 -> (length (str_int y) <= 3)%nat.
Proof.
  intros Hy. pose proof str_int_short_table as H.
  rewrite forallb_forall in H.
  specialize (H (Z.to_nat y)). rewrite Z2Nat.id in H by lia.
  apply Nat.leb_le, H, in_seq. lia.
Qed.

Lemma digit_char_ascii (n : Z) : ascii_digit (0x30 + n mod 10) = true.
Proof.
  unfold ascii_digit. pose proof (Z.mod_pos_bound n 10 ltac:(lia)).
  apply andb_true_iff. rewrite !Z.leb_le. lia.
Qed.

Lemma pad2_no_dot (n : Z) : ~ In c_dot (pad2 n).
Proof.
  unfold pad2, c_dot. simpl.
  pose proof (Z.mod_pos_bound (n / 10) 10 ltac:(lia)).
  pose proof (Z.mod_pos_bound n 10 ltac:(lia)).
  intros [E | [E | []]]; lia.
Qed.

Lemma Birthday_init_text (s : pystr) (dd : date) :
  birthday_text s dd -> Birthday.init s = Ok (Birthday.mk s dd).
Proof.
  intros Ht. apply strptime_spec in Ht.
  unfold Birthday.init, Birthday.validate. rewrite Ht. reflexivity.
Qed.

Lemma Birthday_init_inv (s : pystr) (b : Birthday.t) :
  Birthday.init s = Ok b ->
  Birthday.value b = s /\ birthday_text s (Birthday.date b).
Proof.
  intros Hb.
  destruct (Birthday_init_cases s) as [ (dt & Hp & E) | (_ & E) ];
    rewrite E in Hb; [ | discriminate ].
  injection Hb as <-. simpl. split; [ reflexivity | ].
  apply strptime_spec. rewrite Hp. f_equal. now apply strptime_midnight in Hp.
Qed.

Lemma Birthday_init_result (s : pystr) :
  (exists b, Birthday.init s = Ok b)
  \/ Birthday.init s
     = Raise (ValueError (lit "Invalid date format. Use DD.MM.YYYY")).
Proof.
  destruct (Birthday_init_cases s) as [ (dt & _ & E) | (_ & E) ]; eauto.
Qed.

(** X10.  The date strings the query writes are date strings [Birthday]
    reads, from the year 1000 on: the rendering of a date of the years 1000
    to 9999 is accepted and gives that date back.  The rendering of an
    earlier date, whose year is printed on fewer than four digits, is
    refused. *)
Theorem strftime_read_back (d : date) :
  date_ok d ->
  (1000 <= year d ->
   Birthday.init (strftime_dmY d) = Ok (Birthday.mk (strftime_dmY d) d))
  /\ (year d < 1000 ->
      Birthday.init (strftime_dmY d)
      = Raise (ValueError (lit "Invalid date format. Use DD.MM.YYYY"))).
Proof.
  intros Hok. destruct d as [y m dy].
  pose proof Hok as (Hy & Hm & Hd). simpl in Hy, Hm, Hd.
  unfold MINYEAR, MAXYEAR in Hy.
  pose proof (days_in_month_bounds y m Hm) as Hdim.
  unfold strftime_dmY. simpl year. simpl month. simpl day.
  change (lit ".") with [c_dot]. split.
  - intros H1000. apply Birthday_init_text.
    rewrite (str_int_four y) by lia.
    apply (DDMMYYYY_birthday_text _ y m dy); [ | exact Hok ].
    unfold DDMMYYYY, pad2.
    exists (0x30 + dy / 10 mod 10), (0x30 + dy mod 10),
      (0x30 + m / 10 mod 10), (0x30 + m mod 10),
      (0x30 + y / 1000), (0x30 + y / 100 mod 10),
      (0x30 + y / 10 mod 10), (0x30 + y mod 10).
    split; [ reflexivity | ]. split.
    { repeat (apply Forall_cons; split; [ | ]);
        try apply digit_char_ascii; try apply Forall_nil_2.
      unfold ascii_digit. apply andb_true_iff. rewrite !Z.leb_le.
      Z.div_mod_to_equations. lia. }
    unfold digit_value, c0.
    repeat split; Z.div_mod_to_equations; lia.
  - intros Hlt.
    destruct (Birthday_init_result
                (pad2 dy ++ [c_dot] ++ pad2 m ++ [c_dot] ++ str_int y))
      as [ (b & Hb) | E ]; [ exfalso | exact E ].
    apply Birthday_init_inv in Hb as (_ & D & M & Y & Es & HD & HM & HY & _).
    cbn [app] in Es.
    apply split_at_first in Es as [<- Es];
      [ | apply pad2_no_dot | now apply re_d_no_dot ].
    apply split_at_first in Es as [<- Es];
      [ | apply pad2_no_dot | now apply re_m_no_dot ].
    apply re_Y_length in HY. rewrite <- Es in HY.
    pose proof (str_int_short y ltac:(lia)). lia.
Qed.

Lemma strftime_read_back_witness :
  Birthday.init (strftime_dmY (mkdate 2024 5 13))
  = Ok (Birthday.mk (strftime_dmY (mkdate 2024 5 13)) (mkdate 2024 5 13)).
Proof.
  apply (proj1 (strftime_read_back (mkdate 2024 5 13)
                  ltac:(unfold date_ok; vm_compute; intuition discriminate))).
  simpl. lia.
Defined.

(** ** The book: insertion and removal together *)

Lemma dict_del_set_fresh {V} (k : pystr) (v : V) (d : dict V) :
  dict_get k d = None -> dict_del k (dict_set k v d) = d.
Proof.
  induction d as [ | [k' v'] d IH ]; simpl.
  - intros _. destruct (pystr_eqb_spec k k); congruence.
  - destruct (pystr_eqb_spec k' k) as [-> | Hne]; [ discriminate | ].
    intros H. simpl. destruct (pystr_eqb_spec k' k); [ congruence | ].
    now rewrite IH.
Qed.

Lemma dict_set_app_fresh {V} (k : pystr) (v : V) (d : dict V) :
  dict_get k d = None -> dict_set k v d = d ++ [(k, v)].
Proof.
  induction d as [ | [k' v'] d IH ]; simpl; [ reflexivity | ].
  destruct (pystr_eqb_spec k' k) as [-> | Hne]; [ discriminate | ].
  intros H. now rewrite IH.
Qed.

(** X11.  Insertion and removal compose as on an ordered dict.  Adding an
    object under a name the book does not hold and deleting that name gives
    the state back.  Deleting a name and adding its object again keeps the
    other entries in their order and puts the entry last; adding the object
    without deleting keeps the entry where it was. *)
Theorem add_delete_compose (st : State) (r : ref) (self : Record_.t) :
  dict_ok (data st) -> heap st !! r = Some self ->
  (AddressBook.find (Name.value (Record_.name self)) st = None ->
   exists st1,
     AddressBook.add_record r st = Some (Ok tt, st1)
     /\ data st1 = data st ++ [(Name.value (Record_.name self), r)]
     /\ AddressBook.delete (Name.value (Record_.name self)) st1 = (Ok tt, st))
  /\ (forall r0 d1 d2,
        data st = d1 ++ (Name.value (Record_.name self), r0) :: d2 ->
        (exists st1 st2,
           AddressBook.delete (Name.value (Record_.name self)) st = (Ok tt, st1)
           /\ AddressBook.add_record r st1 = Some (Ok tt, st2)
           /\ data st2 = d1 ++ d2 ++ [(Name.value (Record_.name self), r)])
        /\ (exists st2,
              AddressBook.add_record r st = Some (Ok tt, st2)
              /\ data st2
                 = d1 ++ (Name.value (Record_.name self), r) :: d2)).
Proof.
  intros Hd Hs. set (name := Name.value (Record_.name self)). split.
  - unfold AddressBook.find. intros Hnone.
    unfold AddressBook.add_record. rewrite Hs. fold name.
    eexists. split; [ reflexivity | ]. simpl.
    split; [ now apply dict_set_app_fresh | ].
    unfold AddressBook.delete, dict_contains. simpl.
    rewrite dict_get_set_eq. simpl. rewrite dict_del_set_fresh by assumption.
    now destruct st.
  - intros r0 d1 d2 Hdata.
    assert (Hget : dict_get name (data st) = Some r0).
    { apply In_dict_get; [ exact Hd | ]. rewrite Hdata.
      apply in_or_app. right. now left. }
    assert (Hd1 : dict_get name d1 = None).
    { apply dict_get_None. unfold dict_ok, dict_keys in Hd.
      rewrite Hdata, map_app in Hd. simpl in Hd.
      apply List.NoDup_remove_2 in Hd. intros Hin. apply Hd.
      apply in_or_app. now left. }
    assert (Hd2 : dict_get name d2 = None).
    { apply dict_get_None. unfold dict_ok, dict_keys in Hd.
      rewrite Hdata, map_app in Hd. simpl in Hd.
      apply List.NoDup_remove_2 in Hd. intros Hin. apply Hd.
      apply in_or_app. now right. }
    assert (Hdel : dict_del name (data st) = d1 ++ d2).
    { rewrite Hdata. clear -Hd1. induction d1 as [ | [k v] d1 IH ]; simpl in *.
      - destruct (pystr_eqb_spec name name); congruence.
      - destruct (pystr_eqb_spec k name); [ discriminate | ].
        now rewrite IH. }
    assert (Hset : dict_set name r (data st) = d1 ++ (name, r) :: d2).
    { rewrite Hdata. clear -Hd1. induction d1 as [ | [k v] d1 IH ]; simpl in *.
      - destruct (pystr_eqb_spec name name); congruence.
      - destruct (pystr_eqb_spec k name); [ discriminate | ].
        now rewrite IH. }
    split.
    + unfold AddressBook.delete, dict_contains. rewrite Hget. simpl.
      eexists. eexists. split; [ reflexivity | ].
      unfold AddressBook.add_record. simpl. rewrite Hs. fold name.
      split; [ reflexivity | ]. simpl. rewrite Hdel.
      rewrite dict_set_app_fresh, <- app_assoc; [ reflexivity | ].
      apply dict_get_None. unfold dict_keys. rewrite map_app.
      intros Hin. apply in_app_or in Hin as [Hin | Hin].
      * now apply (proj1 (dict_get_None name d1) Hd1).
      * now apply (proj1 (dict_get_None name d2) Hd2).
    + unfold AddressBook.add_record. rewrite Hs. fold name.
      eexists. split; [ reflexivity | ]. simpl. exact Hset.
Qed.

Lemma add_delete_compose_witness :
  exists st1 st2,
    AddressBook.delete (lit "Ann") sample_state = (Ok tt, st1)
    /\ AddressBook.add_record 0%nat st1 = Some (Ok tt, st2)
    /\ data st2 = [] ++ [(lit "Bob", 1%nat)] ++ [(lit "Ann", 0%nat)].
Proof.
  apply (proj2 (add_delete_compose sample_state 0%nat ann
                  (proj1 sample_state_wf) eq_refl)
           0%nat [] [(lit "Bob", 1%nat)]).
  reflexivity.
Defined.

(** * The handlers *)

(** ** The methods, as the handlers call them *)

Lemma Phone_init_cases (s : pystr) :
  (valid_phone s /\ Phone.init s = Ok (Phone.mk s))
  \/ (~ valid_phone s
      /\ Phone.init s
         = Raise (ValueError
                    (lit "Wrong format! Phone number must be 10 digits long."))).
Proof.
  unfold Phone.init.
  destruct (Phone_validate_cases s) as [E | E]; rewrite E; simpl.
  - left. split; [ now apply Phone_validate_ok | reflexivity ].
  - right. split; [ | reflexivity ].
    intros Hv. apply Phone_validate_ok in Hv. congruence.
Qed.

Lemma add_phone_run (phone : pystr) (self : Record_.t) :
  Record_.add_phone phone self
  = match Phone.init phone with
    | Ok p => (Ok tt, Record_.mk (Record_.name self)
                                 (Record_.phones self ++ [p])
                                 (Record_.birthday self))
    | Raise e => (Raise e, self)
    end.
Proof.
  unfold Record_.add_phone, bind, call, modify.
  now destruct (Phone.init phone).
Qed.

Lemma edit_phone_first_run (new_phone : pystr) (self : Record_.t)
    (p : Phone.t) (rest : list Phone.t) :
  Record_.phones self = p :: rest ->
  Record_.edit_phone (Phone.value p) new_phone self
  = match Phone.init new_phone with
    | Ok p' => (Ok tt, Record_.mk (Record_.name self) (p' :: rest)
                                  (Record_.birthday self))
    | Raise e => (Raise e, self)
    end.
Proof.
  intros Hps. unfold Record_.edit_phone at 1, bind at 1, gets. rewrite Hps.
  rewrite (edit_phone_loop_first [] rest p (Phone.value p) new_phone
             ltac:(intros q []) eq_refl 0%nat).
  unfold bind, call, modify. destruct (Phone.init new_phone); [ | reflexivity ].
  unfold Record_.set_phones. now rewrite Hps.
Qed.

Lemma add_birthday_run (s : pystr) (self : Record_.t) :
  Record_.add_birthday s self
  = match Birthday.init s with
    | Ok b => (Ok tt, Record_.mk (Record_.name self) (Record_.phones self)
                                 (Some b))
    | Raise e => (Raise e, self)
    end.
Proof.
  unfold Record_.add_birthday, bind, call, modify.
  now destruct (Birthday.init s).
Qed.

Lemma Birthday_init_again (s : pystr) (b : Birthday.t) :
  Birthday.init s = Ok b -> Birthday.init (Birthday.value b) = Ok b.
Proof.
  intros Hb.
  destruct (Birthday_init_cases s) as [ (dt & Hp & E) | (_ & E) ];
    rewrite E in Hb; [ | discriminate ].
  injection Hb as <-. exact E.
Qed.

Lemma on_record_run {A} (r : ref) (m : M Record_.t A) (st : State)
    (self : Record_.t) :
  heap st !! r = Some self ->
  on_record r m st
  = Some (fst (m self), mkState (<[r := snd (m self)]> (heap st)) (data st)).
Proof.
  intros Hs. unfold on_record. rewrite Hs. now destruct (m self).
Qed.

Lemma state_insert_id (st : State) (r : ref) (self : Record_.t) :
  heap st !! r = Some self ->
  mkState (<[r := self]> (heap st)) (data st) = st.
Proof. intros Hs. rewrite list_insert_id by exact Hs. now destruct st. Qed.


(** ** The invariant of the handlers *)

Lemma handler_inv_init : handler_inv init_state.
Proof.
  split; [ constructor | ]. split; [ intros k r [] | ].
  intros r self H. destruct r; discriminate.
Qed.

Lemma handler_inv_inv (st : State) : handler_inv st -> inv st.
Proof.
  intros (Hd & Hrefs & Hrec). split; [ exact Hd | ]. split.
  - intros k r Hin. destruct (Hrefs k r Hin) as (self & Hs & Hn & _). eauto.
  - intros r self Hs. apply (Hrec r self Hs).
Qed.

Lemma handler_inv_wf (st : State) : handler_inv st -> wf_state st.
Proof. intros H. apply inv_wf, handler_inv_inv, H. Qed.

Lemma handler_inv_find (st : State) (name : pystr) (r : ref) :
  handler_inv st -> AddressBook.find name st = Some r ->
  exists self p rest,
    heap st !! r = Some self
    /\ Name.value (Record_.name self) = name
    /\ Record_.phones self = p :: rest.
Proof.
  intros (Hd & Hrefs & _) Hf. apply dict_get_In in Hf.
  destruct (Hrefs _ _ Hf) as (self & Hs & Hn & Hp).
  destruct (Record_.phones self) as [ | p rest ] eqn:E; [ congruence | ].
  exists self, p, rest. auto.
Qed.

(** An object of the heap is replaced by one of the same name that is as
    the handlers keep it and has a phone if the old one had. *)
Lemma handler_inv_update (st : State) (r : ref) (self self' : Record_.t) :
  handler_inv st -> heap st !! r = Some self ->
  record_hok self' -> Record_.name self' = Record_.name self ->
  (Record_.phones self <> [] -> Record_.phones self' <> []) ->
  handler_inv (mkState (<[r := self']> (heap st)) (data st)).
Proof.
  intros (Hd & Hrefs & Hrec) Hs Hok Hname Hph.
  pose proof (lookup_lt_Some _ _ _ Hs) as Hlt.
  split; [ exact Hd | ]. simpl. split.
  - intros k r0 Hin. destruct (Hrefs _ _ Hin) as (self0 & Hs0 & Hn0 & Hp0).
    destruct (decide (r = r0)) as [<- | Hne].
    + exists self'. rewrite list_lookup_insert_eq by assumption.
      assert (self0 = self) as -> by congruence.
      split; [ reflexivity | ]. split; [ congruence | auto ].
    + exists self0. now rewrite list_lookup_insert_ne.
  - intros r0 self0 H0. apply list_lookup_insert_Some in H0
      as [(_ & <- & _) | (_ & H0)]; [ assumption | eauto ].
Qed.

Lemma handler_inv_alloc (st : State) (self : Record_.t) :
  handler_inv st -> record_hok self ->
  handler_inv (mkState (heap st ++ [self]) (data st)).
Proof.
  intros (Hd & Hrefs & Hrec) Hok. split; [ exact Hd | ]. simpl. split.
  - intros k r Hin. destruct (Hrefs _ _ Hin) as (self0 & Hs & Hn & Hp).
    exists self0. split; [ | auto ].
    rewrite lookup_app_l; [ assumption | eapply lookup_lt_Some, Hs ].
  - intros r self0 H. apply lookup_snoc_Some in H as [ [_ H] | [_ <-] ];
      [ eauto | assumption ].
Qed.

Lemma handler_inv_add_record (st : State) (r : ref) (self : Record_.t) :
  handler_inv st -> heap st !! r = Some self -> Record_.phones self <> [] ->
  handler_inv (mkState (heap st)
                 (dict_set (Name.value (Record_.name self)) r (data st))).
Proof.
  intros (Hd & Hrefs & Hrec) Hs Hp. split; [ now apply dict_ok_set | ].
  simpl. split; [ | exact Hrec ].
  intros k r0 Hin. apply In_dict_set in Hin as [ [= -> ->] | Hin ]; eauto.
Qed.

Lemma record_hok_init (name : pystr) : record_hok (Record_.init name).
Proof.
  split; [ split | ]; simpl; try discriminate. intros p [].
Qed.

Lemma record_hok_add_phone (self : Record_.t) (phone : pystr) :
  record_hok self -> valid_phone phone ->
  record_hok (Record_.mk (Record_.name self)
                (Record_.phones self ++ [Phone.mk phone])
                (Record_.birthday self)).
Proof.
  intros ((Hb & Hp) & Hbi) Hv. split; [ split | ]; simpl; auto.
  intros q Hq. apply in_app_or in Hq as [Hq | [<- | []]]; [ auto | ].
  simpl. split; [ assumption | ].
  now apply (valid_phone_init (Phone.mk phone)).
Qed.

Lemma record_hok_edit_first (self : Record_.t) (p : Phone.t)
    (rest : list Phone.t) (new_phone : pystr) :
  record_hok self -> Record_.phones self = p :: rest -> valid_phone new_phone ->
  record_hok (Record_.mk (Record_.name self) (Phone.mk new_phone :: rest)
                (Record_.birthday self)).
Proof.
  intros ((Hb & Hp) & Hbi) Hps Hv. split; [ split | ]; simpl; auto.
  intros q [<- | Hq].
  - simpl. split; [ assumption | ].
    now apply (valid_phone_init (Phone.mk new_phone)).
  - apply Hp. rewrite Hps. now right.
Qed.

Lemma record_hok_add_birthday (self : Record_.t) (s : pystr) (b : Birthday.t) :
  record_hok self -> Birthday.init s = Ok b ->
  record_hok (Record_.mk (Record_.name self) (Record_.phones self) (Some b)).
Proof.
  intros ((Hb & Hp) & Hbi) Hi. split; [ split | ]; simpl; auto.
  - intros b' [= <-]. now apply Birthday_init_ok in Hi.
  - intros b' [= <-]. eapply Birthday_init_again, Hi.
Qed.

(** ** What each handler returns *)

Lemma unpack2_other (args : list pystr) :
  length args <> 2%nat ->
  exists msg,
    unpack2 args = Raise (ValueError msg)
    /\ ((2 < length args)%nat ->
        msg = lit "too many values to unpack (expected 2)")
    /\ ((length args < 2)%nat ->
        msg = lit "not enough values to unpack (expected 2, got "
              ++ str_int (Z.of_nat (length args)) ++ lit ")").
Proof.
  destruct args as [ | a [ | b [ | c args ] ] ]; simpl; intros Hl;
    try lia; eexists; (split; [ reflexivity | split; intros; [ | ]; try lia;
                                 reflexivity ]).
Qed.

Section Handlers.
Variable st : State.
Hypothesis st_inv : handler_inv st.

Lemma add_contact_known (name phone : pystr) (r : ref) (self : Record_.t) :
  AddressBook.find name st = Some r -> heap st !! r = Some self ->
  (valid_phone phone ->
   add_contact [name; phone] st
   = Some (Says (lit "Phone " ++ phone ++ lit " added to contact " ++ name
                 ++ lit "."),
           mkState (<[r := Record_.mk (Record_.name self)
                             (Record_.phones self ++ [Phone.mk phone])
                             (Record_.birthday self)]> (heap st))
                   (data st)))
  /\ (~ valid_phone phone ->
      add_contact [name; phone] st
      = Some (Says (lit "Wrong format! Phone number must be 10 digits long."),
              st)).
Proof.
  intros Hf Hs.
  unfold add_contact, input_error, add_contact_body, hbind, of_result, hgets,
    of_call. cbn [unpack2]. rewrite Hf.
  rewrite (on_record_run _ _ _ _ Hs), add_phone_run.
  destruct (Phone_init_cases phone) as [ [Hv E] | [Hn E] ]; rewrite E;
    cbn [fst snd caught]; (split; intros H; [ | ]); try contradiction;
    try reflexivity.
  now rewrite (state_insert_id _ _ _ Hs).
Qed.

Lemma add_contact_new (name phone : pystr) :
  AddressBook.find name st = None ->
  (valid_phone phone ->
   add_contact [name; phone] st
   = Some (Says (lit "Contact " ++ name ++ lit " with phone " ++ phone
                 ++ lit " added."),
           mkState (heap st ++ [Record_.mk (Name.mk name) [Phone.mk phone] None])
                   (data st ++ [(name, length (heap st))])))
  /\ (~ valid_phone phone ->
      add_contact [name; phone] st
      = Some (Says (lit "Wrong format! Phone number must be 10 digits long."),
              mkState (heap st ++ [Record_.init name]) (data st))).
Proof.
  intros Hf.
  unfold add_contact, input_error, add_contact_body, hbind, of_result, hgets,
    of_call, new_record. cbn [unpack2]. rewrite Hf.
  assert (Hs : heap (mkState (heap st ++ [Record_.init name]) (data st))
               !! length (heap st) = Some (Record_.init name))
    by (now apply list_lookup_middle).
  rewrite (on_record_run _ _ _ _ Hs), add_phone_run.
  destruct (Phone_init_cases phone) as [ [Hv E] | [Hn E] ]; rewrite E;
    cbn [fst snd caught heap data]; (split; intros H; [ | ]);
    try contradiction.
  - unfold AddressBook.add_record. cbn [heap data].
    rewrite insert_middle.
    rewrite (list_lookup_middle (heap st) [] _ (length (heap st)) eq_refl).
    cbn [Record_.name Name.value Record_.init Name.init app].
    rewrite dict_set_app_fresh by exact Hf. reflexivity.
  - now rewrite insert_middle.
Qed.

Lemma change_contact_known (name new_phone : pystr) (r : ref)
    (self : Record_.t) (p : Phone.t) (rest : list Phone.t) :
  AddressBook.find name st = Some r -> heap st !! r = Some self ->
  Record_.phones self = p :: rest ->
  (valid_phone new_phone ->
   change_contact [name; new_phone] st
   = Some (Says (lit "Phone number for " ++ name ++ lit " changed to "
                 ++ new_phone ++ lit "."),
           mkState (<[r := Record_.mk (Record_.name self)
                             (Phone.mk new_phone :: rest)
                             (Record_.birthday self)]> (heap st))
                   (data st)))
  /\ (~ valid_phone new_phone ->
      change_contact [name; new_phone] st
      = Some (Says (lit "Wrong format! Phone number must be 10 digits long."),
              st)).
Proof.
  intros Hf Hs Hps.
  unfold change_contact, input_error, change_contact_body, hbind, of_result,
    hgets, of_call, deref, item0, hret. cbn [unpack2]. rewrite Hf, Hs, Hps.
  rewrite (on_record_run _ _ _ _ Hs), (edit_phone_first_run _ _ _ _ Hps).
  destruct (Phone_init_cases new_phone) as [ [Hv E] | [Hn E] ]; rewrite E;
    cbn [fst snd caught]; (split; intros H; [ | ]); try contradiction;
    try reflexivity.
  now rewrite (state_insert_id _ _ _ Hs).
Qed.

Lemma change_contact_unknown (name new_phone : pystr) :
  AddressBook.find name st = None ->
  change_contact [name; new_phone] st
  = Some (Says (lit "No contact with name " ++ name ++ lit " found."), st).
Proof.
  intros Hf.
  unfold change_contact, input_error, change_contact_body, hbind, of_result,
    hgets. cbn [unpack2]. now rewrite Hf.
Qed.

Lemma add_birthday_known (name s : pystr) (r : ref) (self : Record_.t) :
  AddressBook.find name st = Some r -> heap st !! r = Some self ->
  (forall b, Birthday.init s = Ok b ->
     add_birthday [name; s] st
     = Some (Says (lit "Birthday " ++ s ++ lit " added to contact " ++ name
                   ++ lit "."),
             mkState (<[r := Record_.mk (Record_.name self)
                               (Record_.phones self) (Some b)]> (heap st))
                     (data st)))
  /\ (Birthday.init s
      = Raise (ValueError (lit "Invalid date format. Use DD.MM.YYYY")) ->
      add_birthday [name; s] st
      = Some (Says (lit "Invalid date format. Use DD.MM.YYYY"), st)).
Proof.
  intros Hf Hs.
  unfold add_birthday, input_error, add_birthday_body, hbind, of_result, hgets,
    of_call. cbn [unpack2]. rewrite Hf.
  rewrite (on_record_run _ _ _ _ Hs), add_birthday_run.
  split; [ intros b E | intros E ]; rewrite E; cbn [fst snd caught];
    [ reflexivity | ].
  now rewrite (state_insert_id _ _ _ Hs).
Qed.

Lemma add_birthday_unknown (name s : pystr) :
  AddressBook.find name st = None ->
  add_birthday [name; s] st
  = Some (Says (lit "No contact with name " ++ name ++ lit " found."), st).
Proof.
  intros Hf.
  unfold add_birthday, input_error, add_birthday_body, hbind, of_result, hgets.
  cbn [unpack2]. now rewrite Hf.
Qed.

Lemma handler_arity (args : list pystr) :
  length args <> 2%nat ->
  exists msg,
    unpack2 args = Raise (ValueError msg)
    /\ add_contact args st = Some (Says msg, st)
    /\ change_contact args st = Some (Says msg, st)
    /\ add_birthday args st = Some (Says msg, st).
Proof.
  intros Hl. destruct (unpack2_other args Hl) as (msg & E & _).
  exists msg. split; [ exact E | ].
  unfold add_contact, change_contact, add_birthday, input_error,
    add_contact_body, change_contact_body, add_birthday_body, hbind, of_result.
  rewrite E. auto.
Qed.

Lemma show_phone_known (name : pystr) (args : list pystr) (r : ref)
    (self : Record_.t) :
  AddressBook.find name st = Some r -> heap st !! r = Some self ->
  show_phone (name :: args) st
  = Some (Says (name ++ lit "'s phone numbers are: "
                ++ join (lit "; ") (map Phone.value (Record_.phones self))),
          st).
Proof.
  intros Hf Hs.
  destruct (handler_inv_find st name r st_inv Hf)
    as (self' & p & rest & Hs' & _ & Hps).
  assert (self' = self) as -> by congruence.
  unfold show_phone, input_error, show_phone_body, hbind, hgets, deref, item0,
    hret. rewrite Hf, Hs, Hps. reflexivity.
Qed.

Lemma show_phone_unknown (name : pystr) (args : list pystr) :
  AddressBook.find name st = None ->
  show_phone (name :: args) st
  = Some (Says (lit "No phone numbers for " ++ name ++ lit " found."), st).
Proof.
  intros Hf.
  unfold show_phone, input_error, show_phone_body, hbind, hgets, item0, hret.
  now rewrite Hf.
Qed.

Lemma show_birthday_known (name : pystr) (args : list pystr) (r : ref)
    (self : Record_.t) :
  AddressBook.find name st = Some r -> heap st !! r = Some self ->
  show_birthday (name :: args) st
  = Some (Says (match Record_.birthday self with
                | Some b => name ++ lit "'s birthday is on " ++ Birthday.value b
                | None => lit "No birthday information for " ++ name ++ lit "."
                end),
          st).
Proof.
  intros Hf Hs.
  unfold show_birthday, input_error, show_birthday_body, hbind, hgets, deref,
    item0, hret. rewrite Hf, Hs. now destruct (Record_.birthday self).
Qed.

Lemma show_birthday_unknown (name : pystr) (args : list pystr) :
  AddressBook.find name st = None ->
  show_birthday (name :: args) st
  = Some (Says (lit "No birthday information for " ++ name ++ lit "."), st).
Proof.
  intros Hf.
  unfold show_birthday, input_error, show_birthday_body, hbind, hgets, item0,
    hret. now rewrite Hf.
Qed.

Lemma show_no_args :
  show_phone [] st = Some (Says (lit "list index out of range"), st)
  /\ show_birthday [] st = Some (Says (lit "list index out of range"), st).
Proof. split; reflexivity. Qed.

End Handlers.

(** ** Every handler answers *)

Lemma birthdays_cases (w : World) (st : State) :
  wf_world w -> handler_inv st ->
  exists s, birthdays w st = Some (Says s, st).
Proof.
  intros Hw Hinv. unfold birthdays, input_error, birthdays_body, hbind, of_call.
  destruct (query_cases w st Hw (handler_inv_wf st Hinv))
    as [ (out & E) | (msg & E) ]; rewrite E.
  - destruct out; eexists; reflexivity.
  - eexists. reflexivity.
Qed.

Lemma show_all_cases (st : State) :
  handler_inv st -> exists s, show_all st = Some (Says s, st).
Proof.
  intros Hinv. unfold show_all, input_error, show_all_body, hbind, hgets.
  destruct (data st) as [ | kr d ] eqn:Ed; [ eexists; reflexivity | ].
  destruct (values_total st (handler_inv_wf st Hinv)) as (records & Hv).
  rewrite Hv. eexists. reflexivity.
Qed.

Lemma grows_refl (st : State) : grows st st.
Proof.
  split; [ exists []; now rewrite app_nil_r | ].
  intros r self Hs. exists self. auto.
Qed.

Lemma grows_trans (st1 st2 st3 : State) :
  grows st1 st2 -> grows st2 st3 -> grows st1 st3.
Proof.
  intros [(m1 & E1) H1] [(m2 & E2) H2]. split.
  - exists (m1 ++ m2). now rewrite E2, E1, app_assoc.
  - intros r self Hs.
    destruct (H1 r self Hs) as (self1 & Hs1 & Hn1 & Hp1 & Hb1).
    destruct (H2 r self1 Hs1) as (self2 & Hs2 & Hn2 & Hp2 & Hb2).
    exists self2. repeat split; [ assumption | congruence | lia | auto ].
Qed.

Lemma grows_update (st : State) (r : ref) (self self' : Record_.t) :
  heap st !! r = Some self ->
  Record_.name self' = Record_.name self ->
  (length (Record_.phones self) <= length (Record_.phones self'))%nat ->
  (Record_.birthday self <> None -> Record_.birthday self' <> None) ->
  grows st (mkState (<[r := self']> (heap st)) (data st)).
Proof.
  intros Hs Hn Hp Hb. split; [ exists []; simpl; now rewrite app_nil_r | ].
  intros r0 self0 Hs0. simpl.
  destruct (Nat.eq_dec r0 r) as [-> | Hne].
  - exists self'. assert (self0 = self) as -> by congruence.
    split; [ | auto ].
    apply list_lookup_insert_eq. now apply lookup_lt_Some in Hs.
  - exists self0. rewrite list_lookup_insert_ne by congruence. auto.
Qed.

Lemma grows_alloc (st : State) (self : Record_.t) (more : dict ref) :
  grows st (mkState (heap st ++ [self]) (data st ++ more)).
Proof.
  split; [ now exists more | ].
  intros r self0 Hs0. exists self0. simpl.
  split; [ now apply lookup_app_l_Some | auto ].
Qed.

(** A call of a handler in a state of the invariant returns a string,
    leaves a state of the invariant, and removes nothing. *)
Lemma handle_step (c : command) (st : State) :
  command_ok c -> handler_inv st ->
  exists s st',
    handle c st = Some (Says s, st') /\ handler_inv st' /\ grows st st'.
Proof.
  intros Hc Hinv. pose proof Hinv as (Hd & Hrefs & Hrec).
  pose proof (grows_refl st) as Hsame.
  destruct c as [ args | args | args | | args | args | w ]; simpl handle.
  - (* add *)
    destruct (Nat.eq_dec (length args) 2%nat) as [Hl | Hl].
    + destruct args as [ | name [ | phone [ | ? ? ] ] ]; try discriminate Hl.
      destruct (AddressBook.find name st) as [r | ] eqn:Hf.
      * destruct (handler_inv_find st name r Hinv Hf)
          as (self & p & rest & Hs & Hn & Hps).
        destruct (add_contact_known st name phone r self Hf Hs) as [H1 H2].
        destruct (Phone_init_cases phone) as [ [Hv _] | [Hn' _] ].
        -- rewrite (H1 Hv). eexists. eexists. split; [ reflexivity | ].
           split.
           ++ apply (handler_inv_update st r self);
                [ assumption | assumption | | reflexivity | ].
              ** apply record_hok_add_phone; [ now apply (Hrec r) | assumption ].
              ** simpl. intros _. now destruct (Record_.phones self).
           ++ apply (grows_update st r self); [ assumption | reflexivity | | auto ].
              simpl. rewrite length_app. lia.
        -- rewrite (H2 Hn'). eauto.
      * destruct (add_contact_new st name phone Hf) as [H1 H2].
        destruct (Phone_init_cases phone) as [ [Hv _] | [Hn' _] ].
        -- rewrite (H1 Hv). eexists. eexists. split; [ reflexivity | ].
           split; [ | apply grows_alloc ].
           assert (Hnew : record_hok (Record_.mk (Name.mk name)
                                        [Phone.mk phone] None)).
           { apply (record_hok_add_phone (Record_.init name) phone);
               [ apply record_hok_init | assumption ]. }
           pose proof (handler_inv_alloc st _ Hinv Hnew) as Ha.
           pose proof (handler_inv_add_record _ (length (heap st)) _ Ha
                         (list_lookup_middle (heap st) [] _ _ eq_refl)
                         ltac:(discriminate)) as Hb.
           simpl in Hb. rewrite dict_set_app_fresh in Hb by exact Hf.
           exact Hb.
        -- rewrite (H2 Hn'). eexists. eexists. split; [ reflexivity | ].
           split.
           ++ apply handler_inv_alloc; [ assumption | apply record_hok_init ].
           ++ rewrite <- (app_nil_r (data st)). apply grows_alloc.
    + destruct (handler_arity st args Hl) as (msg & _ & E & _ & _).
      rewrite E. eauto.
  - (* change *)
    destruct (Nat.eq_dec (length args) 2%nat) as [Hl | Hl].
    + destruct args as [ | name [ | phone [ | ? ? ] ] ]; try discriminate Hl.
      destruct (AddressBook.find name st) as [r | ] eqn:Hf.
      * destruct (handler_inv_find st name r Hinv Hf)
          as (self & p & rest & Hs & Hn & Hps).
        destruct (change_contact_known st name phone r self p rest Hf Hs Hps)
          as [H1 H2].
        destruct (Phone_init_cases phone) as [ [Hv _] | [Hn' _] ].
        -- rewrite (H1 Hv). eexists. eexists. split; [ reflexivity | ].
           split.
           ++ apply (handler_inv_update st r self);
                [ assumption | assumption | | reflexivity | ].
              ** eapply record_hok_edit_first; eauto.
              ** simpl. discriminate.
           ++ apply (grows_update st r self); [ assumption | reflexivity | | auto ].
              rewrite Hps. simpl. lia.
        -- rewrite (H2 Hn'). eauto.
      * rewrite (change_contact_unknown st name phone Hf). eauto.
    + destruct (handler_arity st args Hl) as (msg & _ & _ & E & _).
      rewrite E. eauto.
  - (* phone *)
    destruct args as [ | name args ];
      [ rewrite (proj1 (show_no_args st)); eauto | ].
    destruct (AddressBook.find name st) as [r | ] eqn:Hf.
    + destruct (handler_inv_find st name r Hinv Hf)
        as (self & p & rest & Hs & Hn & Hps).
      rewrite (show_phone_known st Hinv name args r self Hf Hs). eauto.
    + rewrite (show_phone_unknown st name args Hf). eauto.
  - (* all *)
    destruct (show_all_cases st Hinv) as (s & E). rewrite E. eauto.
  - (* add-birthday *)
    destruct (Nat.eq_dec (length args) 2%nat) as [Hl | Hl].
    + destruct args as [ | name [ | s [ | ? ? ] ] ]; try discriminate Hl.
      destruct (AddressBook.find name st) as [r | ] eqn:Hf.
      * destruct (handler_inv_find st name r Hinv Hf)
          as (self & p & rest & Hs & Hn & Hps).
        destruct (add_birthday_known st name s r self Hf Hs) as [H1 H2].
        destruct (Birthday_init_result s) as [ (b & Hb) | Hb ].
        -- rewrite (H1 b Hb). eexists. eexists. split; [ reflexivity | ].
           split.
           ++ apply (handler_inv_update st r self);
                [ assumption | assumption | | reflexivity | auto ].
              eapply record_hok_add_birthday; eauto.
           ++ apply (grows_update st r self);
                [ assumption | reflexivity | simpl; lia | ].
              simpl. discriminate.
        -- rewrite (H2 Hb). eauto.
      * rewrite (add_birthday_unknown st name s Hf). eauto.
    + destruct (handler_arity st args Hl) as (msg & _ & _ & _ & E).
      rewrite E. eauto.
  - (* show-birthday *)
    destruct args as [ | name args ];
      [ rewrite (proj2 (show_no_args st)); eauto | ].
    destruct (AddressBook.find name st) as [r | ] eqn:Hf.
    + destruct (handler_inv_find st name r Hinv Hf)
        as (self & p & rest & Hs & Hn & Hps).
      rewrite (show_birthday_known st name args r self Hf Hs). eauto.
    + rewrite (show_birthday_unknown st name args Hf). eauto.
  - (* birthdays *)
    destruct (birthdays_cases w st Hc Hinv) as (s & E). rewrite E. eauto.
Qed.

Lemma handle_inv (c : command) (st : State) :
  command_ok c -> handler_inv st ->
  exists s st', handle c st = Some (Says s, st') /\ handler_inv st'.
Proof.
  intros Hc Hinv.
  destruct (handle_step c st Hc Hinv) as (s & st' & E & Hinv' & _). eauto.
Qed.

Lemma handle_all_inv (cs : list command) :
  Forall command_ok cs ->
  forall st, handler_inv st ->
  exists st', handle_all cs st = Some st' /\ handler_inv st'.
Proof.
  induction 1 as [ | c cs Hc Hcs IH ]; intros st Hinv; simpl.
  - eauto.
  - destruct (handle_inv c st Hc Hinv) as (s & st1 & E & Hinv1).
    rewrite E. apply IH, Hinv1.
Qed.

Lemma handle_all_grows (cs : list command) :
  Forall command_ok cs ->
  forall st st', handler_inv st -> handle_all cs st = Some st' -> grows st st'.
Proof.
  induction 1 as [ | c cs Hc Hcs IH ]; intros st st' Hinv; simpl.
  - intros [= <-]. apply grows_refl.
  - destruct (handle_step c st Hc Hinv) as (s & st1 & E & Hinv1 & Hg).
    rewrite E. intros Hrun. eapply grows_trans; [ exact Hg | ].
    now apply IH.
Qed.

Lemma handle_all_reaches (cs : list command) (st : State) :
  Forall command_ok cs -> handle_all cs init_state = Some st -> handler_inv st.
Proof.
  intros Hcs Hrun.
  destruct (handle_all_inv cs Hcs init_state handler_inv_init) as (st' & E & H).
  congruence.
Qed.

Lemma demo_commands_ok : Forall command_ok demo_commands.
Proof. repeat constructor. Qed.

Lemma demo_state_run : handle_all demo_commands init_state = Some demo_state.
Proof. vm_compute. reflexivity. Qed.

Lemma demo_state_inv : handler_inv demo_state.
Proof. exact (handle_all_reaches _ _ demo_commands_ok demo_state_run). Qed.

(** * Properties of the handlers *)

(** X12.  Whatever handlers were called before, with whatever arguments, a
    call of a handler returns a string: [input_error] catches every
    exception a handler can raise, none escapes, and no call meets an
    object that does not exist. *)
Theorem handlers_always_answer (cs : list command) (c : command) :
  Forall command_ok cs -> command_ok c ->
  exists st s st',
    handle_all cs init_state = Some st
    /\ handle c st = Some (Says s, st').
Proof.
  intros Hcs Hc.
  destruct (handle_all_inv cs Hcs init_state handler_inv_init)
    as (st & Hrun & Hinv).
  destruct (handle_inv c st Hc Hinv) as (s & st' & E & _).
  exists st, s, st'. auto.
Qed.

Lemma handlers_always_answer_witness :
  exists st s st',
    handle_all demo_commands init_state = Some st
    /\ handle (CmdBirthdays friday_morning) st = Some (Says s, st').
Proof.
  apply (handlers_always_answer demo_commands (CmdBirthdays friday_morning)
           demo_commands_ok friday_morning_wf).
Defined.

(** X13.  In every state that calls of the handlers reach, every name of
    the book leads to a record of that name which has at least one phone;
    its phones pass the validation, and its birthday, if it has one, holds
    a string that [Birthday] accepts together with the date of that
    string. *)
Theorem contacts_keep_a_phone (cs : list command) (st : State)
    (name : pystr) (r : ref) :
  Forall command_ok cs -> handle_all cs init_state = Some st ->
  AddressBook.find name st = Some r ->
  exists self,
    heap st !! r = Some self
    /\ Name.value (Record_.name self) = name
    /\ Record_.phones self <> []
    /\ (forall p, In p (Record_.phones self) -> valid_phone (Phone.value p))
    /\ (forall b, Record_.birthday self = Some b ->
          birthday_text (Birthday.value b) (Birthday.date b)).
Proof.
  intros Hcs Hrun Hf. pose proof (handle_all_reaches cs st Hcs Hrun) as Hinv.
  destruct (handler_inv_find st name r Hinv Hf)
    as (self & p & rest & Hs & Hn & Hps).
  destruct Hinv as (_ & _ & Hrec). destruct (Hrec r self Hs) as ((_ & Hp) & Hb).
  exists self. split; [ assumption | ]. split; [ assumption | ].
  split; [ rewrite Hps; discriminate | ]. split.
  - intros q Hq. now apply Hp.
  - intros b Eb. apply (Birthday_init_inv _ _ (Hb b Eb)).
Qed.

Lemma contacts_keep_a_phone_witness :
  exists self,
    heap demo_state !! 0%nat = Some self /\ Record_.phones self <> [].
Proof.
  destruct (contacts_keep_a_phone demo_commands demo_state (lit "Ann") 0%nat
              demo_commands_ok demo_state_run eq_refl)
    as (self & Hs & _ & Hp & _).
  exists self. split; assumption.
Defined.

(** X14.  [change_contact] with a name and a new phone, in a state the
    handlers reach: for a name of the book it replaces the first phone of
    the record by the new one, keeps the other phones, and says so, or,
    when the new phone fails the validation, says the validation error and
    changes nothing; it never meets an empty list of phones and never says
    that the old phone is not found.  For a name that is not in the book it
    says that there is no such contact and changes nothing. *)
Theorem change_contact_spec (st : State) (name new_phone : pystr) :
  handler_inv st ->
  (AddressBook.find name st = None ->
   change_contact [name; new_phone] st
   = Some (Says (lit "No contact with name " ++ name ++ lit " found."), st))
  /\ (forall r, AddressBook.find name st = Some r ->
        exists self p rest,
          heap st !! r = Some self /\ Record_.phones self = p :: rest
          /\ (valid_phone new_phone ->
              change_contact [name; new_phone] st
              = Some (Says (lit "Phone number for " ++ name
                            ++ lit " changed to " ++ new_phone ++ lit "."),
                      mkState (<[r := Record_.mk (Record_.name self)
                                        (Phone.mk new_phone :: rest)
                                        (Record_.birthday self)]> (heap st))
                              (data st)))
          /\ (~ valid_phone new_phone ->
              change_contact [name; new_phone] st
              = Some (Says (lit "Wrong format! Phone number must be 10 digits long."),
                      st))).
Proof.
  intros Hinv. split.
  - apply change_contact_unknown.
  - intros r Hf.
    destruct (handler_inv_find st name r Hinv Hf)
      as (self & p & rest & Hs & _ & Hps).
    exists self, p, rest. split; [ assumption | ]. split; [ assumption | ].
    apply (change_contact_known st name new_phone r self p rest Hf Hs Hps).
Qed.

Lemma change_contact_spec_witness :
  exists self p rest,
    heap demo_state !! 0%nat = Some self /\ Record_.phones self = p :: rest
    /\ (valid_phone (lit "0000000000") ->
        change_contact [lit "Ann"; lit "0000000000"] demo_state
        = Some (Says (lit "Phone number for " ++ lit "Ann"
                      ++ lit " changed to " ++ lit "0000000000" ++ lit "."),
                mkState (<[0%nat := Record_.mk (Record_.name self)
                                     (Phone.mk (lit "0000000000") :: rest)
                                     (Record_.birthday self)]> (heap demo_state))
                        (data demo_state))).
Proof.
  destruct (proj2 (change_contact_spec demo_state (lit "Ann") (lit "0000000000")
                     demo_state_inv) 0%nat eq_refl)
    as (self & p & rest & Hs & Hps & Hv & _).
  exists self, p, rest. auto.
Defined.

(** X15.  [add_contact] with a name and a phone.  With a phone that passes
    the validation: for a name of the book it appends the phone to the
    record of that name, and for a new name it puts a new record with that
    one phone at the end of the book; it says which of the two it did.
    With any other phone it says the validation error; the book and the
    records it holds are as they were (for a new name an empty record was
    created and is not in the book). *)
Theorem add_contact_spec (st : State) (name phone : pystr) :
  (forall r self,
     AddressBook.find name st = Some r -> heap st !! r = Some self ->
     (valid_phone phone ->
      add_contact [name; phone] st
      = Some (Says (lit "Phone " ++ phone ++ lit " added to contact " ++ name
                    ++ lit "."),
              mkState (<[r := Record_.mk (Record_.name self)
                                (Record_.phones self ++ [Phone.mk phone])
                                (Record_.birthday self)]> (heap st))
                      (data st)))
     /\ (~ valid_phone phone ->
         add_contact [name; phone] st
         = Some (Says (lit "Wrong format! Phone number must be 10 digits long."),
                 st)))
  /\ (AddressBook.find name st = None ->
      (valid_phone phone ->
       add_contact [name; phone] st
       = Some (Says (lit "Contact " ++ name ++ lit " with phone " ++ phone
                     ++ lit " added."),
               mkState (heap st
                        ++ [Record_.mk (Name.mk name) [Phone.mk phone] None])
                       (data st ++ [(name, length (heap st))])))
      /\ (~ valid_phone phone ->
          add_contact [name; phone] st
          = Some (Says (lit "Wrong format! Phone number must be 10 digits long."),
                  mkState (heap st ++ [Record_.init name]) (data st)))).
Proof.
  split.
  - intros r self Hf Hs. apply (add_contact_known st name phone r self Hf Hs).
  - apply add_contact_new.
Qed.

Lemma add_contact_spec_witness :
  add_contact [lit "Cy"; lit "12345"] demo_state
  = Some (Says (lit "Wrong format! Phone number must be 10 digits long."),
          mkState (heap demo_state ++ [Record_.init (lit "Cy")])
                  (data demo_state)).
Proof.
  apply (proj2 (add_contact_spec demo_state (lit "Cy") (lit "12345"))).
  - reflexivity.
  - intros [Hl _]. discriminate Hl.
Defined.



(** X17.  [show_phone], in a state the handlers reach, lists for a name of
    the book all phones of the record, in the order in which they were
    added, joined by a semicolon and a space; it says that there are no
    phone numbers only for a name that is not in the book.  Without
    arguments it says the text of the [IndexError]. *)
Theorem show_phone_spec (st : State) :
  handler_inv st ->
  (forall name args r self,
     AddressBook.find name st = Some r -> heap st !! r = Some self ->
     show_phone (name :: args) st
     = Some (Says (name ++ lit "'s phone numbers are: "
                   ++ join (lit "; ") (map Phone.value (Record_.phones self))),
             st))
  /\ (forall name args,
        AddressBook.find name st = None ->
        show_phone (name :: args) st
        = Some (Says (lit "No phone numbers for " ++ name ++ lit " found."), st))
  /\ show_phone [] st = Some (Says (lit "list index out of range"), st).
Proof.
  intros Hinv. split; [ | split ].
  - intros name args r self. apply (show_phone_known st Hinv).
  - intros name args. apply show_phone_unknown.
  - apply show_no_args.
Qed.

Lemma show_phone_spec_witness :
  show_phone [lit "Ann"] demo_state
  = Some (Says (lit "Ann's phone numbers are: 1234567890; 1112223334"),
          demo_state).
Proof.
  apply (proj1 (show_phone_spec demo_state demo_state_inv)
           (lit "Ann") [] 0%nat demo_ann eq_refl eq_refl).
Defined.

(** X18.  A birthday set is a birthday shown, as it was typed: after
    [add_birthday] with the name of a record of the book and a string that
    [Birthday] accepts, [show_birthday] of the name says that very string,
    not a rendering of its date.  After [add_birthday] with a string that
    is refused, the state is as before. *)
Theorem birthday_shown_as_typed (st : State) (name s : pystr) (r : ref)
    (self : Record_.t) :
  AddressBook.find name st = Some r -> heap st !! r = Some self ->
  (forall dd, birthday_text s dd ->
     exists st',
       add_birthday [name; s] st
       = Some (Says (lit "Birthday " ++ s ++ lit " added to contact " ++ name
                     ++ lit "."), st')
       /\ show_birthday [name] st'
          = Some (Says (name ++ lit "'s birthday is on " ++ s), st'))
  /\ ((forall dd, ~ birthday_text s dd) ->
      add_birthday [name; s] st
      = Some (Says (lit "Invalid date format. Use DD.MM.YYYY"), st)).
Proof.
  intros Hf Hs.
  destruct (add_birthday_known st name s r self Hf Hs) as [H1 H2]. split.
  - intros dd Ht. apply Birthday_init_text in Ht.
    rewrite (H1 _ Ht). eexists. split; [ reflexivity | ].
    rewrite (show_birthday_known _ name [] r
               (Record_.mk (Record_.name self) (Record_.phones self)
                           (Some (Birthday.mk s dd))));
      [ reflexivity | exact Hf | ].
    simpl. apply list_lookup_insert_eq. eapply lookup_lt_Some, Hs.
  - intros Hno. apply H2.
    destruct (Birthday_init_result s) as [ (b & Hb) | E ]; [ | exact E ].
    exfalso. apply Birthday_init_inv in Hb as [_ Ht]. eapply Hno, Ht.
Qed.

Lemma birthday_shown_as_typed_witness :
  exists st',
    add_birthday [lit "Bob"; lit "1.5.1990"] demo_state
    = Some (Says (lit "Birthday " ++ lit "1.5.1990" ++ lit " added to contact "
                  ++ lit "Bob" ++ lit "."), st')
    /\ show_birthday [lit "Bob"] st'
       = Some (Says (lit "Bob" ++ lit "'s birthday is on " ++ lit "1.5.1990"),
               st').
Proof.
  apply (proj1 (birthday_shown_as_typed demo_state (lit "Bob") (lit "1.5.1990")
                  1%nat demo_bob eq_refl eq_refl) (mkdate 1990 5 1)).
  apply strptime_spec. vm_compute. reflexivity.
Defined.

(** ** Whitespace *)

Lemma isspace_char_In (c : char) :
  isspace_char c = true <-> In c space_chars.
Proof.
  unfold isspace_char. rewrite existsb_exists. split.
  - intros (z & Hz & E). apply Z.eqb_eq in E. now subst.
  - intros H. exists c. split; [ assumption | apply Z.eqb_refl ].
Qed.

Lemma isspace_not_digit (c : char) :
  isspace_char c = true -> isdigit_char c = false.
Proof.
  intros H. apply isspace_char_In in H. unfold space_chars in H. simpl in H.
  repeat (destruct H as [<- | H]; [ vm_compute; reflexivity | ]).
  destruct H.
Qed.

Lemma digit_not_space (c : char) :
  isdigit_char c = true -> isspace_char c = false.
Proof.
  intros H. destruct (isspace_char c) eqn:E; [ | reflexivity ].
  apply isspace_not_digit in E. congruence.
Qed.

Lemma decimal_not_space (c : char) :
  isdecimal_char c = true -> isspace_char c = false.
Proof.
  intros H. apply digit_not_space. unfold isdigit_char. now rewrite H.
Qed.

Lemma lstrip_blank (s : pystr) : lstrip s = [] <-> blank s.
Proof.
  unfold blank. induction s as [ | c s IH ]; simpl.
  - split; [ constructor | reflexivity ].
  - destruct (isspace_char c) eqn:E.
    + rewrite IH. split; [ now constructor | now inversion 1 ].
    + split; [ discriminate | inversion 1; congruence ].
Qed.

Lemma lstrip_head (s : pystr) (c : char) (t : pystr) :
  lstrip s = c :: t -> isspace_char c = false.
Proof.
  induction s as [ | a s IH ]; simpl; [ discriminate | ].
  destruct (isspace_char a) eqn:E; [ exact IH | ].
  now intros [= <- _].
Qed.

Lemma blank_rev (s : pystr) : blank (rev s) <-> blank s.
Proof.
  unfold blank. split; intros H.
  - rewrite <- (rev_involutive s). now apply List.Forall_rev.
  - now apply List.Forall_rev.
Qed.

Lemma lstrip_of_blank (s : pystr) : blank (lstrip s) -> blank s.
Proof.
  intros H. destruct (lstrip s) as [ | c t ] eqn:E.
  - now apply lstrip_blank.
  - apply lstrip_head in E. inversion H; congruence.
Qed.

Lemma strip_blank (s : pystr) : blank (strip s) <-> blank s.
Proof.
  unfold strip, rstrip. split.
  - intros H. apply lstrip_of_blank. apply blank_rev.
    apply lstrip_of_blank. now apply blank_rev.
  - intros H. apply lstrip_blank in H. rewrite H. simpl. constructor.
Qed.

Lemma split_from_nil (s word : pystr) :
  split_from s word = [] <-> word = [] /\ blank s.
Proof.
  unfold blank. revert word. induction s as [ | c s IH ]; intros word; simpl.
  - destruct word; split; try discriminate.
    + intros _. split; [ reflexivity | constructor ].
    + reflexivity.
    + intros [E _]. discriminate E.
  - destruct (isspace_char c) eqn:E.
    + destruct word.
      * rewrite IH. split.
        -- intros [H1 H2]. split; [ assumption | now constructor ].
        -- intros [H1 H2]. split; [ assumption | now inversion H2 ].
      * split; [ discriminate | intros [E' _]; discriminate E' ].
    + rewrite IH. split; [ intros [E' _]; discriminate E' | ].
      intros [_ H]. inversion H; congruence.
Qed.

(** A line of whitespace has no words, and a line without words is a line
    of whitespace. *)
Lemma split_strip_nil (s : pystr) : split (strip s) = [] <-> blank s.
Proof.
  unfold split. rewrite split_from_nil, strip_blank. tauto.
Qed.

Lemma rstrip_newline (s : pystr) (c : char) :
  isspace_char c = false -> rstrip (s ++ [c] ++ [c_nl]) = s ++ [c].
Proof.
  intros Hc. unfold rstrip. rewrite !rev_app_distr. simpl.
  change (isspace_char c_nl) with true. cbv iota. simpl. rewrite Hc.
  simpl. now rewrite rev_involutive.
Qed.

(** ** [show_all] *)

Lemma show_all_loop_concat (records : list Record_.t) :
  forall result,
    show_all_loop records result
    = result ++ concat (map (fun r => Record_str r ++ [c_nl]) records).
Proof.
  induction records as [ | r records IH ]; intros result; simpl.
  - now rewrite app_nil_r.
  - rewrite IH. now rewrite <- app_assoc.
Qed.

Lemma concat_lines (strs : list pystr) :
  strs <> [] ->
  concat (map (fun s => s ++ [c_nl]) strs) = join [c_nl] strs ++ [c_nl].
Proof.
  induction strs as [ | s strs IH ]; [ congruence | intros _ ].
  destruct strs as [ | s' strs ]; simpl.
  - now rewrite app_nil_r.
  - simpl in IH. rewrite IH by discriminate. now rewrite <- !app_assoc.
Qed.

Lemma join_last (sep : pystr) (P : char -> Prop) (items : list pystr) :
  items <> [] ->
  (forall x, In x items -> exists t c, x = t ++ [c] /\ P c) ->
  exists t c, join sep items = t ++ [c] /\ P c.
Proof.
  induction items as [ | x items IH ]; [ congruence | intros _ Hall ].
  destruct items as [ | y items ].
  - simpl. apply Hall. now left.
  - destruct IH as (t & c & E & Hc); [ discriminate | | ].
    { intros z Hz. apply Hall. now right. }
    change (join sep (x :: y :: items)) with (x ++ sep ++ join sep (y :: items)).
    rewrite E. exists (x ++ sep ++ t), c. split; [ | assumption ].
    now rewrite <- !app_assoc.
Qed.

Lemma valid_phone_last (s : pystr) :
  valid_phone s -> exists t c, s = t ++ [c] /\ isspace_char c = false.
Proof.
  intros [Hl Hd]. destruct (exists_last (l := s)) as (t & c & ->).
  { intros ->. discriminate Hl. }
  exists t, c. split; [ reflexivity | ].
  apply Forall_app in Hd as [_ Hc]. inversion Hc; subst.
  now apply digit_not_space.
Qed.

Lemma birthday_text_last (s : pystr) (dd : date) :
  birthday_text s dd -> exists t c, s = t ++ [c] /\ isspace_char c = false.
Proof.
  intros (d & m & Y & -> & _ & _ & HY & _).
  apply lang_re_Y in HY as (y1 & y2 & y3 & y4 & -> & _ & _ & _ & H4).
  exists (d ++ [c_dot] ++ m ++ [c_dot] ++ [y1; y2; y3]), y4.
  split; [ now rewrite <- !app_assoc | now apply decimal_not_space ].
Qed.

(** The text of a record that the handlers keep does not end in
    whitespace. *)
Lemma Record_str_last (self : Record_.t) :
  record_hok self -> Record_.phones self <> [] ->
  exists t c, Record_str self = t ++ [c] /\ isspace_char c = false.
Proof.
  intros ((_ & Hp) & Hb) Hps. unfold Record_str.
  destruct (Record_.birthday self) as [b | ] eqn:Eb.
  - destruct (Birthday_init_inv _ _ (Hb b eq_refl)) as [_ Ht].
    destruct (birthday_text_last _ _ Ht) as (t & c & E & Hc).
    rewrite E. eexists. exists c. split; [ | exact Hc ].
    rewrite !app_assoc. reflexivity.
  - destruct (join_last (lit "; ") (fun c => isspace_char c = false)
                (map Phone.value (Record_.phones self)))
      as (t & c & E & Hc).
    + now destruct (Record_.phones self).
    + intros x Hx. apply in_map_iff in Hx as (p & <- & Hin).
      apply valid_phone_last, Hp, Hin.
    + rewrite E, app_nil_r. eexists. exists c. split; [ | exact Hc ].
      rewrite !app_assoc. reflexivity.
Qed.

Lemma values_records (st : State) (records : list Record_.t) (self : Record_.t) :
  handler_inv st -> AddressBook.values st = Some records -> In self records ->
  record_hok self /\ Record_.phones self <> [].
Proof.
  intros Hinv Hv Hin.
  destruct (values_origin st (handler_inv_wf st Hinv) _ _ Hv Hin)
    as (r & Hf & Hs).
  destruct (handler_inv_find st _ r Hinv Hf) as (self' & p & rest & Hs' & _ & Hps).
  assert (self' = self) as -> by congruence.
  split; [ apply Hinv in Hs; exact Hs | rewrite Hps; discriminate ].
Qed.

(** X19.  [show_all], in a state the handlers reach: on the empty book it
    says that there are no contacts; otherwise it says the line
    "Contacts:" and then the text of each record of the book on a line of
    its own, in the order of the book, with no line feed after the last
    one: the final [strip] removes that line feed and nothing else. *)
Theorem show_all_spec (st : State) :
  handler_inv st ->
  (data st = [] ->
   show_all st = Some (Says (lit "No contacts found."), st))
  /\ (data st <> [] ->
      exists records,
        AddressBook.values st = Some records
        /\ show_all st
           = Some (Says (lit "Contacts:" ++ [c_nl]
                         ++ join [c_nl] (map Record_str records)),
                   st)).
Proof.
  intros Hinv. unfold show_all, input_error, show_all_body, hbind, hgets.
  split.
  - intros ->. reflexivity.
  - intros Hne. destruct (data st) as [ | kr d ] eqn:Ed; [ congruence | ].
    destruct (values_total st (handler_inv_wf st Hinv)) as (records & Hv).
    exists records. split; [ assumption | ]. rewrite Hv.
    assert (Hrec : map Record_str records <> []).
    { apply values_Forall2 in Hv. rewrite Ed in Hv. inversion Hv. discriminate. }
    destruct (join_last [c_nl] (fun c => isspace_char c = false)
                (map Record_str records) Hrec)
      as (t & c & E & Hc).
    { intros x Hx. apply in_map_iff in Hx as (self & <- & Hin).
      destruct (values_records st _ self Hinv Hv Hin) as [Hok Hps].
      now apply Record_str_last. }
    do 2 f_equal. rewrite show_all_loop_concat.
    rewrite <- (map_map Record_str (fun s => s ++ [c_nl])).
    rewrite concat_lines by exact Hrec.
    rewrite E. unfold strip.
    change (lstrip ((lit "Contacts:" ++ [10]) ++ (t ++ [c]) ++ [c_nl]))
      with ((lit "Contacts:" ++ [10]) ++ (t ++ [c]) ++ [c_nl]).
    replace ((lit "Contacts:" ++ [10]) ++ (t ++ [c]) ++ [c_nl])
      with (((lit "Contacts:" ++ [10]) ++ t) ++ [c] ++ [c_nl])
      by now rewrite <- !app_assoc.
    rewrite rstrip_newline by exact Hc.
    now rewrite <- !app_assoc.
Qed.

Lemma show_all_spec_witness :
  show_all demo_state
  = Some (Says (lit "Contacts:" ++ [c_nl]
                ++ lit "Contact name: Ann, phones: 1234567890; 1112223334, birthday: 12.05.1990"
                ++ [c_nl]
                ++ lit "Contact name: Bob, phones: 5555555555"),
          demo_state).
Proof.
  destruct (proj2 (show_all_spec demo_state demo_state_inv) ltac:(discriminate))
    as (records & Hv & E).
  injection Hv as <-. exact E.
Defined.

(** ** [birthdays] *)

Lemma date_new_messages (y m d : Z) (e : exn) :
  1 <= m <= 12 -> date_new y m d = Raise e ->
  (MINYEAR <= y <= MAXYEAR
   /\ e = ValueError (lit "day is out of range for month"))
  \/ (~ MINYEAR <= y <= MAXYEAR
      /\ e = ValueError (lit "year " ++ str_int y ++ lit " is out of range")).
Proof.
  intros Hm. unfold date_new, _check_date_fields.
  destruct (Z.leb_spec MINYEAR y), (Z.leb_spec y MAXYEAR); simpl;
    try (intros [= <-]; right; split; [ lia | reflexivity ]).
  destruct (Z.leb_spec 1 m), (Z.leb_spec m 12); simpl; try lia.
  destruct (_ && _); simpl; [ discriminate | ].
  intros [= <-]. left. split; [ lia | reflexivity ].
Qed.

Lemma next_birthday_messages (today ub : date) (e : exn) :
  date_ok today -> date_ok ub ->
  AddressBook.next_birthday today ub = Raise e ->
  exists msg, e = ValueError msg /\ date_message today msg.
Proof.
  intros (Hy & _) (_ & Hm & _). unfold MINYEAR, MAXYEAR in Hy.
  unfold AddressBook.next_birthday, replace_year, date_message.
  destruct (date_new (year today) (month ub) (day ub)) as [x | e1] eqn:E1; simpl.
  - destruct (date_lt x today); [ | discriminate ].
    intros H. apply (date_new_messages _ _ _ _ Hm) in H as [ [_ ->] | [Hr ->] ].
    + eexists. split; [ reflexivity | now left ].
    + unfold MINYEAR, MAXYEAR in Hr.
      assert (Ey : year today = 9999) by lia.
      rewrite Ey. eexists. split; [ reflexivity | right; split; reflexivity ].
  - intros [= <-].
    apply (date_new_messages _ _ _ _ Hm) in E1 as [ [_ ->] | [Hr _] ].
    + eexists. split; [ reflexivity | now left ].
    + unfold MINYEAR, MAXYEAR in Hr. lia.
Qed.

Lemma loop_body_messages (today : date) (self : Record_.t) (acc : list entry)
    (e : exn) :
  date_ok today ->
  (forall b, Record_.birthday self = Some b -> date_ok (Birthday.date b)) ->
  AddressBook.loop_body today self acc = Raise e ->
  exists msg, e = ValueError msg /\ date_message today msg.
Proof.
  intros Ht Hb. unfold AddressBook.loop_body.
  destruct (Record_.birthday self) as [b | ]; [ | discriminate ].
  destruct (AddressBook.next_birthday today (Birthday.date b)) as [nb | e1] eqn:En;
    simpl;
    [ | intros [= <-];
        exact (next_birthday_messages _ _ _ Ht (Hb b eq_refl) En) ].
  destruct (next_birthday_spec _ _ _ Ht (Hb b eq_refl) En) as (_ & Hnb & _).
  destruct (adjust_for_weekend_spec nb Hnb) as (cd & -> & _).
  simpl. destruct (_ && _); discriminate.
Qed.

Lemma upcoming_loop_messages (today : date) (records : list Record_.t) :
  date_ok today ->
  (forall self b, In self records -> Record_.birthday self = Some b ->
     date_ok (Birthday.date b)) ->
  forall acc e,
    AddressBook.upcoming_loop today records acc = Raise e ->
    exists msg, e = ValueError msg /\ date_message today msg.
Proof.
  intros Ht. induction records as [ | self records IH ]; intros Hb acc e; simpl;
    [ discriminate | ].
  destruct (AddressBook.loop_body today self acc) as [acc' | e1] eqn:E1; simpl.
  - apply IH. intros s b Hs. apply Hb. now right.
  - intros [= <-]. eapply loop_body_messages; [ exact Ht | | exact E1 ].
    intros b. apply Hb. now left.
Qed.

Lemma query_messages (w : World) (st : State) (e : exn) :
  wf_world w -> wf_state st ->
  AddressBook.get_upcoming_birthdays w st = Some (Raise e) ->
  exists msg, e = ValueError msg
              /\ date_message (datetime_date (datetime_today w)) msg.
Proof.
  intros Hw Hwf. unfold AddressBook.get_upcoming_birthdays.
  destruct (AddressBook.values st) as [records | ] eqn:Hv; [ | discriminate ].
  intros [= E].
  eapply (upcoming_loop_messages _ records Hw); [ | exact E ].
  intros self b Hin. eapply values_birthday_ok; eauto.
Qed.

(** X20.  [birthdays], at a clock that shows a date and in a state the
    handlers reach, returns a string and leaves the state as it is.  The
    string is the text of the list of the query, or, when the query raises,
    the message of the exception, which is
    "day is out of range for month", or "year 10000 is out of range" in
    the year 9999. *)
Theorem birthdays_spec (w : World) (st : State) :
  wf_world w -> handler_inv st ->
  (exists out,
     AddressBook.get_upcoming_birthdays w st = Some (Ok out)
     /\ birthdays w st = Some (Says (birthdays_text out), st))
  \/ (exists msg,
        AddressBook.get_upcoming_birthdays w st = Some (Raise (ValueError msg))
        /\ birthdays w st = Some (Says msg, st)
        /\ date_message (datetime_date (datetime_today w)) msg).
Proof.
  intros Hw Hinv. pose proof (handler_inv_wf st Hinv) as Hwf.
  unfold birthdays, input_error, birthdays_body, hbind, of_call.
  destruct (query_cases w st Hw Hwf) as [ (out & E) | (msg & E) ].
  - left. exists out. split; [ assumption | ]. rewrite E.
    now destruct out.
  - right. exists msg. split; [ assumption | ]. rewrite E.
    split; [ reflexivity | ].
    destruct (query_messages w st _ Hw Hwf E) as (msg' & [= <-] & Hm).
    exact Hm.
Qed.

Lemma birthdays_spec_witness :
  wf_world march_2023 /\ handler_inv demo_state
  /\ ((exists out,
         AddressBook.get_upcoming_birthdays march_2023 demo_state = Some (Ok out)
         /\ birthdays march_2023 demo_state
            = Some (Says (birthdays_text out), demo_state))
      \/ (exists msg,
            AddressBook.get_upcoming_birthdays march_2023 demo_state
            = Some (Raise (ValueError msg))
            /\ birthdays march_2023 demo_state = Some (Says msg, demo_state)
            /\ date_message (datetime_date (datetime_today march_2023)) msg)).
Proof.
  split; [ exact march_2023_wf | ]. split; [ exact demo_state_inv | ].
  exact (birthdays_spec march_2023 demo_state march_2023_wf demo_state_inv).
Defined.

Lemma leap_day_loop_body (today : date) (self : Record_.t) (b : Birthday.t)
    (acc : list entry) :
  date_ok today ->
  Record_.birthday self = Some b ->
  month (Birthday.date b) = 2 -> day (Birthday.date b) = 29 ->
  _is_leap (year today) = false
  \/ date_lt (mkdate (year today) 2 29) today = true ->
  exists e, AddressBook.loop_body today self acc = Raise e.
Proof.
  intros (Hy & _) Hb Hm Hd Hcase. unfold MINYEAR, MAXYEAR in Hy.
  unfold AddressBook.loop_body. rewrite Hb.
  assert (Hnb : exists e,
             AddressBook.next_birthday today (Birthday.date b) = Raise e);
    [ | destruct Hnb as (e & ->); now exists e ].
  unfold AddressBook.next_birthday, replace_year. rewrite Hm, Hd.
  assert (Hnot : forall y, _is_leap y = false ->
                   exists e, date_new y 2 29 = Raise e).
  { intros y Hl. unfold date_new, _check_date_fields, _days_in_month.
    rewrite Hl. simpl.
    destruct (negb _); eexists; reflexivity. }
  destruct (date_new (year today) 2 29) as [x | e] eqn:E1; simpl;
    [ | now exists e ].
  apply date_new_ok in E1 as [-> Hok].
  assert (Hl : _is_leap (year today) = true).
  { destruct Hok as (_ & _ & Hday). unfold _days_in_month in Hday.
    simpl in Hday. destruct (_is_leap (year today)) eqn:El; [ reflexivity | ].
    exfalso. table_calc. lia. }
  destruct Hcase as [Hc | Hc]; [ congruence | ].
  rewrite Hc. apply Hnot.
  destruct (leap_cases (year today)) as [ (_ & H4 & _) | (Hl' & _) ];
    [ | congruence ].
  destruct (leap_cases (year today + 1)) as [ (_ & H4' & _) | (Hl' & _) ];
    [ | assumption ].
  exfalso. revert H4 H4'. clear. intros. Z.div_mod_to_equations. lia.
Qed.

(** X21.  With a contact born on 29 February in the book, [birthdays] says
    the message of a date that [replace] refuses, not a list, whenever the
    year of the clock is a common year or 29 February of that year is
    before the date of the clock; the state stays as it is. *)
Theorem birthdays_on_leap_day (w : World) (st : State)
    (name : pystr) (r : ref) (self : Record_.t) (b : Birthday.t) :
  wf_world w -> handler_inv st ->
  AddressBook.find name st = Some r -> heap st !! r = Some self ->
  Record_.birthday self = Some b ->
  month (Birthday.date b) = 2 -> day (Birthday.date b) = 29 ->
  _is_leap (year (datetime_date (datetime_today w))) = false
  \/ date_lt (mkdate (year (datetime_date (datetime_today w))) 2 29)
       (datetime_date (datetime_today w)) = true ->
  exists msg,
    birthdays w st = Some (Says msg, st)
    /\ date_message (datetime_date (datetime_today w)) msg.
Proof.
  intros Hw Hinv Hf Hs Hb Hm Hd Hcase.
  pose proof (handler_inv_wf st Hinv) as Hwf.
  assert (Hq : exists e,
             AddressBook.get_upcoming_birthdays w st = Some (Raise e)).
  { unfold AddressBook.get_upcoming_birthdays.
    destruct (values_total st Hwf) as (records & Hv). rewrite Hv.
    pose proof (values_found st Hwf _ _ _ _ Hv Hf Hs) as Hin.
    destruct (upcoming_loop_raises (datetime_date (datetime_today w))
                records self Hin) with (acc := @nil entry)
      as (e & He); [ | exists e; now rewrite He ].
    intros acc. now apply (leap_day_loop_body _ self b). }
  destruct Hq as (e & Hq).
  destruct (query_messages w st e Hw Hwf Hq) as (msg & -> & Hmsg).
  exists msg. split; [ | exact Hmsg ].
  unfold birthdays, input_error, birthdays_body, hbind, of_call.
  now rewrite Hq.
Qed.

Lemma demo_leap_state_inv : handler_inv demo_leap_state.
Proof.
  apply (handle_all_reaches demo_leap_commands);
    [ repeat constructor | vm_compute; reflexivity ].
Qed.

Lemma birthdays_on_leap_day_witness :
  exists msg,
    birthdays march_2023 demo_leap_state = Some (Says msg, demo_leap_state)
    /\ date_message (datetime_date (datetime_today march_2023)) msg.
Proof.
  apply (birthdays_on_leap_day march_2023 demo_leap_state (lit "Leo") 0%nat
           demo_leo (Birthday.mk (lit "29.02.2000") (mkdate 2000 2 29))
           march_2023_wf demo_leap_state_inv);
    try reflexivity.
  left. reflexivity.
Defined.

(** * [parse_input] and [main] *)

Lemma split_from_words (s : pystr) :
  forall word,
    Forall (fun c => isspace_char c = false) word ->
    Forall (fun a => a <> [] /\ Forall (fun c => isspace_char c = false) a)
      (split_from s word).
Proof.
  assert (Hrev : forall word,
             Forall (fun c => isspace_char c = false) word -> word <> [] ->
             rev word <> []
             /\ Forall (fun c => isspace_char c = false) (rev word)).
  { intros word Hw Hne. split; [ | now apply List.Forall_rev ].
    intros E. apply Hne. rewrite <- (rev_involutive word), E. reflexivity. }
  induction s as [ | c s IH ]; intros word Hw; simpl.
  - destruct word; [ constructor | ].
    constructor; [ now apply Hrev | constructor ].
  - destruct (isspace_char c) eqn:E.
    + destruct word; [ apply IH; constructor | ].
      constructor; [ now apply Hrev | apply IH; constructor ].
    + apply IH. now constructor.
Qed.

Section MainProperties.

Variable lower : pystr -> pystr.

Lemma parse_input_cases (user_input : pystr) :
  (blank user_input /\ parse_input lower user_input = Ok (inr no_words))
  \/ (exists cmd args,
        split (strip user_input) = cmd :: args
        /\ parse_input lower user_input = Ok (inl (lower cmd, args))).
Proof.
  unfold parse_input, parse_input_body.
  destruct (split (strip user_input)) as [ | cmd args ] eqn:Es.
  - left. split; [ now apply split_strip_nil | reflexivity ].
  - right. now exists cmd, args.
Qed.

Lemma dispatch_inv (w : World) (cmd : pystr) (args : list pystr) (st : State) :
  wf_world w -> handler_inv st ->
  exists s st', dispatch w cmd args st = Some (Says s, st') /\ handler_inv st'.
Proof.
  intros Hw Hinv. unfold dispatch.
  repeat match goal with
         | |- context [if ?b then _ else _] => destruct b
         end;
    try (eexists; eexists; split; [ reflexivity | exact Hinv ]).
  - exact (handle_inv (CmdAdd args) st I Hinv).
  - exact (handle_inv (CmdChange args) st I Hinv).
  - exact (handle_inv (CmdPhone args) st I Hinv).
  - exact (handle_inv CmdAll st I Hinv).
  - exact (handle_inv (CmdAddBirthday args) st I Hinv).
  - exact (handle_inv (CmdShowBirthday args) st I Hinv).
  - exact (handle_inv (CmdBirthdays w) st Hw Hinv).
Qed.

Lemma main_loop_ends (inputs : list (World * pystr)) :
  Forall (fun i => wf_world (fst i)) inputs ->
  forall st out, handler_inv st ->
  exists e out' st',
    main_loop lower inputs st out = Some (e, out', st')
    /\ handler_inv st' /\ ending_ok lower inputs e.
Proof.
  induction 1 as [ | [w line] inputs Hw Hws IH ]; intros st out Hinv.
  - simpl. do 3 eexists. split; [ reflexivity | ].
    split; [ exact Hinv | ]. left. split; [ reflexivity | constructor ].
  - cbn [main_loop].
    destruct (parse_input_cases line) as [ [Hb ->] | (cmd & args & Es & ->) ].
    + change (main_unpack (inr no_words)) with (@Raise (pystr * list pystr) unpack_error).
      do 3 eexists. split; [ reflexivity | ]. split; [ exact Hinv | ].
      right. right. split; [ reflexivity | now constructor ].
    + cbn [main_unpack].
      assert (Hnb : ~ blank line).
      { intros Hb. apply split_strip_nil in Hb. congruence. }
      destruct (pystr_eqb_spec (lower cmd) (lit "close")) as [Ec | Ec].
      { do 3 eexists. split; [ reflexivity | ]. split; [ exact Hinv | ].
        right. left. split; [ reflexivity | ].
        constructor. exists cmd, args. auto. }
      destruct (pystr_eqb_spec (lower cmd) (lit "exit")) as [Ee | Ee].
      { do 3 eexists. split; [ reflexivity | ]. split; [ exact Hinv | ].
        right. left. split; [ reflexivity | ].
        constructor. exists cmd, args. auto. }
      cbn [orb].
      destruct (dispatch_inv w (lower cmd) args st Hw Hinv)
        as (s & st1 & -> & Hinv1).
      destruct (IH st1 ((out ++ [Prompted (lit "Enter a command: ")])
                        ++ [Printed s]) Hinv1)
        as (e & out' & st' & E & Hinv' & Hend).
      exists e, out', st'. split; [ exact E | ]. split; [ exact Hinv' | ].
      destruct Hend as [ [-> Hall] | [ [-> Hex] | [-> Hex] ] ].
      * left. split; [ reflexivity | ]. constructor; [ | exact Hall ].
        split; [ exact Hnb | ].
        intros (cmd' & args' & Es' & Hstop). simpl in Es'.
        rewrite Es in Es'. injection Es' as <- <-. tauto.
      * right. left. split; [ reflexivity | now apply Exists_cons_tl ].
      * right. right. split; [ reflexivity | now apply Exists_cons_tl ].
Qed.

End MainProperties.

Lemma split_from_blank (ws word : pystr) :
  blank ws ->
  split_from ws word = match word with [] => [] | _ => [rev word] end.
Proof.
  unfold blank. intros H. revert word.
  induction H as [ | c ws Hc Hws IH ]; intros word; simpl; [ reflexivity | ].
  rewrite Hc. destruct word; [ exact (IH []) | now rewrite (IH []) ].
Qed.

Lemma split_from_app_blank (s ws word : pystr) :
  blank ws -> split_from (s ++ ws) word = split_from s word.
Proof.
  intros H. revert word. induction s as [ | c s IH ]; intros word; simpl.
  - now rewrite split_from_blank.
  - destruct (isspace_char c); [ destruct word; now rewrite IH | apply IH ].
Qed.

Lemma lstrip_decomp (s : pystr) : exists ws, blank ws /\ s = ws ++ lstrip s.
Proof.
  induction s as [ | c s (ws & Hb & E) ]; simpl.
  - exists []. split; [ constructor | reflexivity ].
  - destruct (isspace_char c) eqn:Ec.
    + exists (c :: ws). split; [ now constructor | ]. simpl. now f_equal.
    + exists []. split; [ constructor | reflexivity ].
Qed.

Lemma rstrip_decomp (s : pystr) : exists ws, blank ws /\ s = rstrip s ++ ws.
Proof.
  destruct (lstrip_decomp (rev s)) as (ws & Hb & E).
  exists (rev ws). split; [ now apply blank_rev | ].
  unfold rstrip. rewrite <- rev_app_distr, <- E. now rewrite rev_involutive.
Qed.

Lemma split_lstrip (s : pystr) : split_from (lstrip s) [] = split_from s [].
Proof.
  induction s as [ | c s IH ]; simpl; [ reflexivity | ].
  destruct (isspace_char c) eqn:E; [ exact IH | ].
  simpl. now rewrite E.
Qed.

(** [split] does not see the whitespace that [strip] removes. *)
Lemma split_strip (s : pystr) : split (strip s) = split s.
Proof.
  unfold split, strip.
  destruct (rstrip_decomp (lstrip s)) as (ws & Hb & E).
  rewrite <- (split_lstrip s).
  transitivity (split_from (rstrip (lstrip s) ++ ws) []);
    [ symmetry; now apply split_from_app_blank | now rewrite <- E ].
Qed.

Lemma split_from_concat (s : pystr) :
  forall word,
    concat (split_from s word)
    = rev word ++ List.filter (fun c => negb (isspace_char c)) s.
Proof.
  induction s as [ | c s IH ]; intros word; simpl.
  - destruct word; [ reflexivity | ]. simpl. now rewrite !app_nil_r.
  - destruct (isspace_char c); simpl.
    + destruct word; [ apply IH | ]. simpl. now rewrite (IH []).
    + rewrite IH. simpl. now rewrite <- app_assoc.
Qed.

(** The words of a line, one after the other, are the line without its
    whitespace. *)
Lemma split_concat (s : pystr) :
  concat (split s) = List.filter (fun c => negb (isspace_char c)) s.
Proof. unfold split. now rewrite split_from_concat. Qed.

(** X22.  [parse_input]: a line of whitespace, or the empty line, gives
    the string of the unpacking error in place of a pair; any other line
    gives the first word of the line in lower case and the list of its
    other words, as they are.  The words are those of [split] on the line,
    before or after [strip]; none is empty or holds whitespace, and put
    one after the other they are the line without its whitespace. *)
Theorem parse_input_spec (lower : pystr -> pystr) (user_input : pystr) :
  (blank user_input
   /\ split user_input = []
   /\ parse_input lower user_input
      = Ok (inr (lit "not enough values to unpack (expected at least 1, got 0)")))
  \/ (~ blank user_input
      /\ exists cmd args,
           split (strip user_input) = cmd :: args
           /\ split user_input = cmd :: args
           /\ parse_input lower user_input = Ok (inl (lower cmd, args))
           /\ Forall (fun a => a <> []
                               /\ Forall (fun c => isspace_char c = false) a)
                (cmd :: args)
           /\ concat (cmd :: args)
              = List.filter (fun c => negb (isspace_char c)) user_input).
Proof.
  destruct (parse_input_cases lower user_input)
    as [ [Hb E] | (cmd & args & Es & E) ].
  - left. split; [ exact Hb | ]. split; [ | exact E ].
    rewrite <- split_strip. now apply split_strip_nil.
  - right. split.
    + intros Hb. apply split_strip_nil in Hb. congruence.
    + exists cmd, args. split; [ exact Es | ].
      split; [ now rewrite <- split_strip | ]. split; [ exact E | ].
      split; [ rewrite <- Es; apply split_from_words; constructor | ].
      rewrite <- Es, split_strip. apply split_concat.
Qed.

Lemma parse_input_spec_witness :
  parse_input ascii_lower (lit "  ADD  Ann 1234567890 ")
  = Ok (inl (lit "add", [lit "Ann"; lit "1234567890"])).
Proof.
  destruct (parse_input_spec ascii_lower (lit "  ADD  Ann 1234567890 "))
    as [ (_ & Es & _) | (_ & cmd & args & _ & Es & E & _) ].
  - vm_compute in Es. discriminate Es.
  - vm_compute in Es. injection Es as <- <-. exact E.
Defined.

(** X23.  A line of whitespace, or the empty line, ends [main] with an
    exception that nothing catches: [parse_input] returns a string, and
    taking it apart as a pair raises
    [ValueError: too many values to unpack (expected 2)].  Nothing is
    printed for the line, and the lines after it are not read. *)
Theorem blank_line_ends_main (lower : pystr -> pystr) (w : World)
    (user_input : pystr) (inputs : list (World * pystr)) (st : State)
    (out : list event) :
  blank user_input ->
  main_loop lower ((w, user_input) :: inputs) st out
  = Some (Uncaught (ValueError (lit "too many values to unpack (expected 2)")),
          out ++ [Prompted (lit "Enter a command: ")], st).
Proof.
  intros Hb. cbn [main_loop].
  destruct (parse_input_cases lower user_input)
    as [ [_ ->] | (cmd & args & Es & _) ].
  - reflexivity.
  - apply split_strip_nil in Hb. congruence.
Qed.

Lemma blank_line_ends_main_witness :
  main_loop ascii_lower
    [ (march_2023, lit "   "); (march_2023, lit "hello") ] demo_state []
  = Some (Uncaught (ValueError (lit "too many values to unpack (expected 2)")),
          [Prompted (lit "Enter a command: ")], demo_state).
Proof.
  apply (blank_line_ends_main ascii_lower march_2023 (lit "   ")
           [ (march_2023, lit "hello") ] demo_state []).
  repeat constructor.
Defined.

(** X24.  A run of [main] on lines read at clocks that show a date ends,
    in a state of the invariant of the handlers, in one of three ways: the
    input is used up, and then no line was blank and no line had [close]
    or [exit] as its first word; or the loop breaks, and then some line
    has [close] or [exit] as its first word in lower case; or the
    unpacking error of a blank line escapes.  No exception of a handler
    ends the program. *)
Theorem main_ends (lower : pystr -> pystr) (inputs : list (World * pystr)) :
  Forall (fun i => wf_world (fst i)) inputs ->
  exists e out st,
    main lower inputs = Some (e, out, st)
    /\ handler_inv st
    /\ ((e = EOFError
         /\ Forall (fun i => ~ blank (snd i) /\ ~ stop_line lower (snd i)) inputs)
        \/ (e = Bye /\ Exists (fun i => stop_line lower (snd i)) inputs)
        \/ (e = Uncaught (ValueError (lit "too many values to unpack (expected 2)"))
            /\ Exists (fun i => blank (snd i)) inputs)).
Proof.
  intros Hws. unfold main.
  exact (main_loop_ends lower inputs Hws init_state _ handler_inv_init).
Qed.

Lemma main_ends_witness :
  exists e out st,
    main ascii_lower
      [ (march_2023, lit "add Ann 1234567890"); (march_2023, lit "EXIT") ]
    = Some (e, out, st)
    /\ handler_inv st
    /\ ((e = EOFError
         /\ Forall (fun i => ~ blank (snd i) /\ ~ stop_line ascii_lower (snd i))
              [ (march_2023, lit "add Ann 1234567890");
                (march_2023, lit "EXIT") ])
        \/ (e = Bye
            /\ Exists (fun i => stop_line ascii_lower (snd i))
                 [ (march_2023, lit "add Ann 1234567890");
                   (march_2023, lit "EXIT") ])
        \/ (e = Uncaught (ValueError (lit "too many values to unpack (expected 2)"))
            /\ Exists (fun i => blank (snd i))
                 [ (march_2023, lit "add Ann 1234567890");
                   (march_2023, lit "EXIT") ])).
Proof.
  apply (main_ends ascii_lower
           [ (march_2023, lit "add Ann 1234567890"); (march_2023, lit "EXIT") ]).
  repeat (constructor; [ exact march_2023_wf | ]). constructor.
Defined.

(** The session of the witness: a contact is added, and [EXIT] in capital
    letters breaks the loop. *)
Example main_session :
  main ascii_lower
    [ (march_2023, lit "add Ann 1234567890"); (march_2023, lit "EXIT") ]
  = Some (Bye,
          [ Printed (lit "Welcome to the assistant bot!");
            Prompted (lit "Enter a command: ");
            Printed (lit "Contact Ann with phone 1234567890 added.");
            Prompted (lit "Enter a command: ");
            Printed (lit "Good bye!") ],
          mkState [Record_.mk (Name.mk (lit "Ann")) [Phone.mk (lit "1234567890")]
                     None]
            [(lit "Ann", 0%nat)]).
Proof. vm_compute. reflexivity. Qed.

(** ** What the handlers never do *)

Lemma dict_get_app {V} (k : pystr) (d more : dict V) (v : V) :
  dict_get k d = Some v -> dict_get k (d ++ more) = Some v.
Proof.
  induction d as [ | [k' v'] d IH ]; simpl; [ discriminate | ].
  destruct (pystr_eqb k' k); [ trivial | exact IH ].
Qed.

(** X25.  No run of handlers removes anything: a name that the book finds
    before the run it finds after it, at the same object; the object has
    the same name, no fewer phones, and a birthday if it had one. *)
Theorem contacts_are_kept (cs : list command) (st st' : State)
    (name : pystr) (r : ref) (self : Record_.t) :
  Forall command_ok cs -> handler_inv st ->
  handle_all cs st = Some st' ->
  AddressBook.find name st = Some r -> heap st !! r = Some self ->
  exists self',
    AddressBook.find name st' = Some r /\ heap st' !! r = Some self'
    /\ Record_.name self' = Record_.name self
    /\ (length (Record_.phones self) <= length (Record_.phones self'))%nat
    /\ (Record_.birthday self <> None -> Record_.birthday self' <> None).
Proof.
  intros Hcs Hinv Hrun Hf Hs.
  destruct (handle_all_grows cs Hcs st st' Hinv Hrun) as [(more & Ed) Hobj].
  destruct (Hobj r self Hs) as (self' & Hs' & Hrest).
  exists self'. split; [ | split; assumption ].
  unfold AddressBook.find in *. rewrite Ed. now apply dict_get_app.
Qed.

Lemma contacts_are_kept_witness :
  exists self',
    AddressBook.find (lit "Ann") demo_state = Some 0%nat
    /\ heap demo_state !! 0%nat = Some self'
    /\ Record_.name self' = Name.mk (lit "Ann")
    /\ (1 <= length (Record_.phones self'))%nat
    /\ (@None Birthday.t <> None -> Record_.birthday self' <> None).
Proof.
  apply (contacts_are_kept (tl demo_commands)
           (mkState [Record_.mk (Name.mk (lit "Ann"))
                       [Phone.mk (lit "1234567890")] None]
              [(lit "Ann", 0%nat)])
           demo_state (lit "Ann") 0%nat
           (Record_.mk (Name.mk (lit "Ann")) [Phone.mk (lit "1234567890")] None)).
  - repeat constructor.
  - apply (handle_all_reaches [CmdAdd [lit "Ann"; lit "1234567890"]]);
      [ repeat constructor | reflexivity ].
  - vm_compute. reflexivity.
  - reflexivity.
  - reflexivity.
Defined.
